(** * can4python: signal codec, CAN frames and the BCM transmission state machine

    A shallow embedding of the modules [utilities], [cansignal], [canframe],
    [canframe_definition], [caninterface_bcm] and [canbus] of can4python,
    with the properties of the codec and of the transmission state machine
    proved over it.

    Conventions of the embedding:
    - Python [int] is [Z]; [bytes] and [bytearray] are [list byte];
    - Python [float] is a binary64 value of the Standard Library's IEEE-754
      specification ([spec_float] with precision 53 and maximal exponent
      1024, rounding to nearest even);
    - an exception is a value [Raise e] of the [result] type;
    - a [dict] is a [gmap], or the list of its items in the order of their
      iteration where the code iterates over it; the socket is the list of
      messages written to it. *)

From Stdlib Require Import ZArith Lia Bool.
From Stdlib Require Import Strings.Byte Strings.Ascii.
From Stdlib Require Import Floats.SpecFloat.
From Stdlib Require Floats.PrimFloat Floats.FloatOps Floats.FloatAxioms.
From Stdlib Require Numbers.Cyclic.Int63.Uint63.
From stdpp Require Import base list list_numbers gmap strings.

Local Open Scope Z_scope.

(** ** Exceptions *)

(** The messages of the [CanException]s raised by the modelled code. *)
Inductive can_error :=
  | NormalBitnumberTooSmall
  | NormalBitnumberTooLarge
  | BackwardBitnumberTooSmall
  | BackwardBitnumberTooLarge
  | WrongTwosComplementValue
  | WrongTwosComplementInverseValue
  | InvalidTimeInterval
  | WrongFrameFormat
  | FrameIdNone
  | FrameIdNegative
  | FrameIdTooLargeStandard
  | FrameIdTooLargeExtended
  | FrameDataNone
  | FrameDataWrongLength
  | WrongNumberOfBytes
  | RawframeIllegal
  | FrameTooShortForSignal
  | PhysicalValueOutOfRange
  | ReceivedFrameWrongLength
  | WrongInterval
  | UnknownSignalname
  | NoArgumentsGiven
  | StartbitOutOfRange
  | NumberofbitsOutOfRange
  | WrongSignalDefinitionLittleEndian
  | WrongSignalDefinitionBigEndian
  | WrongNumberOfBitsSingle
  | WrongNumberOfBitsDouble
  | ScalingfactorNotPositive
  | AttributeOutOfRange
  | DlcOutOfRange
  | CycletimeOutOfRange.

Inductive exn :=
  | CanException (msg : can_error)
  | AssertionError
  | IndexError
  | ValueError
  | OverflowError
  | StructError
  | KeyError
  | TypeError
  | ZeroDivisionError.

Inductive result (A : Type) :=
  | Ok (a : A)
  | Raise (e : exn).
Arguments Ok {A} a.
Arguments Raise {A} e.

Global Instance result_ret : MRet result := fun A a => Ok a.
Global Instance result_bind : MBind result := fun A B k r =>
  match r with
  | Ok a => k a
  | Raise e => Raise e
  end.

Definition assert (b : bool) : result unit :=
  if b then Ok tt else Raise AssertionError.

Definition raise_if (b : bool) (e : exn) : result unit :=
  if b then Raise e else Ok tt.

Definition is_ok {A} (r : result A) : bool :=
  match r with Ok _ => true | Raise _ => false end.

(** [for x in l: acc = f(acc, x)], stopping at the first exception. *)
Fixpoint foldM {A B} (f : A -> B -> result A) (l : list B) (acc : A) : result A :=
  match l with
  | [] => Ok acc
  | x :: l' => acc' ← f acc x; foldM f l' acc'
  end.

(** ** Python sequences *)

Definition byte_to_Z (b : byte) : Z := Z.of_N (Byte.to_N b).

Definition byte_of_Z (z : Z) : byte :=
  match Byte.of_N (Z.to_N (z mod 256)) with
  | Some b => b
  | None => x00
  end.

(** [range(n)] *)
Definition range (n : Z) : list Z := seqZ 0 n.

(** [l[i]], with Python's negative indices. *)
Definition py_getitem {A} (l : list A) (i : Z) : result A :=
  let n := Z.of_nat (length l) in
  let j := if i <? 0 then i + n else i in
  if (j <? 0) || (n <=? j) then Raise IndexError
  else match l !! Z.to_nat j with
       | Some x => Ok x
       | None => Raise IndexError
       end.

(** [l[i] = x] *)
Definition py_setitem {A} (l : list A) (i : Z) (x : A) : result (list A) :=
  let n := Z.of_nat (length l) in
  let j := if i <? 0 then i + n else i in
  if (j <? 0) || (n <=? j) then Raise IndexError
  else Ok (<[Z.to_nat j := x]> l).

(** [l[0:stop]] *)
Definition py_slice_to {A} (l : list A) (stop : Z) : list A :=
  let n := Z.of_nat (length l) in
  let j := if stop <? 0 then Z.max 0 (stop + n) else stop in
  take (Z.to_nat j) l.

(** [b.ljust(width, fill)] and [b.rjust(width, fill)] *)
Definition ljust (b : list byte) (width : Z) (fill : byte) : list byte :=
  b ++ replicate (Z.to_nat width - length b) fill.

Definition rjust (b : list byte) (width : Z) (fill : byte) : list byte :=
  replicate (Z.to_nat width - length b) fill ++ b.

(** ** [struct]: fixed-size unsigned integers *)

(** The bytes of an unsigned integer, most significant first. *)
Fixpoint be_bytes_to_Z (l : list byte) : Z :=
  match l with
  | [] => 0
  | b :: r => Z.lor (Z.shiftl (byte_to_Z b) (8 * Z.of_nat (length r))) (be_bytes_to_Z r)
  end.

Fixpoint Z_to_be_bytes (n : nat) (x : Z) : list byte :=
  match n with
  | O => []
  | S n' => byte_of_Z (Z.shiftr x (8 * Z.of_nat n')) :: Z_to_be_bytes n' x
  end.

(** [struct.pack(">Q", x)], [struct.pack(">I", x)] and their inverses. *)
Definition pack_uint_be (n : nat) (x : Z) : result (list byte) :=
  if (x <? 0) || (2 ^ (8 * Z.of_nat n) <=? x) then Raise StructError
  else Ok (Z_to_be_bytes n x).

Definition unpack_uint_be (n : nat) (b : list byte) : result Z :=
  if negb (length b =? n)%nat then Raise StructError
  else Ok (be_bytes_to_Z b).

(** ** constants.py *)

Inductive endianness_t := LITTLE_ENDIAN | BIG_ENDIAN.
Inductive signaltype_t :=
  | CAN_SIGNALTYPE_UNSIGNED
  | CAN_SIGNALTYPE_SIGNED
  | CAN_SIGNALTYPE_SINGLE
  | CAN_SIGNALTYPE_DOUBLE.
Inductive frame_format_t := CAN_FRAMEFORMAT_STANDARD | CAN_FRAMEFORMAT_EXTENDED.

Global Instance endianness_eq_dec : EqDecision endianness_t.
Proof. solve_decision. Defined.
Global Instance signaltype_eq_dec : EqDecision signaltype_t.
Proof. solve_decision. Defined.
Global Instance frame_format_eq_dec : EqDecision frame_format_t.
Proof. solve_decision. Defined.

Definition MAX_NUMBER_OF_CAN_DATA_BYTES : Z := 8.
Definition BITS_PER_BYTE : Z := 8.
Definition BITS_IN_FULL_DATA : Z := MAX_NUMBER_OF_CAN_DATA_BYTES * BITS_PER_BYTE.
Definition BITS_IN_SINGLE_PRECISION_FLOAT : Z := 32.
Definition BITS_IN_DOUBLE_PRECISION_FLOAT : Z := 64.

Definition MAX_CAN_FRAME_ID_STANDARD : Z := 0x7ff.
Definition MAX_CAN_FRAME_ID_EXTENDED : Z := 0x1fffffff.
Definition CAN_MASK_EXTENDED_FRAME_BIT : Z := 0x80000000.
Definition CAN_MASK_REMOTE_REQUEST_BIT : Z := 0x40000000.
Definition CAN_MASK_ERROR_BIT : Z := 0x20000000.
Definition CAN_MASK_ID_ONLY : Z := 0x1FFFFFFF.

Definition BCM_FLAG_SETTIMER : Z := 0x0001.
Definition BCM_FLAG_STARTTIMER : Z := 0x0002.
Definition BCM_FLAG_RX_FILTER_ID : Z := 0x0020.
Definition BCM_FLAG_RX_CHECK_DLC : Z := 0x0040.

Definition MICROSECONDS_PER_SECOND : Z := 1000000.
Definition MILLISECONDS_PER_SECOND : Z := 1000.
Definition MAX_FRAME_CYCLETIME_MILLISECONDS : Z := 60000.

Definition NULL_BYTE : byte := x00.

Inductive transmission_status :=
  | STATUS_NONPERIODIC
  | STATUS_PERIODIC
  | STATUS_PERIODIC_NOT_YET_STARTED.

Global Instance transmission_status_eq_dec : EqDecision transmission_status.
Proof. solve_decision. Defined.

(** ** utilities.py: bit numbering, integers and bytes *)

Definition calculate_backward_bitnumber (normal_bitnumber : Z) : result Z :=
  if normal_bitnumber <? 0 then Raise (CanException NormalBitnumberTooSmall)
  else if normal_bitnumber >? BITS_IN_FULL_DATA - 1
  then Raise (CanException NormalBitnumberTooLarge)
  else
    let bytenumber := normal_bitnumber / BITS_PER_BYTE in
    let offset_in_the_byte := normal_bitnumber - bytenumber * BITS_PER_BYTE in
    let basevalue_per_byte :=
      (MAX_NUMBER_OF_CAN_DATA_BYTES - 1 - bytenumber) * BITS_PER_BYTE in
    Ok (basevalue_per_byte + offset_in_the_byte).

Definition calculate_normal_bitnumber (backward_bitnumber : Z) : result Z :=
  if backward_bitnumber <? 0 then Raise (CanException BackwardBitnumberTooSmall)
  else if backward_bitnumber >? BITS_IN_FULL_DATA - 1
  then Raise (CanException BackwardBitnumberTooLarge)
  else
    let bytenumber :=
      MAX_NUMBER_OF_CAN_DATA_BYTES - 1 - backward_bitnumber / BITS_PER_BYTE in
    let offset_in_the_byte :=
      backward_bitnumber
      - (MAX_NUMBER_OF_CAN_DATA_BYTES - 1 - bytenumber) * BITS_PER_BYTE in
    Ok (offset_in_the_byte + bytenumber * BITS_PER_BYTE).

(** Both conversions compute the same function on the bit numbers 0..63:
    the byte index is mirrored and the offset in the byte is kept. *)
Definition backward_bitnumber (n : Z) : Z := (7 - n / 8) * 8 + n mod 8.

(** [field_index e start p]: the index, in a field with start bit [start],
    of bit [p] of the 64-bit frame integer; [field_position e start j]: the
    bit of the frame integer that holds bit [j] of the field. *)
Definition field_index (e : endianness_t) (start p : Z) : Z :=
  match e with
  | BIG_ENDIAN => p - backward_bitnumber start
  | LITTLE_ENDIAN => backward_bitnumber p - start
  end.

Definition field_position (e : endianness_t) (start j : Z) : Z :=
  match e with
  | BIG_ENDIAN => backward_bitnumber start + j
  | LITTLE_ENDIAN => backward_bitnumber (start + j)
  end.

(** A field of [n] bits with start bit [start] lies within the 64 bits. *)
Definition field_fits (e : endianness_t) (start n : Z) : Prop :=
  0 <= start <= 63 /\ 1 <= n <= 64 /\
  match e with
  | LITTLE_ENDIAN => start + n <= 64
  | BIG_ENDIAN => backward_bitnumber start + n <= 64
  end.

(** The bytes that a field needs, as [get_minimum_dlc] counts them. *)
Definition field_minimum_dlc (e : endianness_t) (start n : Z) : Z :=
  match e with
  | BIG_ENDIAN => start / 8
  | LITTLE_ENDIAN => (start + n - 1) / 8
  end + 1.

Definition can_bytes_to_int (input_bytes : list byte) : result Z :=
  assert (Z.of_nat (length input_bytes) <=? MAX_NUMBER_OF_CAN_DATA_BYTES) ;;
  let framedata8bytes := ljust input_bytes MAX_NUMBER_OF_CAN_DATA_BYTES NULL_BYTE in
  unpack_uint_be 8 framedata8bytes.

Definition int_to_can_bytes (dlc : Z) (dataint : Z) : result (list byte) :=
  assert (dlc <=? MAX_NUMBER_OF_CAN_DATA_BYTES) ;;
  framedata8bytes ← pack_uint_be 8 dataint;
  Ok (py_slice_to framedata8bytes dlc).

Definition twos_complement (value bits : Z) : result Z :=
  let maxvalue := 2 ^ (bits - 1) - 1 in
  let minvalue := - 2 ^ (bits - 1) in
  if (value >? maxvalue) || (value <? minvalue)
  then Raise (CanException WrongTwosComplementValue)
  else if value >=? 0 then Ok value
  else Ok (value + 2 ^ bits).

Definition from_twos_complement (value bits : Z) : result Z :=
  let maxvalue := 2 ^ bits - 1 in
  if (value <? 0) || (value >? maxvalue)
  then Raise (CanException WrongTwosComplementInverseValue)
  else
    let max_positive_value := 2 ^ (bits - 1) - 1 in
    if value <=? max_positive_value then Ok value
    else Ok (value - 2 ^ bits).

(** The frame format is an enumeration here, so the test that it is one of
    the two known strings cannot fail; the identifier is an integer. *)
Definition check_frame_id_and_format (frame_id : Z) (frame_format : frame_format_t)
  : result unit :=
  if frame_id <? 0 then Raise (CanException FrameIdNegative)
  else if bool_decide (frame_format = CAN_FRAMEFORMAT_STANDARD)
          && (frame_id >? MAX_CAN_FRAME_ID_STANDARD)
  then Raise (CanException FrameIdTooLargeStandard)
  else if bool_decide (frame_format = CAN_FRAMEFORMAT_EXTENDED)
          && (frame_id >? MAX_CAN_FRAME_ID_EXTENDED)
  then Raise (CanException FrameIdTooLargeExtended)
  else Ok tt.

Definition get_busvalue_from_bytes
    (input_bytes : list byte) (endianness : endianness_t) (numberofbits startbit : Z)
  : result Z :=
  shifted ←
    match endianness with
    | BIG_ENDIAN =>
        extract_shifts ← calculate_backward_bitnumber startbit;
        dataint ← can_bytes_to_int input_bytes;
        Ok (Z.shiftr dataint extract_shifts)
    | LITTLE_ENDIAN =>
        let bytenumber_for_startbit := startbit / BITS_PER_BYTE in
        assert (bytenumber_for_startbit <? MAX_NUMBER_OF_CAN_DATA_BYTES) ;;
        let stopbit_little := startbit + numberofbits - 1 in
        let bytenumber_for_stopbit_little := stopbit_little / BITS_PER_BYTE in
        assert (bytenumber_for_stopbit_little <? MAX_NUMBER_OF_CAN_DATA_BYTES) ;;
        let number_of_bytes_to_shuffle :=
          bytenumber_for_stopbit_little - bytenumber_for_startbit + 1 in
        let number_of_steps_to_LSBit_in_byte := startbit mod BITS_PER_BYTE in
        let reshuffled_bytes :=
          replicate (Z.to_nat MAX_NUMBER_OF_CAN_DATA_BYTES) NULL_BYTE in
        reshuffled_bytes ←
          foldM (fun reshuffled_bytes i =>
                   let bytenumber_origin := bytenumber_for_startbit + i in
                   let bytenumber_destination := MAX_NUMBER_OF_CAN_DATA_BYTES - 1 - i in
                   b ← py_getitem input_bytes bytenumber_origin;
                   py_setitem reshuffled_bytes bytenumber_destination b)
                (range number_of_bytes_to_shuffle) reshuffled_bytes;
        temporary_value ← can_bytes_to_int reshuffled_bytes;
        Ok (Z.shiftr temporary_value number_of_steps_to_LSBit_in_byte)
    end;
  let mask := Z.shiftl 1 numberofbits - 1 in
  Ok (Z.land shifted mask).

Definition get_shiftedvalue_from_busvalue
    (input_value : Z) (endianness : endianness_t) (numberofbits startbit : Z)
  : result Z :=
  encode_shifts ← calculate_backward_bitnumber startbit;
  match endianness with
  | BIG_ENDIAN => Ok (Z.shiftl input_value encode_shifts)
  | LITTLE_ENDIAN =>
      let number_of_steps_to_LSBit_in_byte := encode_shifts mod BITS_PER_BYTE in
      let bytenumber_for_startbit := startbit / BITS_PER_BYTE in
      let stopbit_little := startbit + numberofbits - 1 in
      let bytenumber_for_stopbit_little := stopbit_little / BITS_PER_BYTE in
      assert (bytenumber_for_stopbit_little <? MAX_NUMBER_OF_CAN_DATA_BYTES) ;;
      let number_of_bytes_to_shuffle :=
        bytenumber_for_stopbit_little - bytenumber_for_startbit + 1 in
      let partially_shifted_value :=
        Z.shiftl input_value number_of_steps_to_LSBit_in_byte in
      partially_shifted_bytes ←
        int_to_can_bytes MAX_NUMBER_OF_CAN_DATA_BYTES partially_shifted_value;
      let reshuffled_bytes :=
        replicate (Z.to_nat MAX_NUMBER_OF_CAN_DATA_BYTES) NULL_BYTE in
      reshuffled_bytes ←
        foldM (fun reshuffled_bytes i =>
                 let bytenumber_origin := MAX_NUMBER_OF_CAN_DATA_BYTES - 1 - i in
                 let bytenumber_destination := bytenumber_for_startbit + i in
                 b ← py_getitem partially_shifted_bytes bytenumber_origin;
                 py_setitem reshuffled_bytes bytenumber_destination b)
              (range number_of_bytes_to_shuffle) reshuffled_bytes;
      can_bytes_to_int reshuffled_bytes
  end.

(** ** Python floats

    A [float] is a binary64 number: the operations are those of the IEEE-754
    specification of the Standard Library at precision 53 and maximal
    exponent 1024. *)

Definition float := spec_float.

Definition prec64 : Z := 53.
Definition emax64 : Z := 1024.
Definition prec32 : Z := 24.
Definition emax32 : Z := 128.

Definition float_add : float -> float -> float := SFadd prec64 emax64.
Definition float_sub : float -> float -> float := SFsub prec64 emax64.
Definition float_mul : float -> float -> float := SFmul prec64 emax64.
Definition float_lt : float -> float -> bool := SFltb.
Definition float_le : float -> float -> bool := SFleb.

Definition float_is_zero (x : float) : bool :=
  match x with S754_zero _ => true | _ => false end.

(** Neither an infinity nor a NaN. *)
Definition float_is_finite (x : float) : bool :=
  match x with S754_zero _ | S754_finite _ _ _ => true | _ => false end.

(** [x / y] *)
Definition float_truediv (x y : float) : result float :=
  if float_is_zero y then Raise ZeroDivisionError
  else Ok (SFdiv prec64 emax64 x y).

(** [float(k)] for an [int] [k] *)
Definition float_of_int (k : Z) : result float :=
  match binary_normalize prec64 emax64 k 0 false with
  | S754_infinity _ => Raise OverflowError
  | x => Ok x
  end.

(** The float of an integer literal of the source, which is small. *)
Definition float_lit (k : Z) : float := binary_normalize prec64 emax64 k 0 false.

(** A decimal literal [m * 10^(-d)] or [m * 10^d] of the source. *)
Definition float_dec (m : Z) (e10 : Z) : float :=
  if e10 <? 0
  then SFdiv prec64 emax64 (float_lit m) (float_lit (10 ^ (- e10)))
  else float_lit (m * 10 ^ e10).

(** [int(x)]: truncation towards zero *)
Definition int_of_float (x : float) : result Z :=
  match x with
  | S754_zero _ => Ok 0
  | S754_finite s m e =>
      let a := if 0 <=? e then Zpos m * 2 ^ e else Zpos m / 2 ^ (- e) in
      Ok (if s then - a else a)
  | S754_infinity _ => Raise OverflowError
  | S754_nan => Raise ValueError
  end.

(** [math.floor(x)] *)
Definition math_floor (x : float) : result Z :=
  match x with
  | S754_zero _ => Ok 0
  | S754_finite s m e =>
      if 0 <=? e then Ok ((if s then -1 else 1) * (Zpos m * 2 ^ e))
      else Ok ((if s then Zneg m else Zpos m) / 2 ^ (- e))
  | S754_infinity _ => Raise OverflowError
  | S754_nan => Raise ValueError
  end.

(** [max(a, b)] and [min(a, b)] keep their first argument unless the second
    one is strictly better. *)
Definition py_max (a b : float) : float := if float_lt a b then b else a.
Definition py_min (a b : float) : float := if float_lt b a then b else a.

(** *** [struct]: IEEE-754 interchange formats *)

Section Bits.
(** [mw] is the width of the fraction field and [ew] that of the exponent
    field: 52 and 11 for binary64, 23 and 8 for binary32. *)
Variables mw ew : Z.

Let prec := mw + 1.
Let emax := 2 ^ (ew - 1).
Let emin := 3 - emax - prec.

Definition bits_of_float (x : float) : Z :=
  let sign (s : bool) := if s then 2 ^ (mw + ew) else 0 in
  match x with
  | S754_zero s => sign s
  | S754_infinity s => sign s + Z.shiftl (2 ^ ew - 1) mw
  | S754_nan => Z.shiftl (2 ^ ew - 1) mw + 2 ^ (mw - 1)
  | S754_finite s m e =>
      if Zpos (digits2_pos m) =? prec
      then sign s + Z.shiftl (e - emin + 1) mw + (Zpos m - 2 ^ mw)
      else sign s + Zpos m
  end.

Definition float_of_bits (b : Z) : float :=
  let s := Z.testbit b (mw + ew) in
  let e := Z.land (Z.shiftr b mw) (2 ^ ew - 1) in
  let m := Z.land b (2 ^ mw - 1) in
  if e =? 0 then
    match m with
    | Zpos p => S754_finite s p emin
    | _ => S754_zero s
    end
  else if e =? 2 ^ ew - 1 then
    if m =? 0 then S754_infinity s else S754_nan
  else
    match m + 2 ^ mw with
    | Zpos p => S754_finite s p (e + emin - 1)
    | _ => S754_nan
    end.
End Bits.

(** The C conversions between [double] and [float]. *)
Definition double_to_single (x : float) : float :=
  match x with
  | S754_finite s m e => binary_round prec32 emax32 s m e
  | _ => x
  end.

Definition single_to_double (x : float) : float :=
  match x with
  | S754_finite s m e => binary_round prec64 emax64 s m e
  | _ => x
  end.

(** [struct.pack(">d", x)], [struct.pack("<d", x)] *)
Definition pack_double_be (x : float) : list byte :=
  Z_to_be_bytes 8 (bits_of_float 52 11 x).
Definition pack_double_le (x : float) : list byte :=
  rev (pack_double_be x).

(** [struct.unpack(">d", b)[0]], [struct.unpack("<d", b)[0]] *)
Definition unpack_double_be (b : list byte) : result float :=
  if negb (length b =? 8)%nat then Raise StructError
  else Ok (float_of_bits 52 11 (be_bytes_to_Z b)).
Definition unpack_double_le (b : list byte) : result float :=
  unpack_double_be (rev b).

(** [struct.pack(">f", x)]: a finite double too large for a single is an
    [OverflowError]. *)
Definition pack_single_be (x : float) : result (list byte) :=
  let y := double_to_single x in
  match x, y with
  | S754_finite _ _ _, S754_infinity _ => Raise OverflowError
  | _, _ => Ok (Z_to_be_bytes 4 (bits_of_float 23 8 y))
  end.

(** [struct.unpack(">f", b)[0]] *)
Definition unpack_single_be (b : list byte) : result float :=
  if negb (length b =? 4)%nat then Raise StructError
  else Ok (single_to_double (float_of_bits 23 8 (be_bytes_to_Z b))).

(** [split_seconds_to_full_and_part] of utilities.py *)
Definition split_seconds_to_full_and_part (seconds_float : float) : result (Z * Z) :=
  if float_lt seconds_float (float_lit 0)
  then Raise (CanException InvalidTimeInterval)
  else
    seconds_full ← math_floor seconds_float;
    seconds_full_f ← float_of_int seconds_full;
    usec_f ← float_of_int MICROSECONDS_PER_SECOND;
    useconds ← int_of_float (float_mul (float_sub seconds_float seconds_full_f) usec_f);
    Ok (seconds_full, useconds).

(** The float of a non-zero integer below 2^53 in magnitude: the integer
    shifted to 53 bits. *)
Definition shift_to_53 (m : positive) : positive * Z :=
  shl_align m 0 (Zpos (digits2_pos m) - 53).

(** Approximate ranges for floats (constants.py) *)
Definition MAX_VALUE_FLOAT_SINGLE : float := float_dec 34 37.
Definition MIN_VALUE_FLOAT_SINGLE : float := SFopp MAX_VALUE_FLOAT_SINGLE.
Definition MAX_VALUE_FLOAT_DOUBLE : float := float_dec 17 307.
Definition MIN_VALUE_FLOAT_DOUBLE : float := SFopp MAX_VALUE_FLOAT_DOUBLE.

(** ** cansignal.py *)

(** The attributes of a [CanSignalDefinition]. Numerical attributes are
    floats: [scalingfactor] and [valueoffset] are stored through [float()],
    and the physical values ([minvalue], [maxvalue], [defaultvalue], and the
    values given to the codec) are taken as floats as well, which is exact
    for every integer up to 2^53 in magnitude. *)
Record CanSignalDefinition := {
  signalname : string;
  startbit : Z;
  numberofbits : Z;
  scalingfactor : float;
  valueoffset : float;
  defaultvalue : option float;
  unit_ : string;
  comment : string;
  minvalue : option float;
  maxvalue : option float;
  endianness : endianness_t;
  signaltype : signaltype_t
}.

Definition SYMBOL_LEAST_SIGNIFICANT_BIT : ascii := "L".
Definition SYMBOL_MOST_SIGNIFICANT_BIT : ascii := "M".
Definition SYMBOL_OTHER_VALID_BIT : ascii := "X".

Definition get_maximum_possible_value (self : CanSignalDefinition) : result float :=
  max_unpacked_value ←
    match signaltype self with
    | CAN_SIGNALTYPE_UNSIGNED => float_of_int (2 ^ numberofbits self - 1)
    | CAN_SIGNALTYPE_SIGNED => float_of_int (2 ^ (numberofbits self - 1) - 1)
    | CAN_SIGNALTYPE_SINGLE => Ok MAX_VALUE_FLOAT_SINGLE
    | CAN_SIGNALTYPE_DOUBLE => Ok MAX_VALUE_FLOAT_DOUBLE
    end;
  Ok (float_add (float_mul max_unpacked_value (scalingfactor self)) (valueoffset self)).

Definition get_minimum_possible_value (self : CanSignalDefinition) : result float :=
  min_unpacked_value ←
    match signaltype self with
    | CAN_SIGNALTYPE_UNSIGNED => float_of_int 0
    | CAN_SIGNALTYPE_SIGNED => float_of_int (- 2 ^ (numberofbits self - 1))
    | CAN_SIGNALTYPE_SINGLE => Ok MIN_VALUE_FLOAT_SINGLE
    | CAN_SIGNALTYPE_DOUBLE => Ok MIN_VALUE_FLOAT_DOUBLE
    end;
  Ok (float_add (float_mul min_unpacked_value (scalingfactor self)) (valueoffset self)).

Definition get_minimum_dlc (self : CanSignalDefinition) : Z :=
  let bytenumber :=
    match endianness self with
    | BIG_ENDIAN => startbit self / BITS_PER_BYTE
    | LITTLE_ENDIAN =>
        let stopbit := startbit self + numberofbits self - 1 in
        stopbit / BITS_PER_BYTE
    end in
  bytenumber + 1.

Definition _check_signal_value_range (self : CanSignalDefinition) (value : option float)
  : result unit :=
  match value with
  | None => Ok tt
  | Some value =>
      lower_limit ← get_minimum_possible_value self;
      upper_limit ← get_maximum_possible_value self;
      raise_if (float_lt value lower_limit || float_lt upper_limit value)
               (CanException AttributeOutOfRange)
  end.

(** The checks of the property setters, in the order of [__init__]. *)
Definition check_startbit (value : Z) : result unit :=
  raise_if ((value <? 0) || (value >? BITS_IN_FULL_DATA - 1))
           (CanException StartbitOutOfRange).

Definition check_numberofbits
    (endianness : endianness_t) (signaltype : signaltype_t) (startbit value : Z)
  : result unit :=
  raise_if ((value <=? 0) || (value >? BITS_IN_FULL_DATA))
           (CanException NumberofbitsOutOfRange) ;;
  match endianness with
  | LITTLE_ENDIAN =>
      let stopbit := startbit + value - 1 in
      raise_if (stopbit >=? BITS_IN_FULL_DATA)
               (CanException WrongSignalDefinitionLittleEndian)
  | BIG_ENDIAN =>
      startbit_backwards ← calculate_backward_bitnumber startbit;
      let stopbit_backwards := startbit_backwards + value - 1 in
      raise_if (stopbit_backwards >=? BITS_IN_FULL_DATA)
               (CanException WrongSignalDefinitionBigEndian)
  end ;;
  match signaltype with
  | CAN_SIGNALTYPE_SINGLE =>
      raise_if (negb (value =? BITS_IN_SINGLE_PRECISION_FLOAT))
               (CanException WrongNumberOfBitsSingle)
  | CAN_SIGNALTYPE_DOUBLE =>
      raise_if (negb (value =? BITS_IN_DOUBLE_PRECISION_FLOAT))
               (CanException WrongNumberOfBitsDouble)
  | _ => Ok tt
  end.

Definition check_scalingfactor (value : float) : result unit :=
  raise_if (float_le value (float_lit 0)) (CanException ScalingfactorNotPositive).

(** The layout of a signal definition passes the checks of the setters of
    [startbit] and [numberofbits]. *)
Definition signal_layout_ok (self : CanSignalDefinition) : bool :=
  is_ok (check_startbit (startbit self))
  && is_ok (check_numberofbits (endianness self) (signaltype self)
              (startbit self) (numberofbits self)).

(** [CanSignalDefinition.__init__]; the arguments are named as there. *)
Definition new_CanSignalDefinition
    (signalname : string) (startbit numberofbits : Z)
    (scalingfactor valueoffset : float) (defaultvalue : option float)
    (unit_ comment : string) (minvalue maxvalue : option float)
    (endianness : endianness_t) (signaltype : signaltype_t)
  : result CanSignalDefinition :=
  check_startbit startbit ;;
  check_numberofbits endianness signaltype startbit numberofbits ;;
  check_scalingfactor scalingfactor ;;
  let self0 :=
    {| signalname := signalname; startbit := startbit; numberofbits := numberofbits;
       scalingfactor := scalingfactor; valueoffset := valueoffset;
       defaultvalue := None; unit_ := unit_; comment := comment;
       minvalue := None; maxvalue := None;
       endianness := endianness; signaltype := signaltype |} in
  _check_signal_value_range self0 minvalue ;;
  _check_signal_value_range self0 maxvalue ;;
  let defaultvalue :=
    match defaultvalue with
    | None => Some valueoffset
    | Some d => Some d
    end in
  _check_signal_value_range self0 defaultvalue ;;
  Ok {| signalname := signalname; startbit := startbit; numberofbits := numberofbits;
        scalingfactor := scalingfactor; valueoffset := valueoffset;
        defaultvalue := defaultvalue; unit_ := unit_; comment := comment;
        minvalue := minvalue; maxvalue := maxvalue;
        endianness := endianness; signaltype := signaltype |}.

(** [_get_overview_string]: a list of 64 characters and the stop bit. *)
Definition _get_overview_string (self : CanSignalDefinition)
  : result (list ascii * Z) :=
  let tempstringlist := replicate (Z.to_nat BITS_IN_FULL_DATA) " "%char in
  match endianness self with
  | LITTLE_ENDIAN =>
      let stopbit := startbit self + numberofbits self - 1 in
      b ← calculate_backward_bitnumber stopbit;
      tempstringlist ←
        py_setitem tempstringlist (BITS_IN_FULL_DATA - 1 - b) SYMBOL_MOST_SIGNIFICANT_BIT;
      b ← calculate_backward_bitnumber (startbit self);
      tempstringlist ←
        py_setitem tempstringlist (BITS_IN_FULL_DATA - 1 - b) SYMBOL_LEAST_SIGNIFICANT_BIT;
      tempstringlist ←
        (if numberofbits self >? 2 then
           foldM (fun tempstringlist i =>
                    b ← calculate_backward_bitnumber i;
                    py_setitem tempstringlist (BITS_IN_FULL_DATA - 1 - b)
                               SYMBOL_OTHER_VALID_BIT)
                 (seqZ (startbit self + 1) (stopbit - (startbit self + 1)))
                 tempstringlist
         else Ok tempstringlist);
      Ok (tempstringlist, stopbit)
  | BIG_ENDIAN =>
      startbit_backward ← calculate_backward_bitnumber (startbit self);
      let stopbit_backward := startbit_backward + numberofbits self - 1 in
      stopbit ← calculate_normal_bitnumber stopbit_backward;
      tempstringlist ←
        py_setitem tempstringlist (BITS_IN_FULL_DATA - 1 - stopbit_backward)
                   SYMBOL_MOST_SIGNIFICANT_BIT;
      tempstringlist ←
        py_setitem tempstringlist (BITS_IN_FULL_DATA - 1 - startbit_backward)
                   SYMBOL_LEAST_SIGNIFICANT_BIT;
      tempstringlist ←
        (if numberofbits self >? 2 then
           foldM (fun tempstringlist bitnumber_backward =>
                    py_setitem tempstringlist (BITS_IN_FULL_DATA - 1 - bitnumber_backward)
                               SYMBOL_OTHER_VALID_BIT)
                 (seqZ (startbit_backward + 1) (stopbit_backward - (startbit_backward + 1)))
                 tempstringlist
         else Ok tempstringlist);
      Ok (tempstringlist, stopbit)
  end.

(** ** canframe.py *)

Record CanFrame := {
  frame_id : Z;
  frame_data : list byte;
  frame_format : frame_format_t
}.

(** The setter of [frame_data]. *)
Definition check_frame_data (value : list byte) : result unit :=
  raise_if (Z.of_nat (length value) >? MAX_NUMBER_OF_CAN_DATA_BYTES)
           (CanException FrameDataWrongLength).

(** [CanFrame.__init__] *)
Definition new_CanFrame (frame_id : Z) (frame_data : list byte) (frame_format : frame_format_t)
  : result CanFrame :=
  check_frame_id_and_format frame_id frame_format ;;
  check_frame_data frame_data ;;
  Ok {| frame_id := frame_id; frame_data := frame_data; frame_format := frame_format |}.

(** [self.frame_data = value] *)
Definition set_frame_data (self : CanFrame) (value : list byte) : result CanFrame :=
  check_frame_data value ;;
  Ok {| frame_id := frame_id self; frame_data := value; frame_format := frame_format self |}.

Definition from_empty_bytes (frame_id : Z) (number_of_bytes : Z) (frame_format : frame_format_t)
  : result CanFrame :=
  raise_if ((number_of_bytes >? MAX_NUMBER_OF_CAN_DATA_BYTES) || (number_of_bytes <? 0))
           (CanException WrongNumberOfBytes) ;;
  let framedata := replicate (Z.to_nat number_of_bytes) NULL_BYTE in
  new_CanFrame frame_id framedata frame_format.

(** *** The raw frame of SocketCAN

    [FORMAT_CAN_RAWFRAME = "=IB3x8s"]: the identifier in the byte order of
    the host, the DLC, three pad bytes and eight data bytes. *)

Inductive byteorder := LittleEndianHost | BigEndianHost.

Definition pack_uint32_native (host : byteorder) (x : Z) : result (list byte) :=
  b ← pack_uint_be 4 x;
  Ok (match host with BigEndianHost => b | LittleEndianHost => rev b end).

Definition unpack_uint32_native (host : byteorder) (b : list byte) : result Z :=
  unpack_uint_be 4 (match host with BigEndianHost => b | LittleEndianHost => rev b end).

(** [struct.pack(FORMAT_CAN_RAWFRAME, first_part, dlc, framedata8bytes)] *)
Definition pack_rawframe (host : byteorder) (first_part dlc : Z) (framedata8bytes : list byte)
  : result (list byte) :=
  id_bytes ← pack_uint32_native host first_part;
  dlc_byte ← pack_uint_be 1 dlc;
  Ok (id_bytes ++ dlc_byte ++ replicate 3 NULL_BYTE
      ++ take 8 (ljust framedata8bytes 8 NULL_BYTE)).

(** [struct.unpack(FORMAT_CAN_RAWFRAME, rawframe)] *)
Definition unpack_rawframe (host : byteorder) (rawframe : list byte)
  : result (Z * Z * list byte) :=
  if negb (length rawframe =? 16)%nat then Raise StructError
  else
    first_part ← unpack_uint32_native host (take 4 rawframe);
    dlc ← unpack_uint_be 1 (take 1 (drop 4 rawframe));
    Ok (first_part, dlc, drop 8 rawframe).

Definition from_rawframe (host : byteorder) (rawframe : list byte) : result CanFrame :=
  match unpack_rawframe host rawframe with
  | Raise _ => Raise (CanException RawframeIllegal)
  | Ok (first_part, dlc, framedata8bytes) =>
      let frame_id := Z.land first_part CAN_MASK_ID_ONLY in
      let frame_format :=
        if negb (Z.land first_part CAN_MASK_EXTENDED_FRAME_BIT =? 0)
        then CAN_FRAMEFORMAT_EXTENDED else CAN_FRAMEFORMAT_STANDARD in
      let framedata := py_slice_to framedata8bytes dlc in
      new_CanFrame frame_id framedata frame_format
  end.

Definition get_rawframe (host : byteorder) (self : CanFrame) : result (list byte) :=
  let dlc := Z.of_nat (length (frame_data self)) in
  let framedata8bytes := ljust (frame_data self) MAX_NUMBER_OF_CAN_DATA_BYTES NULL_BYTE in
  let first_part :=
    if bool_decide (frame_format self = CAN_FRAMEFORMAT_EXTENDED)
    then Z.lor (frame_id self) CAN_MASK_EXTENDED_FRAME_BIT
    else frame_id self in
  pack_rawframe host first_part dlc framedata8bytes.

(** *** The signal codec *)

(** The frame data as the 64-bit integer of [can_bytes_to_int]. *)
Definition frame_integer (data : list byte) : Z :=
  be_bytes_to_Z (ljust data MAX_NUMBER_OF_CAN_DATA_BYTES NULL_BYTE).

(** [# Limit to minvalue and maxvalue], as in both directions of the codec. *)
Definition limit_to_min_max (signaldefinition : CanSignalDefinition)
    (physical_value : float) : float :=
  let physical_value :=
    match minvalue signaldefinition with
    | Some m => py_max m physical_value
    | None => physical_value
    end in
  match maxvalue signaldefinition with
  | Some m => py_min m physical_value
  | None => physical_value
  end.

Definition get_signalvalue (self : CanFrame) (signaldefinition : CanSignalDefinition)
  : result float :=
  unpacked_value ←
    match signaltype signaldefinition with
    | CAN_SIGNALTYPE_DOUBLE =>
        match endianness signaldefinition with
        | LITTLE_ENDIAN => unpack_double_le (frame_data self)
        | BIG_ENDIAN => unpack_double_be (frame_data self)
        end
    | t =>
        bus_value ← get_busvalue_from_bytes (frame_data self)
                      (endianness signaldefinition)
                      (numberofbits signaldefinition)
                      (startbit signaldefinition);
        match t with
        | CAN_SIGNALTYPE_UNSIGNED => float_of_int bus_value
        | CAN_SIGNALTYPE_SIGNED =>
            v ← from_twos_complement bus_value (numberofbits signaldefinition);
            float_of_int v
        | _ =>
            useful_bytes ← pack_uint_be 4 bus_value;
            unpack_single_be useful_bytes
        end
    end;
  let physical_value :=
    float_add (float_mul unpacked_value (scalingfactor signaldefinition))
              (valueoffset signaldefinition) in
  Ok (limit_to_min_max signaldefinition physical_value).

(** The value that [set_signalvalue] encodes: the default for [None], an
    exception outside the possible range, and otherwise the value limited
    to [minvalue] and [maxvalue]. *)
Definition value_to_encode (signaldefinition : CanSignalDefinition)
    (physical_value : option float) : result float :=
  physical_value ←
    match physical_value with
    | Some v => Ok v
    | None =>
        match defaultvalue signaldefinition with
        | Some d => Ok d
        | None => Raise TypeError
        end
    end;
  lower_limit ← get_minimum_possible_value signaldefinition;
  (if float_lt physical_value lower_limit
   then Raise (CanException PhysicalValueOutOfRange)
   else
     upper_limit ← get_maximum_possible_value signaldefinition;
     raise_if (float_lt upper_limit physical_value)
              (CanException PhysicalValueOutOfRange)) ;;
  Ok (limit_to_min_max signaldefinition physical_value).

(** The unsigned field value for a scaled value, by signal type (not used
    for doubles). *)
Definition bus_value_of_scaled (signaldefinition : CanSignalDefinition)
    (scaled_value : float) : result Z :=
  bus_value ←
    match signaltype signaldefinition with
    | CAN_SIGNALTYPE_UNSIGNED => int_of_float scaled_value
    | CAN_SIGNALTYPE_SIGNED =>
        i ← int_of_float scaled_value;
        twos_complement i (numberofbits signaldefinition)
    | _ =>
        b ← pack_single_be scaled_value;
        can_bytes_to_int (rjust b MAX_NUMBER_OF_CAN_DATA_BYTES NULL_BYTE)
    end;
  assert (bus_value <=? 2 ^ numberofbits signaldefinition - 1) ;;
  assert (bus_value >=? 0) ;;
  Ok bus_value.

(** The [mask] of [set_signalvalue]: ones in the bits that the signal
    occupies in the frame data, read as a 64-bit integer. *)
Definition signal_bitmask (signaldefinition : CanSignalDefinition) : result Z :=
  let raw_mask := Z.shiftl 1 (numberofbits signaldefinition) - 1 in
  get_shiftedvalue_from_busvalue raw_mask
    (endianness signaldefinition)
    (numberofbits signaldefinition)
    (startbit signaldefinition).

(** The write of an unsigned field into the frame data. *)
Definition write_bus_value (self : CanFrame) (signaldefinition : CanSignalDefinition)
    (bus_value : Z) : result CanFrame :=
  bitvalues ← get_shiftedvalue_from_busvalue bus_value
                (endianness signaldefinition)
                (numberofbits signaldefinition)
                (startbit signaldefinition);
  mask ← signal_bitmask signaldefinition;
  dataint ← can_bytes_to_int (frame_data self);
  let dlc := Z.of_nat (length (frame_data self)) in
  let dataint := Z.lor (Z.land dataint (Z.lnot mask)) bitvalues in
  new_data ← int_to_can_bytes dlc dataint;
  set_frame_data self new_data.

(** [set_signalvalue] returns the frame after the assignment to
    [self.frame_data]. *)
Definition set_signalvalue (self : CanFrame) (signaldefinition : CanSignalDefinition)
    (physical_value : option float) : result CanFrame :=
  raise_if (get_minimum_dlc signaldefinition >? Z.of_nat (length (frame_data self)))
           (CanException FrameTooShortForSignal) ;;
  physical_value ← value_to_encode signaldefinition physical_value;
  scaled_value ← float_truediv (float_sub physical_value (valueoffset signaldefinition))
                   (scalingfactor signaldefinition);
  match signaltype signaldefinition with
  | CAN_SIGNALTYPE_DOUBLE =>
      match endianness signaldefinition with
      | LITTLE_ENDIAN => set_frame_data self (pack_double_le scaled_value)
      | BIG_ENDIAN => set_frame_data self (pack_double_be scaled_value)
      end
  | _ =>
      bus_value ← bus_value_of_scaled signaldefinition scaled_value;
      write_bus_value self signaldefinition bus_value
  end.

(** The value that is encoded when [physical_value] is given to
    [set_signalvalue]: itself, or the default value. *)
Definition given_or_default (sd : CanSignalDefinition) (physical_value : option float)
  : option float :=
  match physical_value with
  | Some v => Some v
  | None => defaultvalue sd
  end.

(** ** canframe_definition.py *)

Record CanFrameDefinition := {
  def_frame_id : Z;
  name : string;
  dlc : Z;
  cycletime : option Z;
  def_frame_format : frame_format_t;
  throttle_time : option Z;
  producer_ids : gset string;
  signaldefinitions : list CanSignalDefinition;
  receive_on_change_only : bool
}.

(** [enumerate(l)] *)
Definition enumerate {A} (l : list A) : list (Z * A) :=
  zip (seqZ 0 (Z.of_nat (length l))) l.

(** The inner loop of [get_signal_mask], which looks for the non-empty
    positions of an overview string. *)
Definition mask_of_overview (overviewstring : list ascii) (output_int : Z) : Z :=
  fold_left
    (fun output_int '(pos, char) =>
       if negb (Ascii.eqb char " ")
       then Z.lor output_int (2 ^ (BITS_IN_FULL_DATA - 1 - pos))
       else output_int)
    (enumerate overviewstring) output_int.

Definition get_signal_mask (self : CanFrameDefinition) : result (list byte) :=
  output_int ←
    foldM (fun output_int signaldef =>
             '(overviewstring, _) ← _get_overview_string signaldef;
             Ok (mask_of_overview overviewstring output_int))
          (signaldefinitions self) 0;
  int_to_can_bytes MAX_NUMBER_OF_CAN_DATA_BYTES output_int.

Definition is_outbound (self : CanFrameDefinition) (ego_node_ids : gset string) : bool :=
  if bool_decide (producer_ids self = ∅) || bool_decide (ego_node_ids = ∅) then false
  else negb (bool_decide (ego_node_ids ∩ producer_ids self = ∅)).

(** [CanFrame.unpack] *)
Definition unpack (self : CanFrame) (frame_definitions : gmap Z CanFrameDefinition)
  : result (gmap string float) :=
  match frame_definitions !! frame_id self with
  | None => Ok ∅
  | Some fr_def =>
      raise_if (negb (Z.of_nat (length (frame_data self)) =? dlc fr_def))
               (CanException ReceivedFrameWrongLength) ;;
      foldM (fun outputdict sigdef =>
               val ← get_signalvalue self sigdef;
               Ok (<[signalname sigdef := val]> outputdict))
            (signaldefinitions fr_def) ∅
  end.

(** ** caninterface_bcm.py and caninterface_raw.py

    The formats with native sizes depend on the platform: the byte order of
    the host and the width of a C [long]. *)

Record platform := {
  native_byteorder : byteorder;
  long_bits : Z
}.

(** The opcodes of the broadcast manager used by the library (constants of
    the [socket] module). *)
Inductive bcm_opcode :=
  | CAN_BCM_TX_SETUP
  | CAN_BCM_TX_DELETE
  | CAN_BCM_TX_SEND
  | CAN_BCM_RX_SETUP
  | CAN_BCM_RX_DELETE
  | CAN_BCM_RX_CHANGED.

(** The fields of [FORMAT_BCM_HEADER = "@3I4l2I0q"], before their layout in
    memory. *)
Record bcm_header := {
  opcode : bcm_opcode;
  flags : Z;
  ival1_count : Z;
  ival1_seconds : Z;
  ival1_useconds : Z;
  ival2_seconds : Z;
  ival2_useconds : Z;
  frame_id_std_ext : Z;
  number_of_bcm_frames : Z
}.

Definition fits_uint32 (x : Z) : bool := (0 <=? x) && (x <? 2 ^ 32).
Definition fits_long (pf : platform) (x : Z) : bool :=
  (- 2 ^ (long_bits pf - 1) <=? x) && (x <? 2 ^ (long_bits pf - 1)).

(** [struct.pack(FORMAT_BCM_HEADER, ...)]: a field out of the range of its C
    type is a [struct.error]. *)
Definition pack_bcm_header (pf : platform) (h : bcm_header) : result bcm_header :=
  if fits_uint32 (flags h) && fits_uint32 (ival1_count h)
     && fits_long pf (ival1_seconds h) && fits_long pf (ival1_useconds h)
     && fits_long pf (ival2_seconds h) && fits_long pf (ival2_useconds h)
     && fits_uint32 (frame_id_std_ext h) && fits_uint32 (number_of_bcm_frames h)
  then Ok h else Raise StructError.

Definition _build_bcm_header (pf : platform) (opcode : bcm_opcode) (flags : Z)
    (interval : float) (frame_id : Z) (frame_format : frame_format_t)
    (number_of_bcm_frames : Z) : result bcm_header :=
  let frame_id_std_ext :=
    if bool_decide (frame_format = CAN_FRAMEFORMAT_EXTENDED)
    then Z.lor frame_id CAN_MASK_EXTENDED_FRAME_BIT
    else frame_id in
  msec ← float_of_int MILLISECONDS_PER_SECOND;
  interval_s ← float_truediv interval msec;
  let ival1_count := 0 in
  ival1 ← float_of_int 0;
  '(ival1_seconds, ival1_useconds) ← split_seconds_to_full_and_part ival1;
  '(ival2_seconds, ival2_useconds) ← split_seconds_to_full_and_part interval_s;
  pack_bcm_header pf
    {| opcode := opcode; flags := flags; ival1_count := ival1_count;
       ival1_seconds := ival1_seconds; ival1_useconds := ival1_useconds;
       ival2_seconds := ival2_seconds; ival2_useconds := ival2_useconds;
       frame_id_std_ext := frame_id_std_ext;
       number_of_bcm_frames := number_of_bcm_frames |}.

(** [a / b] for two [int]s: the quotient rounded once to the nearest float. *)
Definition exact_int (k : Z) : float :=
  match k with
  | Z0 => S754_zero false
  | Zpos p => S754_finite false p 0
  | Zneg p => S754_finite true p 0
  end.

Definition int_truediv (a b : Z) : result float :=
  if b =? 0 then Raise ZeroDivisionError
  else
    match SFdiv prec64 emax64 (exact_int a) (exact_int b) with
    | S754_infinity _ => Raise OverflowError
    | q => Ok q
    end.

(** [(seconds + useconds / MICROSECONDS_PER_SECOND) * MILLISECONDS_PER_SECOND]
    of [_parse_bcm_header]. *)
Definition interval_milliseconds (seconds useconds : Z) : result float :=
  part ← int_truediv useconds MICROSECONDS_PER_SECOND;
  full ← float_of_int seconds;
  msec ← float_of_int MILLISECONDS_PER_SECOND;
  Ok (float_mul (float_add full part) msec).

(** [_parse_bcm_header], on the fields that [struct.unpack] finds. *)
Definition _parse_bcm_header (header : bcm_header)
  : result (bcm_opcode * Z * Z * float * float * Z * frame_format_t * Z) :=
  ival1 ← interval_milliseconds (ival1_seconds header) (ival1_useconds header);
  ival2 ← interval_milliseconds (ival2_seconds header) (ival2_useconds header);
  let frame_id := Z.land (frame_id_std_ext header) CAN_MASK_ID_ONLY in
  let frame_format :=
    if negb (Z.land (frame_id_std_ext header) CAN_MASK_EXTENDED_FRAME_BIT =? 0)
    then CAN_FRAMEFORMAT_EXTENDED else CAN_FRAMEFORMAT_STANDARD in
  Ok (opcode header, flags header, ival1_count header, ival1, ival2,
      frame_id, frame_format, number_of_bcm_frames header).

(** What is written to the socket: a BCM header followed by raw frames, or
    one raw frame on a raw socket. *)
Inductive datagram :=
  | BcmMessage (header : bcm_header) (raw_frames : list byte)
  | RawMessage (raw_frame : list byte).

(** [SocketCanBcmInterface.send_frame]: the message handed to
    [_send_via_socket]. *)
Definition bcm_send_frame (pf : platform) (input_frame : CanFrame) : result datagram :=
  interval ← float_of_int 0;
  header ← _build_bcm_header pf CAN_BCM_TX_SEND 0 interval
             (frame_id input_frame) (frame_format input_frame) 1;
  raw ← get_rawframe (native_byteorder pf) input_frame;
  Ok (BcmMessage header raw).

(** [SocketCanBcmInterface.setup_periodic_send] *)
Definition setup_periodic_send (pf : platform) (input_frame : CanFrame)
    (interval : option float) (restart_timer : bool) : result datagram :=
  let flags := 0 in
  '(interval, flags) ←
    match interval with
    | None => i ← float_of_int 0; Ok (i, flags)
    | Some interval =>
        raise_if (float_lt interval (float_lit 0)) (CanException WrongInterval) ;;
        Ok (interval, Z.lor flags BCM_FLAG_SETTIMER)
    end;
  let flags := if restart_timer then Z.lor flags BCM_FLAG_STARTTIMER else flags in
  header ← _build_bcm_header pf CAN_BCM_TX_SETUP flags interval
             (frame_id input_frame) (frame_format input_frame) 1;
  raw ← get_rawframe (native_byteorder pf) input_frame;
  Ok (BcmMessage header raw).

(** [SocketCanBcmInterface.stop_periodic_send] *)
Definition stop_periodic_send (pf : platform) (frame_id : Z) (frame_format : frame_format_t)
  : result datagram :=
  check_frame_id_and_format frame_id frame_format ;;
  interval ← float_of_int 0;
  header ← _build_bcm_header pf CAN_BCM_TX_DELETE 0 interval frame_id frame_format 0;
  Ok (BcmMessage header []).

(** [SocketCanRawInterface.send_frame] *)
Definition raw_send_frame (pf : platform) (input_frame : CanFrame) : result datagram :=
  raw ← get_rawframe (native_byteorder pf) input_frame;
  Ok (RawMessage raw).

(** ** canbus.py *)

(** [framedefinitions] is a dictionary that [CanBus.__init__] iterates over:
    it is the list of its items in the order of the iteration, which is the
    order of their insertion. The keys of a dictionary are distinct. *)
Record Configuration := {
  framedefinitions : list (Z * CanFrameDefinition);
  busname : option string;
  ego_node_ids : gset string
}.

(** The state of a [CanBus]. The frames of [_output_frame_storage] are
    shared objects: every signal of an outbound frame refers to the same
    [CanFrame]. [frame_heap] holds these objects, one per key of the frame
    definitions, and [_output_frame_storage] maps a signal name to the key
    of its frame. [socket_log] is what [caninterface] has written to its
    socket, oldest first. *)
Record CanBus := {
  _configuration : Configuration;
  _use_bcm : bool;
  host_platform : platform;
  socket_log : list datagram;
  _output_signaldefinition_storage : gmap string CanSignalDefinition;
  _output_frame_storage : gmap string Z;
  frame_heap : gmap Z CanFrame;
  _output_framedefinition_storage : gmap Z CanFrameDefinition;
  _input_framedefinition_storage : list CanFrameDefinition;
  _transmissionstatus : gmap Z transmission_status
}.

Definition with_socket_log (self : CanBus) (l : list datagram) : CanBus :=
  {| _configuration := _configuration self; _use_bcm := _use_bcm self;
     host_platform := host_platform self; socket_log := l;
     _output_signaldefinition_storage := _output_signaldefinition_storage self;
     _output_frame_storage := _output_frame_storage self;
     frame_heap := frame_heap self;
     _output_framedefinition_storage := _output_framedefinition_storage self;
     _input_framedefinition_storage := _input_framedefinition_storage self;
     _transmissionstatus := _transmissionstatus self |}.

Definition with_frame_heap (self : CanBus) (h : gmap Z CanFrame) : CanBus :=
  {| _configuration := _configuration self; _use_bcm := _use_bcm self;
     host_platform := host_platform self; socket_log := socket_log self;
     _output_signaldefinition_storage := _output_signaldefinition_storage self;
     _output_frame_storage := _output_frame_storage self;
     frame_heap := h;
     _output_framedefinition_storage := _output_framedefinition_storage self;
     _input_framedefinition_storage := _input_framedefinition_storage self;
     _transmissionstatus := _transmissionstatus self |}.

Definition with_transmissionstatus (self : CanBus) (t : gmap Z transmission_status) : CanBus :=
  {| _configuration := _configuration self; _use_bcm := _use_bcm self;
     host_platform := host_platform self; socket_log := socket_log self;
     _output_signaldefinition_storage := _output_signaldefinition_storage self;
     _output_frame_storage := _output_frame_storage self;
     frame_heap := frame_heap self;
     _output_framedefinition_storage := _output_framedefinition_storage self;
     _input_framedefinition_storage := _input_framedefinition_storage self;
     _transmissionstatus := t |}.

(** A step of a method of [CanBus]: the state it leaves, also when it
    raises, and its outcome. *)
Definition step (A : Type) : Type := CanBus * result A.

(** [self.caninterface._socket.send(...)] of an already built message. *)
Definition socket_send (self : CanBus) (d : result datagram) : step unit :=
  match d with
  | Ok d => (with_socket_log self (socket_log self ++ [d]), Ok tt)
  | Raise e => (self, Raise e)
  end.

(** [for x in l: body(x)] on the state of the bus. *)
Fixpoint for_each {B} (body : CanBus -> B -> step unit) (l : list B) (self : CanBus)
  : step unit :=
  match l with
  | [] => (self, Ok tt)
  | x :: l' =>
      match body self x with
      | (self', Ok _) => for_each body l' self'
      | (self', Raise e) => (self', Raise e)
      end
  end.

(** The first loop of [send_signals]: one signal is written into its frame,
    and the frame is added to [frames_to_send]. *)
Definition send_signals_set_value (frames_to_send : gset Z) (self : CanBus)
    (item : string * option float) : CanBus * result (gset Z) :=
  let '(signalname, value) := item in
  match _output_signaldefinition_storage self !! signalname with
  | None => (self, Raise (CanException UnknownSignalname))
  | Some signaldefinition =>
      match _output_frame_storage self !! signalname with
      | None => (self, Raise KeyError)
      | Some ref =>
          match frame_heap self !! ref with
          | None => (self, Raise KeyError)
          | Some frame =>
              match set_signalvalue frame signaldefinition value with
              | Raise e => (self, Raise e)
              | Ok frame' =>
                  (with_frame_heap self (<[ref := frame']> (frame_heap self)),
                   Ok (frames_to_send ∪ {[ref]}))
              end
          end
      end
  end.

Fixpoint send_signals_set_values (signals_to_send : list (string * option float))
    (frames_to_send : gset Z) (self : CanBus) : CanBus * result (gset Z) :=
  match signals_to_send with
  | [] => (self, Ok frames_to_send)
  | item :: rest =>
      match send_signals_set_value frames_to_send self item with
      | (self', Ok frames_to_send') => send_signals_set_values rest frames_to_send' self'
      | (self', Raise e) => (self', Raise e)
      end
  end.

(** The body of the loop over [frames_to_send] when the BCM is used. *)
Definition send_signals_bcm_frame (self : CanBus) (ref : Z) : step unit :=
  match frame_heap self !! ref with
  | None => (self, Raise KeyError)
  | Some frame =>
      match _transmissionstatus self !! frame_id frame with
      | None => (self, Raise KeyError)
      | Some status =>
          let first :=
            if bool_decide (status = STATUS_PERIODIC_NOT_YET_STARTED) then
              match _output_framedefinition_storage self !! frame_id frame with
              | None => (self, Raise KeyError)
              | Some framedef =>
                  let interval :=
                    match cycletime framedef with
                    | None => Ok None
                    | Some c => i ← float_of_int c; Ok (Some i)
                    end in
                  match socket_send self
                          (i ← interval;
                           setup_periodic_send (host_platform self) frame i true) with
                  | (self', Ok _) =>
                      (with_transmissionstatus self'
                         (<[frame_id frame := STATUS_PERIODIC]> (_transmissionstatus self')),
                       Ok tt)
                  | (self', Raise e) => (self', Raise e)
                  end
              end
            else (self, Ok tt) in
          match first with
          | (self', Raise e) => (self', Raise e)
          | (self', Ok _) =>
              if bool_decide (status = STATUS_PERIODIC) then
                socket_send self' (setup_periodic_send (host_platform self') frame None false)
              else
                socket_send self' (bcm_send_frame (host_platform self') frame)
          end
      end
  end.

Definition send_signals_raw_frame (self : CanBus) (ref : Z) : step unit :=
  match frame_heap self !! ref with
  | None => (self, Raise KeyError)
  | Some frame => socket_send self (raw_send_frame (host_platform self) frame)
  end.

(** [CanBus.send_signals], given the items of the dictionary in the order
    of their iteration. The set [frames_to_send] is iterated in the order of
    [elements]. *)
Definition send_signals (self : CanBus) (signals_to_send : list (string * option float))
  : step unit :=
  match send_signals_set_values signals_to_send ∅ self with
  | (self', Raise e) => (self', Raise e)
  | (self', Ok frames_to_send) =>
      if _use_bcm self'
      then for_each send_signals_bcm_frame (elements frames_to_send) self'
      else for_each send_signals_raw_frame (elements frames_to_send) self'
  end.

(** [CanBus.__init__]: the loop over the frame definitions of the
    configuration. *)
Definition init_signal (frameID : Z) (acc : CanBus * CanFrame)
    (sigdef : CanSignalDefinition) : result (CanBus * CanFrame) :=
  let '(self, fr) := acc in
  fr' ← set_signalvalue fr sigdef None;
  Ok ({| _configuration := _configuration self; _use_bcm := _use_bcm self;
         host_platform := host_platform self; socket_log := socket_log self;
         _output_signaldefinition_storage :=
           <[signalname sigdef := sigdef]> (_output_signaldefinition_storage self);
         _output_frame_storage :=
           <[signalname sigdef := frameID]> (_output_frame_storage self);
         frame_heap := <[frameID := fr']> (frame_heap self);
         _output_framedefinition_storage := _output_framedefinition_storage self;
         _input_framedefinition_storage := _input_framedefinition_storage self;
         _transmissionstatus := _transmissionstatus self |}, fr').

Definition init_framedefinition (self : CanBus) (item : Z * CanFrameDefinition)
  : result CanBus :=
  let '(frameID, framedef) := item in
  if is_outbound framedef (ego_node_ids (_configuration self)) then
    let status :=
      match cycletime framedef with
      | None => STATUS_NONPERIODIC
      | Some c => if c =? 0 then STATUS_NONPERIODIC else STATUS_PERIODIC_NOT_YET_STARTED
      end in
    let self :=
      {| _configuration := _configuration self; _use_bcm := _use_bcm self;
         host_platform := host_platform self; socket_log := socket_log self;
         _output_signaldefinition_storage := _output_signaldefinition_storage self;
         _output_frame_storage := _output_frame_storage self;
         frame_heap := frame_heap self;
         _output_framedefinition_storage :=
           <[frameID := framedef]> (_output_framedefinition_storage self);
         _input_framedefinition_storage := _input_framedefinition_storage self;
         _transmissionstatus :=
           <[def_frame_id framedef := status]> (_transmissionstatus self) |} in
    fr ← from_empty_bytes frameID (dlc framedef) (def_frame_format framedef);
    '(self, _) ← foldM (init_signal frameID) (signaldefinitions framedef) (self, fr);
    Ok self
  else
    Ok {| _configuration := _configuration self; _use_bcm := _use_bcm self;
          host_platform := host_platform self; socket_log := socket_log self;
          _output_signaldefinition_storage := _output_signaldefinition_storage self;
          _output_frame_storage := _output_frame_storage self;
          frame_heap := frame_heap self;
          _output_framedefinition_storage := _output_framedefinition_storage self;
          _input_framedefinition_storage :=
            _input_framedefinition_storage self ++ [framedef];
          _transmissionstatus := _transmissionstatus self |}.

Definition new_CanBus (pf : platform) (config : Configuration) (use_bcm : bool)
  : result CanBus :=
  foldM init_framedefinition (framedefinitions config)
    {| _configuration := config; _use_bcm := use_bcm;
       host_platform := pf; socket_log := [];
       _output_signaldefinition_storage := ∅;
       _output_frame_storage := ∅;
       frame_heap := ∅;
       _output_framedefinition_storage := ∅;
       _input_framedefinition_storage := [];
       _transmissionstatus := ∅ |}.


(** ** Examples from the tests and the documentation *)

Definition example_signal (signalname : string) (startbit numberofbits : Z)
    (endianness : endianness_t) (signaltype : signaltype_t)
    (minvalue maxvalue : option float) : CanSignalDefinition :=
  {| signalname := signalname; startbit := startbit; numberofbits := numberofbits;
     scalingfactor := float_lit 1; valueoffset := float_lit 0;
     defaultvalue := Some (float_lit 0); unit_ := ""; comment := "";
     minvalue := minvalue; maxvalue := maxvalue;
     endianness := endianness; signaltype := signaltype |}.

Definition testsignal1 : CanSignalDefinition :=
  example_signal "testsignal1" 56 1 LITTLE_ENDIAN CAN_SIGNALTYPE_UNSIGNED None None.
Definition testsignal2 : CanSignalDefinition :=
  example_signal "testsignal2" 8 16 BIG_ENDIAN CAN_SIGNALTYPE_UNSIGNED None None.
Definition testsignal3 : CanSignalDefinition :=
  example_signal "testsignal3" 24 16 LITTLE_ENDIAN CAN_SIGNALTYPE_UNSIGNED None None.
Definition testsignal4 : CanSignalDefinition :=
  example_signal "testsignal4" 48 8 LITTLE_ENDIAN CAN_SIGNALTYPE_SIGNED None None.

(** The frame definition of the change-detection mask scenario. *)
Definition testframedef4 : CanFrameDefinition :=
  {| def_frame_id := 4; name := "testframedef4"; dlc := 8; cycletime := None;
     def_frame_format := CAN_FRAMEFORMAT_STANDARD; throttle_time := None;
     producer_ids := ∅;
     signaldefinitions := [testsignal1; testsignal2; testsignal3; testsignal4];
     receive_on_change_only := false |}.

(** A signal definition that has the layout [e], [start], [n] only. *)
Definition layout_signal (e : endianness_t) (start n : Z) : CanSignalDefinition :=
  example_signal "" start n e CAN_SIGNALTYPE_UNSIGNED None None.

(** The overview string of a layout marks the bits of its mask. *)
Definition overview_agrees_with_mask (e : endianness_t) (start n : Z) : bool :=
  match e with
  | LITTLE_ENDIAN => 64 <? start + n
  | BIG_ENDIAN => 64 <? backward_bitnumber start + n
  end
  || match _get_overview_string (layout_signal e start n),
           signal_bitmask (layout_signal e start n) with
     | Ok (overviewstring, _), Ok m =>
         (length overviewstring =? 64)%nat && (mask_of_overview overviewstring 0 =? m)
     | _, _ => false
     end.

(** The bit [p] of the mask of [sd], when the mask is defined. *)
Definition signal_occupies (sd : CanSignalDefinition) (p : Z) : bool :=
  match signal_bitmask sd with
  | Ok m => Z.testbit m p
  | Raise _ => false
  end.


(** The frame definition and the frame of the decoding scenario. *)
Definition testframedef1 : CanFrameDefinition :=
  {| def_frame_id := 1; name := "testframedef1"; dlc := 8; cycletime := None;
     def_frame_format := CAN_FRAMEFORMAT_STANDARD; throttle_time := None;
     producer_ids := ∅;
     signaldefinitions :=
       [testsignal1; testsignal2;
        example_signal "testsignal3" 24 16 LITTLE_ENDIAN CAN_SIGNALTYPE_UNSIGNED
                       None (Some (float_lit 1200))];
     receive_on_change_only := false |}.

Definition testframe1 : CanFrame :=
  {| frame_id := 1; frame_data := [x00; x02; x00; x08; x00; x00; x00; xff];
     frame_format := CAN_FRAMEFORMAT_STANDARD |}.

(** An unsigned byte limited to 100, and a frame of eight empty bytes. *)
Definition limited_signal : CanSignalDefinition :=
  example_signal "limited" 0 8 LITTLE_ENDIAN CAN_SIGNALTYPE_UNSIGNED
                 None (Some (float_lit 100)).

Definition empty_frame : CanFrame :=
  {| frame_id := 1; frame_data := replicate 8 NULL_BYTE;
     frame_format := CAN_FRAMEFORMAT_STANDARD |}.

(** An unsigned signal that uses all 64 bits. *)
Definition wide_signal : CanSignalDefinition :=
  example_signal "wide" 0 64 LITTLE_ENDIAN CAN_SIGNALTYPE_UNSIGNED None None.

(** An unsigned byte with a minimum of 10, constructed without a default
    value. *)
Definition new_signal_with_minimum : result CanSignalDefinition :=
  new_CanSignalDefinition "limited" 0 8 (float_lit 1) (float_lit 0) None "" ""
    (Some (float_lit 10)) None LITTLE_ENDIAN CAN_SIGNALTYPE_UNSIGNED.

(** [round(x)] of a float: the nearest integer, ties to the even one. The
    code does not call it; the interval encoding is compared with it. *)
Definition py_round (x : float) : result Z :=
  match x with
  | S754_zero _ => Ok 0
  | S754_finite s m e =>
      let a :=
        if 0 <=? e then Zpos m * 2 ^ e
        else
          let q := Zpos m / 2 ^ (- e) in
          let r := Zpos m mod 2 ^ (- e) in
          if 2 * r <? 2 ^ (- e) then q
          else if 2 ^ (- e) <? 2 * r then q + 1
          else if Z.even q then q else q + 1 in
      Ok (if s then - a else a)
  | S754_infinity _ => Raise OverflowError
  | S754_nan => Raise ValueError
  end.

(** The interval of [_build_bcm_header], given in milliseconds, as full
    seconds and microseconds. *)
Definition interval_seconds_useconds (interval : float) : result (Z * Z) :=
  msec ← float_of_int MILLISECONDS_PER_SECOND;
  interval_s ← float_truediv interval msec;
  split_seconds_to_full_and_part interval_s.

(** The microseconds of the same interval with [round] in the place of
    [int]. *)
Definition rounded_useconds (interval : float) : result Z :=
  msec ← float_of_int MILLISECONDS_PER_SECOND;
  seconds_float ← float_truediv interval msec;
  seconds_full ← math_floor seconds_float;
  seconds_full_f ← float_of_int seconds_full;
  usec_f ← float_of_int MICROSECONDS_PER_SECOND;
  py_round (float_mul (float_sub seconds_float seconds_full_f) usec_f).

(** *** The interval of whole milliseconds, on the floats of the machine

    The hardware floats of Rocq are specified by the operations of
    [SpecFloat] that model the floats of Python here, so a check that runs
    on them settles the value of [interval_seconds_useconds]. *)

Definition prim_of_Z (k : Z) : PrimFloat.float :=
  PrimFloat.of_uint63 (Uint63.of_Z k).

(** [x] is not negative and its integer part is [q]. *)
Definition whole_part_is (x : float) (q : Z) : bool :=
  match x with
  | S754_zero _ => q =? 0
  | S754_finite false m e =>
      if 0 <=? e then q =? Zpos m * 2 ^ e
      else (q * 2 ^ (- e) <=? Zpos m) && (Zpos m <? (q + 1) * 2 ^ (- e))
  | _ => false
  end.

(** The steps of [split_seconds_to_full_and_part] on [ms / 1000] give the
    full seconds [ms // 1000] and the exact microseconds, or one microsecond
    less. *)
Definition interval_split_as (ms : Z) : bool :=
  let x := PrimFloat.div (prim_of_Z ms) (prim_of_Z MILLISECONDS_PER_SECOND) in
  let seconds_full := ms / 1000 in
  let part := 1000 * (ms mod 1000) in
  let y := FloatOps.Prim2SF
             (PrimFloat.mul (PrimFloat.sub x (prim_of_Z seconds_full))
                            (prim_of_Z MICROSECONDS_PER_SECOND)) in
  whole_part_is (FloatOps.Prim2SF x) seconds_full
  && (whole_part_is y part || whole_part_is y (part - 1)).

(** [f] holds for the [n] integers from [start] on. *)
Fixpoint all_from (f : Z -> bool) (n : nat) (start : Z) : bool :=
  match n with
  | O => true
  | S n' => f start && all_from f n' (start + 1)
  end.

(** A raw frame of 16 bytes whose length byte is 255. *)
Definition rawframe_with_large_dlc : list byte :=
  [x23; x01; x00; x00; xff; x00; x00; x00; x01; x02; x03; x04; x05; x06; x07; x08].

(** A host with little-endian byte order and a [long] of 64 bits. *)
Definition example_platform : platform :=
  {| native_byteorder := LittleEndianHost; long_bits := 64 |}.

(** A bus with one outbound frame that is sent every 20 ms through the
    broadcast manager. *)
Definition periodic_framedef : CanFrameDefinition :=
  {| def_frame_id := 7; name := "periodic"; dlc := 8; cycletime := Some 20;
     def_frame_format := CAN_FRAMEFORMAT_STANDARD; throttle_time := None;
     producer_ids := {["1"]}; signaldefinitions := [testsignal1];
     receive_on_change_only := false |}.

Definition periodic_configuration : Configuration :=
  {| framedefinitions := [(7, periodic_framedef)]; busname := None;
     ego_node_ids := {["1"]} |}.

(** The state of that bus after its construction. *)
Definition periodic_bus : CanBus :=
  {| _configuration := periodic_configuration; _use_bcm := true;
     host_platform := example_platform; socket_log := [];
     _output_signaldefinition_storage := {[ "testsignal1" := testsignal1 ]};
     _output_frame_storage := {[ "testsignal1" := 7 ]};
     frame_heap := {[ 7 := {| frame_id := 7; frame_data := replicate 8 NULL_BYTE;
                              frame_format := CAN_FRAMEFORMAT_STANDARD |} ]};
     _output_framedefinition_storage := {[ 7 := periodic_framedef ]};
     _input_framedefinition_storage := [];
     _transmissionstatus := {[ 7 := STATUS_PERIODIC_NOT_YET_STARTED ]} |}.


(** A configuration whose dictionary holds the frame definitions 4, 1 and 7,
    inserted in this order; the first two are inbound. *)
Definition mixed_configuration : Configuration :=
  {| framedefinitions :=
       [(4, testframedef4); (1, testframedef1); (7, periodic_framedef)];
     busname := None; ego_node_ids := {["1"]} |}.

(** The state of that bus after its construction. *)
Definition mixed_bus : CanBus :=
  {| _configuration := mixed_configuration; _use_bcm := true;
     host_platform := example_platform; socket_log := [];
     _output_signaldefinition_storage := {[ "testsignal1" := testsignal1 ]};
     _output_frame_storage := {[ "testsignal1" := 7 ]};
     frame_heap := {[ 7 := {| frame_id := 7; frame_data := replicate 8 NULL_BYTE;
                              frame_format := CAN_FRAMEFORMAT_STANDARD |} ]};
     _output_framedefinition_storage := {[ 7 := periodic_framedef ]};
     _input_framedefinition_storage := [testframedef4; testframedef1];
     _transmissionstatus := {[ 7 := STATUS_PERIODIC_NOT_YET_STARTED ]} |}.

(** A frame definition of one byte with a signal in the second byte, and a
    frame of that length. *)
Definition second_byte_signal : CanSignalDefinition :=
  example_signal "second" 8 8 LITTLE_ENDIAN CAN_SIGNALTYPE_UNSIGNED None None.

Definition short_framedef : CanFrameDefinition :=
  {| def_frame_id := 1; name := "short"; dlc := 1; cycletime := None;
     def_frame_format := CAN_FRAMEFORMAT_STANDARD; throttle_time := None;
     producer_ids := ∅; signaldefinitions := [second_byte_signal];
     receive_on_change_only := false |}.

Definition short_frame : CanFrame :=
  {| frame_id := 1; frame_data := [x00]; frame_format := CAN_FRAMEFORMAT_STANDARD |}.

(** A frame definition with two signals of one name, in the first and in the
    second byte. *)
Definition twin_framedef : CanFrameDefinition :=
  {| def_frame_id := 1; name := "twins"; dlc := 8; cycletime := None;
     def_frame_format := CAN_FRAMEFORMAT_STANDARD; throttle_time := None;
     producer_ids := ∅;
     signaldefinitions :=
       [example_signal "twin" 0 8 LITTLE_ENDIAN CAN_SIGNALTYPE_UNSIGNED None None;
        example_signal "twin" 8 8 LITTLE_ENDIAN CAN_SIGNALTYPE_UNSIGNED None None];
     receive_on_change_only := false |}.

(** A double that takes the whole frame. *)
Definition double_signal : CanSignalDefinition :=
  example_signal "double" 0 64 LITTLE_ENDIAN CAN_SIGNALTYPE_DOUBLE None None.
(** * Properties *)

(** ** The result monad *)

Lemma bind_Ok {A B} (r : result A) (k : A -> result B) (b : B) :
  r ≫= k = Ok b -> exists a, r = Ok a /\ k a = Ok b.
Proof. destruct r as [a|e]; simpl; [eauto | discriminate]. Qed.

Lemma raise_if_Ok (c : bool) (e : exn) : raise_if c e = Ok tt -> c = false.
Proof. destruct c; [discriminate | reflexivity]. Qed.

Lemma assert_Ok (c : bool) : assert c = Ok tt -> c = true.
Proof. destruct c; [reflexivity | discriminate]. Qed.

Lemma foldM_app {A B} (f : A -> B -> result A) (l1 l2 : list B) (acc : A) :
  foldM f (l1 ++ l2) acc = foldM f l1 acc ≫= foldM f l2.
Proof.
  revert acc. induction l1 as [|x l1 IH]; intros acc; simpl; [reflexivity|].
  destruct (f acc x) as [acc'|e]; simpl; [apply IH | reflexivity].
Qed.

(** ** Bytes and unsigned integers *)

Lemma byte_to_Z_range (b : byte) : 0 <= byte_to_Z b < 256.
Proof.
  unfold byte_to_Z. pose proof (Byte.to_N_bounded b). lia.
Qed.

Lemma byte_of_to_Z (b : byte) : byte_of_Z (byte_to_Z b) = b.
Proof.
  unfold byte_of_Z. pose proof (byte_to_Z_range b) as Hb.
  rewrite Z.mod_small by lia. unfold byte_to_Z.
  rewrite N2Z.id, Byte.of_to_N. reflexivity.
Qed.

Lemma byte_to_of_Z (z : Z) : byte_to_Z (byte_of_Z z) = z mod 256.
Proof.
  unfold byte_of_Z, byte_to_Z.
  pose proof (Z.mod_pos_bound z 256 ltac:(lia)) as Hm.
  destruct (Byte.of_N (Z.to_N (z mod 256))) as [b|] eqn:E.
  - apply Byte.to_of_N in E. rewrite E. lia.
  - apply Byte.of_N_None_iff in E. lia.
Qed.

Lemma byte_to_Z_testbit_high (b : byte) (i : Z) :
  8 <= i -> Z.testbit (byte_to_Z b) i = false.
Proof.
  intros Hi. pose proof (byte_to_Z_range b) as Hb.
  destruct (Z.eq_dec (byte_to_Z b) 0) as [-> | Hnz]; [apply Z.bits_0|].
  apply Z.bits_above_log2; [lia|].
  assert (Z.log2 (byte_to_Z b) < 8); [|lia].
  apply Z.log2_lt_pow2; lia.
Qed.

Lemma byte_to_Z_inj (a b : byte) : byte_to_Z a = byte_to_Z b -> a = b.
Proof.
  intros H. rewrite <- (byte_of_to_Z a), <- (byte_of_to_Z b), H. reflexivity.
Qed.

Lemma length_Z_to_be_bytes (n : nat) (x : Z) : length (Z_to_be_bytes n x) = n.
Proof. induction n; simpl; congruence. Qed.

(** Bit [p] of a big-endian number is bit [p mod 8] of the byte at index
    [length - 1 - p / 8]. *)
Lemma be_bytes_to_Z_testbit (l : list byte) (p : Z) :
  0 <= p ->
  Z.testbit (be_bytes_to_Z l) p =
    match l !! (length l - 1 - Z.to_nat (p / 8))%nat with
    | Some b => (p / 8 <? Z.of_nat (length l)) && Z.testbit (byte_to_Z b) (p mod 8)
    | None => false
    end.
Proof.
  intros Hp. induction l as [|b r IH].
  - simpl. apply Z.bits_0.
  - cbn [be_bytes_to_Z length]. rewrite Z.lor_spec, IH.
    pose proof (Z.div_mod p 8 ltac:(lia)) as Hdm.
    pose proof (Z.mod_pos_bound p 8 ltac:(lia)) as Hmod.
    assert (0 <= p / 8) as Hq by (apply Z.div_pos; lia).
    destruct (Z_lt_dec (p / 8) (Z.of_nat (length r))) as [Hlt|Hge].
    + (* the bit lies in the tail *)
      rewrite Z.shiftl_spec by lia.
      rewrite Z.testbit_neg_r by lia. simpl orb.
      replace (S (length r) - 1 - Z.to_nat (p / 8))%nat
        with (S (length r - 1 - Z.to_nat (p / 8)))%nat by lia.
      simpl lookup.
      destruct (r !! (length r - 1 - Z.to_nat (p / 8))%nat) eqn:E; [|reflexivity].
      f_equal. apply Z.ltb_lt in Hlt. rewrite Hlt. symmetry. apply Z.ltb_lt. lia.
    + (* the bit lies in the head or above *)
      assert (r !! (length r - 1 - Z.to_nat (p / 8))%nat = None \/
              (p / 8 <? Z.of_nat (length r)) = false) as Hr.
      { right. apply Z.ltb_ge. lia. }
      assert (match r !! (length r - 1 - Z.to_nat (p / 8))%nat with
              | Some b0 => (p / 8 <? Z.of_nat (length r)) && Z.testbit (byte_to_Z b0) (p mod 8)
              | None => false
              end = false) as ->.
      { destruct (r !! _); [|reflexivity].
        destruct Hr as [? | ->]; [discriminate | reflexivity]. }
      rewrite orb_false_r. rewrite Z.shiftl_spec by lia.
      destruct (Z.eq_dec (p / 8) (Z.of_nat (length r))) as [Heq|Hne].
      * replace (S (length r) - 1 - Z.to_nat (p / 8))%nat with 0%nat by lia.
        simpl lookup.
        replace (p - 8 * Z.of_nat (length r)) with (p mod 8) by lia.
        assert ((p / 8 <? Z.of_nat (S (length r))) = true) as -> by (apply Z.ltb_lt; lia).
        reflexivity.
      * rewrite byte_to_Z_testbit_high by lia.
        replace (S (length r) - 1 - Z.to_nat (p / 8))%nat with 0%nat by lia.
        simpl lookup.
        assert ((p / 8 <? Z.of_nat (S (length r))) = false) as -> by (apply Z.ltb_ge; lia).
        reflexivity.
Qed.

Lemma be_bytes_to_Z_nonneg (l : list byte) : 0 <= be_bytes_to_Z l.
Proof.
  induction l as [|b r IH]; simpl; [lia|].
  apply Z.lor_nonneg. split; [|exact IH].
  apply Z.shiftl_nonneg. apply byte_to_Z_range.
Qed.

Lemma be_bytes_to_Z_testbit_high (l : list byte) (p : Z) :
  8 * Z.of_nat (length l) <= p -> Z.testbit (be_bytes_to_Z l) p = false.
Proof.
  intros Hp. rewrite be_bytes_to_Z_testbit by lia.
  destruct (l !! _); [|reflexivity].
  assert ((p / 8 <? Z.of_nat (length l)) = false) as ->; [|reflexivity].
  apply Z.ltb_ge. apply Z.div_le_lower_bound; lia.
Qed.

Lemma be_bytes_to_Z_range (l : list byte) :
  0 <= be_bytes_to_Z l < 2 ^ (8 * Z.of_nat (length l)).
Proof.
  split; [apply be_bytes_to_Z_nonneg|].
  destruct (Z.eq_dec (be_bytes_to_Z l) 0) as [-> | Hnz].
  { apply Z.pow_pos_nonneg; lia. }
  pose proof (be_bytes_to_Z_nonneg l) as Hnn.
  apply Z.log2_lt_pow2; [lia|].
  destruct (Z_lt_dec (Z.log2 (be_bytes_to_Z l)) (8 * Z.of_nat (length l))) as [?|Hge]; [assumption|].
  exfalso. pose proof (Z.bit_log2 (be_bytes_to_Z l) ltac:(lia)) as Hbit.
  rewrite be_bytes_to_Z_testbit_high in Hbit by lia. discriminate.
Qed.

Lemma Z_to_be_bytes_lookup (n : nat) (x : Z) (i : nat) :
  (i < n)%nat ->
  Z_to_be_bytes n x !! i = Some (byte_of_Z (Z.shiftr x (8 * Z.of_nat (n - 1 - i)))).
Proof.
  revert i. induction n as [|n IH]; intros i Hi; [lia|].
  destruct i as [|i]; simpl.
  - do 3 f_equal. lia.
  - rewrite IH by lia. do 4 f_equal. lia.
Qed.

Lemma be_bytes_to_Z_to_be_bytes_testbit (n : nat) (x p : Z) :
  0 <= p ->
  Z.testbit (be_bytes_to_Z (Z_to_be_bytes n x)) p =
    (p <? 8 * Z.of_nat n) && Z.testbit x p.
Proof.
  intros Hp. rewrite be_bytes_to_Z_testbit by lia.
  rewrite length_Z_to_be_bytes.
  pose proof (Z.div_mod p 8 ltac:(lia)) as Hdm.
  pose proof (Z.mod_pos_bound p 8 ltac:(lia)) as Hmod.
  assert (0 <= p / 8) as Hq by (apply Z.div_pos; lia).
  destruct (Z_lt_dec p (8 * Z.of_nat n)) as [Hlt|Hge].
  - assert (p / 8 < Z.of_nat n) as Hq' by (apply Z.div_lt_upper_bound; lia).
    rewrite Z_to_be_bytes_lookup by lia.
    assert ((p <? 8 * Z.of_nat n) = true) as -> by (apply Z.ltb_lt; lia).
    assert ((p / 8 <? Z.of_nat n) = true) as -> by (apply Z.ltb_lt; lia).
    simpl andb. rewrite byte_to_of_Z.
    change 256 with (2 ^ 8). rewrite Z.mod_pow2_bits_low by lia.
    rewrite Z.shiftr_spec by lia. f_equal. lia.
  - assert ((p <? 8 * Z.of_nat n) = false) as -> by (apply Z.ltb_ge; lia).
    assert ((p / 8 <? Z.of_nat n) = false) as ->.
    { apply Z.ltb_ge. apply Z.div_le_lower_bound; lia. }
    destruct (_ !! _); reflexivity.
Qed.

Lemma be_bytes_to_Z_to_be_bytes (n : nat) (x : Z) :
  0 <= x < 2 ^ (8 * Z.of_nat n) -> be_bytes_to_Z (Z_to_be_bytes n x) = x.
Proof.
  intros Hx. apply Z.bits_inj'. intros p Hp.
  rewrite be_bytes_to_Z_to_be_bytes_testbit by lia.
  destruct (Z_lt_dec p (8 * Z.of_nat n)) as [Hlt|Hge].
  - assert ((p <? 8 * Z.of_nat n) = true) as -> by (apply Z.ltb_lt; lia). reflexivity.
  - assert ((p <? 8 * Z.of_nat n) = false) as -> by (apply Z.ltb_ge; lia).
    simpl. symmetry.
    destruct (Z.eq_dec x 0) as [-> | Hnz]; [apply Z.bits_0|].
    apply Z.bits_above_log2; [lia|].
    assert (Z.log2 x < 8 * Z.of_nat n); [|lia].
    apply Z.log2_lt_pow2; lia.
Qed.

Lemma Z_to_be_bytes_of_bytes (l : list byte) :
  Z_to_be_bytes (length l) (be_bytes_to_Z l) = l.
Proof.
  apply list_eq. intros i.
  destruct (decide (i < length l)%nat) as [Hi|Hi].
  - rewrite Z_to_be_bytes_lookup by lia.
    destruct (lookup_lt_is_Some_2 l i Hi) as [b Hb]. rewrite Hb. f_equal.
    apply byte_to_Z_inj. rewrite byte_to_of_Z.
    apply Z.bits_inj'. intros p Hp.
    change 256 with (2 ^ 8).
    destruct (Z_lt_dec p 8) as [Hlt|Hge].
    + rewrite Z.mod_pow2_bits_low by lia.
      rewrite Z.shiftr_spec by lia.
      rewrite be_bytes_to_Z_testbit by lia.
      replace ((p + 8 * Z.of_nat (length l - 1 - i)) / 8) with (Z.of_nat (length l - 1 - i)).
      2:{ apply Z.div_unique with (r := p); lia. }
      replace ((p + 8 * Z.of_nat (length l - 1 - i)) mod 8) with p.
      2:{ apply Z.mod_unique with (q := Z.of_nat (length l - 1 - i)); lia. }
      rewrite Nat2Z.id.
      replace (length l - 1 - (length l - 1 - i))%nat with i by lia.
      rewrite Hb.
      assert ((Z.of_nat (length l - 1 - i) <? Z.of_nat (length l)) = true) as ->
        by (apply Z.ltb_lt; lia).
      reflexivity.
    + rewrite Z.mod_pow2_bits_high by lia.
      rewrite byte_to_Z_testbit_high by lia. reflexivity.
  - rewrite !lookup_ge_None_2; [reflexivity | lia | rewrite length_Z_to_be_bytes; lia].
Qed.

(** ** The raw frame of SocketCAN *)

Lemma pack_uint_be_Ok (n : nat) (x : Z) :
  0 <= x < 2 ^ (8 * Z.of_nat n) -> pack_uint_be n x = Ok (Z_to_be_bytes n x).
Proof.
  intros Hx. unfold pack_uint_be.
  assert ((x <? 0) = false) as -> by (apply Z.ltb_ge; lia).
  assert ((2 ^ (8 * Z.of_nat n) <=? x) = false) as -> by (apply Z.leb_gt; lia).
  reflexivity.
Qed.

Lemma unpack_uint32_native_pack (host : byteorder) (x : Z) :
  0 <= x < 2 ^ 32 ->
  exists b, pack_uint32_native host x = Ok b /\ length b = 4%nat /\
            unpack_uint32_native host b = Ok x.
Proof.
  intros Hx. unfold pack_uint32_native, unpack_uint32_native.
  rewrite pack_uint_be_Ok by (simpl; lia).
  eexists; split; [reflexivity|].
  unfold unpack_uint_be.
  destruct host.
  - rewrite rev_involutive, length_rev, length_Z_to_be_bytes.
    split; [reflexivity|]. simpl negb. cbv iota.
    f_equal. apply (be_bytes_to_Z_to_be_bytes 4). simpl; lia.
  - rewrite length_Z_to_be_bytes.
    split; [reflexivity|]. simpl negb. cbv iota.
    f_equal. apply (be_bytes_to_Z_to_be_bytes 4). simpl; lia.
Qed.

Lemma length_ljust (b : list byte) (w : Z) (fill : byte) :
  Z.of_nat (length b) <= w -> length (ljust b w fill) = Z.to_nat w.
Proof.
  intros H. unfold ljust. rewrite length_app, length_replicate. lia.
Qed.

Lemma ljust_full (b : list byte) (w : Z) (fill : byte) :
  w <= Z.of_nat (length b) -> ljust b w fill = b.
Proof.
  intros H. unfold ljust. replace (Z.to_nat w - length b)%nat with 0%nat by lia.
  apply app_nil_r.
Qed.

Lemma py_slice_to_ljust (b : list byte) (w : Z) (fill : byte) :
  py_slice_to (ljust b w fill) (Z.of_nat (length b)) = b.
Proof.
  unfold py_slice_to.
  assert ((Z.of_nat (length b) <? 0) = false) as -> by (apply Z.ltb_ge; lia).
  rewrite Nat2Z.id. unfold ljust. rewrite take_app_length. reflexivity.
Qed.

Lemma id_of_first_part (frame_id : Z) (ext : bool) :
  0 <= frame_id <= MAX_CAN_FRAME_ID_EXTENDED ->
  let first_part := if ext then Z.lor frame_id CAN_MASK_EXTENDED_FRAME_BIT else frame_id in
  0 <= first_part < 2 ^ 32 /\
  Z.land first_part CAN_MASK_ID_ONLY = frame_id /\
  (Z.land first_part CAN_MASK_EXTENDED_FRAME_BIT =? 0) = negb ext.
Proof.
  intros Hid. unfold MAX_CAN_FRAME_ID_EXTENDED in Hid.
  assert (forall p, 29 <= p -> Z.testbit frame_id p = false) as Hhigh.
  { intros p Hp. destruct (Z.eq_dec frame_id 0) as [-> | Hnz]; [apply Z.bits_0|].
    apply Z.bits_above_log2; [lia|].
    assert (Z.log2 frame_id < 29); [|lia]. apply Z.log2_lt_pow2; lia. }
  assert (Z.land frame_id CAN_MASK_ID_ONLY = frame_id) as Hmask.
  { change CAN_MASK_ID_ONLY with (Z.ones 29). rewrite Z.land_ones by lia.
    apply Z.mod_small. lia. }
  assert (Z.land frame_id CAN_MASK_EXTENDED_FRAME_BIT = 0) as Hbit.
  { apply Z.bits_inj'. intros p Hp. rewrite Z.land_spec, Z.bits_0.
    change CAN_MASK_EXTENDED_FRAME_BIT with (2 ^ 31).
    destruct (Z.eq_dec p 31) as [-> | Hne].
    - rewrite Hhigh by lia. reflexivity.
    - rewrite Z.pow2_bits_false by lia. apply andb_false_r. }
  destruct ext; cbv zeta.
  - assert (Z.lor frame_id CAN_MASK_EXTENDED_FRAME_BIT = frame_id + 2 ^ 31) as Hlor.
    { rewrite <- Z.add_nocarry_lor by exact Hbit. reflexivity. }
    split; [rewrite Hlor; lia|]. split.
    + rewrite Z.land_lor_distr_l, Hmask.
      change (Z.land CAN_MASK_EXTENDED_FRAME_BIT CAN_MASK_ID_ONLY) with 0.
      apply Z.lor_0_r.
    + rewrite Z.land_lor_distr_l, Hbit. reflexivity.
  - split; [lia|]. split; [exact Hmask|]. rewrite Hbit. reflexivity.
Qed.

Lemma check_frame_id_and_format_Ok (frame_id : Z) (frame_format : frame_format_t) :
  check_frame_id_and_format frame_id frame_format = Ok tt <->
  0 <= frame_id <=
    match frame_format with
    | CAN_FRAMEFORMAT_STANDARD => MAX_CAN_FRAME_ID_STANDARD
    | CAN_FRAMEFORMAT_EXTENDED => MAX_CAN_FRAME_ID_EXTENDED
    end.
Proof.
  unfold check_frame_id_and_format.
  destruct (Z.ltb_spec frame_id 0).
  { split; [discriminate | lia]. }
  destruct frame_format; simpl.
  - destruct (Z.gtb_spec frame_id MAX_CAN_FRAME_ID_STANDARD);
      (split; [try discriminate; intros; lia | try reflexivity; lia]).
  - destruct (Z.gtb_spec frame_id MAX_CAN_FRAME_ID_EXTENDED);
      (split; [try discriminate; intros; lia | try reflexivity; lia]).
Qed.

(** C8. Raw wire round-trip: a frame with a valid identifier for its format
    and at most eight data bytes is packed into sixteen bytes by
    [get_rawframe], and [from_rawframe] gives the same frame back, on hosts
    of either byte order. *)
Theorem rawframe_roundtrip (host : byteorder) (f : CanFrame) :
  check_frame_id_and_format (frame_id f) (frame_format f) = Ok tt ->
  (length (frame_data f) <= 8)%nat ->
  exists raw, get_rawframe host f = Ok raw /\ length raw = 16%nat /\
              from_rawframe host raw = Ok f.
Proof.
  intros Hid Hlen. destruct f as [fid data fmt]. simpl in *.
  pose proof Hid as Hid'. apply check_frame_id_and_format_Ok in Hid'.
  assert (0 <= fid <= MAX_CAN_FRAME_ID_EXTENDED) as Hext.
  { destruct fmt; unfold MAX_CAN_FRAME_ID_STANDARD, MAX_CAN_FRAME_ID_EXTENDED in *; lia. }
  unfold get_rawframe, pack_rawframe, MAX_NUMBER_OF_CAN_DATA_BYTES. simpl.
  pose proof (id_of_first_part fid (bool_decide (fmt = CAN_FRAMEFORMAT_EXTENDED)) Hext)
    as (Hfp & Hidm & Hbit). cbv zeta in *.
  set (first_part := if bool_decide (fmt = CAN_FRAMEFORMAT_EXTENDED)
                     then Z.lor fid CAN_MASK_EXTENDED_FRAME_BIT else fid) in *.
  destruct (unpack_uint32_native_pack host first_part Hfp) as (idb & Hpack & Hlenb & Hunpack).
  rewrite Hpack. simpl.
  rewrite (pack_uint_be_Ok 1) by (change (2 ^ (8 * Z.of_nat 1)) with 256; lia). simpl.
  eexists. split; [reflexivity|].
  assert (length (ljust data 8 NULL_BYTE) = 8%nat) as Hl8.
  { rewrite length_ljust; lia. }
  rewrite (ljust_full (ljust data 8 NULL_BYTE)) by (rewrite Hl8; lia).
  rewrite take_ge by lia.
  split.
  { rewrite length_app, Hlenb. simpl. rewrite Hl8. reflexivity. }
  unfold from_rawframe, unpack_rawframe.
  rewrite length_app, Hlenb. simpl length. rewrite Hl8. simpl negb. cbv iota.
  destruct idb as [|b0 [|b1 [|b2 [|b3 [|]]]]]; try discriminate Hlenb.
  cbn [app take drop]. rewrite Hunpack.
  unfold unpack_uint_be. simpl.
  rewrite Z.lor_0_r, !Z.shiftl_0_r, Z.shiftr_0_r, byte_to_of_Z.
  rewrite Z.mod_small by lia.
  rewrite drop_0, py_slice_to_ljust, Hidm, Hbit, negb_involutive.
  unfold new_CanFrame.
  assert ((if bool_decide (fmt = CAN_FRAMEFORMAT_EXTENDED)
           then CAN_FRAMEFORMAT_EXTENDED else CAN_FRAMEFORMAT_STANDARD) = fmt) as ->.
  { destruct fmt; reflexivity. }
  rewrite Hid. simpl. unfold check_frame_data.
  assert ((Z.of_nat (length data) >? MAX_NUMBER_OF_CAN_DATA_BYTES) = false) as ->.
  { unfold MAX_NUMBER_OF_CAN_DATA_BYTES. lia. }
  reflexivity.
Qed.

Lemma rawframe_roundtrip_witness :
  exists raw,
    get_rawframe LittleEndianHost
      {| frame_id := 0x7FF; frame_data := [x01; x02; x03];
         frame_format := CAN_FRAMEFORMAT_STANDARD |} = Ok raw /\
    length raw = 16%nat /\
    from_rawframe LittleEndianHost raw =
      Ok {| frame_id := 0x7FF; frame_data := [x01; x02; x03];
            frame_format := CAN_FRAMEFORMAT_STANDARD |}.
Proof.
  apply (rawframe_roundtrip LittleEndianHost
           {| frame_id := 0x7FF; frame_data := [x01; x02; x03];
              frame_format := CAN_FRAMEFORMAT_STANDARD |}).
  - reflexivity.
  - simpl. lia.
Defined.

Lemma unpack_rawframe_Ok (host : byteorder) (raw : list byte) :
  length raw = 16%nat ->
  exists first_part dlc data8,
    unpack_rawframe host raw = Ok (first_part, dlc, data8) /\
    0 <= first_part < 2 ^ 32 /\ 0 <= dlc < 256 /\
    data8 = drop 8 raw /\ length data8 = 8%nat.
Proof.
  intros Hlen. unfold unpack_rawframe. rewrite Hlen. simpl negb. cbv iota.
  do 16 (destruct raw as [|? raw]; [discriminate Hlen|]).
  destruct raw; [|discriminate Hlen].
  cbn [take drop]. unfold unpack_uint32_native, unpack_uint_be.
  match goal with
  | |- context [be_bytes_to_Z (match host with BigEndianHost => ?a | LittleEndianHost => ?b end)] =>
      pose proof (be_bytes_to_Z_range a) as Ha; pose proof (be_bytes_to_Z_range b) as Hb
  end.
  match goal with
  | |- context [be_bytes_to_Z [?d]] => pose proof (be_bytes_to_Z_range [d]) as Hd
  end.
  cbn [length rev app] in Ha, Hb, Hd.
  change (2 ^ (8 * Z.of_nat 4)) with (2 ^ 32) in *.
  change (2 ^ (8 * Z.of_nat 1)) with 256 in *.
  destruct host; cbn [length rev app Nat.eqb negb]; cbv iota;
    (do 3 eexists; split; [reflexivity|]; repeat split; first [apply Ha | apply Hb | apply Hd]).
Qed.

(** C10. Tolerant wire parsing: a 16-byte raw buffer whose identifier fits
    the standard range when the extended-frame bit is clear is accepted by
    [from_rawframe] whatever its DLC byte is; the data of the frame are the
    first [min dlc 8] of the eight data bytes, so at most eight. *)
Theorem from_rawframe_tolerant (host : byteorder) (raw : list byte)
    (first_part dlc : Z) (data8 : list byte) :
  unpack_rawframe host raw = Ok (first_part, dlc, data8) ->
  (Z.land first_part CAN_MASK_EXTENDED_FRAME_BIT = 0 ->
   Z.land first_part CAN_MASK_ID_ONLY <= MAX_CAN_FRAME_ID_STANDARD) ->
  exists f,
    from_rawframe host raw = Ok f /\
    frame_data f = take (Z.to_nat (Z.min dlc 8)) data8 /\
    (length (frame_data f) <= 8)%nat /\
    frame_id f = Z.land first_part CAN_MASK_ID_ONLY /\
    frame_format f =
      (if Z.land first_part CAN_MASK_EXTENDED_FRAME_BIT =? 0
       then CAN_FRAMEFORMAT_STANDARD else CAN_FRAMEFORMAT_EXTENDED).
Proof.
  intros Hun Hcons.
  assert (length raw = 16%nat) as Hlen.
  { unfold unpack_rawframe in Hun.
    destruct (Nat.eqb_spec (length raw) 16); [assumption | discriminate]. }
  destruct (unpack_rawframe_Ok host raw Hlen)
    as (fp & d & d8 & Hun' & Hfp & Hd & Hd8 & Hl8).
  rewrite Hun in Hun'. injection Hun' as <- <- <-.
  unfold from_rawframe. rewrite Hun.
  assert (py_slice_to data8 dlc = take (Z.to_nat (Z.min dlc 8)) data8) as Hslice.
  { unfold py_slice_to.
    assert ((dlc <? 0) = false) as -> by (apply Z.ltb_ge; lia).
    destruct (Z_le_dec dlc 8).
    - rewrite Z.min_l by lia. reflexivity.
    - rewrite Z.min_r by lia. rewrite !take_ge by lia. reflexivity. }
  rewrite Hslice.
  assert (0 <= Z.land first_part CAN_MASK_ID_ONLY <= MAX_CAN_FRAME_ID_EXTENDED) as Hidr.
  { change CAN_MASK_ID_ONLY with (Z.ones 29). rewrite Z.land_ones by lia.
    pose proof (Z.mod_pos_bound first_part (2 ^ 29) ltac:(lia)).
    unfold MAX_CAN_FRAME_ID_EXTENDED. lia. }
  unfold new_CanFrame.
  assert (check_frame_id_and_format (Z.land first_part CAN_MASK_ID_ONLY)
            (if negb (Z.land first_part CAN_MASK_EXTENDED_FRAME_BIT =? 0)
             then CAN_FRAMEFORMAT_EXTENDED else CAN_FRAMEFORMAT_STANDARD) = Ok tt) as ->.
  { apply check_frame_id_and_format_Ok.
    destruct (Z.eqb_spec (Z.land first_part CAN_MASK_EXTENDED_FRAME_BIT) 0) as [Hz|Hnz];
      simpl; [specialize (Hcons Hz)|]; lia. }
  simpl. unfold check_frame_data.
  assert ((Z.of_nat (length (take (Z.to_nat (Z.min dlc 8)) data8))
           >? MAX_NUMBER_OF_CAN_DATA_BYTES) = false) as ->.
  { rewrite length_take, Z.gtb_ltb. apply Z.ltb_ge.
    unfold MAX_NUMBER_OF_CAN_DATA_BYTES. lia. }
  simpl. eexists. split; [reflexivity|]. simpl.
  split; [reflexivity|]. split; [rewrite length_take; lia|].
  split; [reflexivity|].
  destruct (Z.land first_part CAN_MASK_EXTENDED_FRAME_BIT =? 0); reflexivity.
Qed.

Lemma from_rawframe_tolerant_witness :
  exists f,
    from_rawframe LittleEndianHost rawframe_with_large_dlc = Ok f /\
    frame_data f = take (Z.to_nat (Z.min 255 8)) [x01; x02; x03; x04; x05; x06; x07; x08] /\
    (length (frame_data f) <= 8)%nat /\
    frame_id f = Z.land 0x123 CAN_MASK_ID_ONLY /\
    frame_format f =
      (if Z.land 0x123 CAN_MASK_EXTENDED_FRAME_BIT =? 0
       then CAN_FRAMEFORMAT_STANDARD else CAN_FRAMEFORMAT_EXTENDED).
Proof.
  apply (from_rawframe_tolerant LittleEndianHost rawframe_with_large_dlc 0x123 255
           [x01; x02; x03; x04; x05; x06; x07; x08]).
  - reflexivity.
  - intros _. vm_compute. discriminate.
Defined.

(** ** Bit numbering *)

Lemma div8_bounds (p : Z) : 0 <= p < 64 -> 0 <= p / 8 <= 7.
Proof.
  intros Hp. split; [apply Z.div_pos; lia|].
  assert (p / 8 < 8); [apply Z.div_lt_upper_bound; lia | lia].
Qed.

Lemma calculate_backward_bitnumber_Ok (n : Z) :
  0 <= n <= 63 -> calculate_backward_bitnumber n = Ok (backward_bitnumber n).
Proof.
  intros Hn. unfold calculate_backward_bitnumber, backward_bitnumber,
    BITS_IN_FULL_DATA, MAX_NUMBER_OF_CAN_DATA_BYTES, BITS_PER_BYTE.
  assert ((n <? 0) = false) as -> by (apply Z.ltb_ge; lia).
  assert ((n >? 8 * 8 - 1) = false) as -> by (rewrite Z.gtb_ltb; apply Z.ltb_ge; lia).
  f_equal. rewrite (Z.mod_eq n 8) by lia. lia.
Qed.

Lemma calculate_normal_bitnumber_Ok (n : Z) :
  0 <= n <= 63 -> calculate_normal_bitnumber n = Ok (backward_bitnumber n).
Proof.
  intros Hn. unfold calculate_normal_bitnumber, backward_bitnumber,
    BITS_IN_FULL_DATA, MAX_NUMBER_OF_CAN_DATA_BYTES, BITS_PER_BYTE.
  assert ((n <? 0) = false) as -> by (apply Z.ltb_ge; lia).
  assert ((n >? 8 * 8 - 1) = false) as -> by (rewrite Z.gtb_ltb; apply Z.ltb_ge; lia).
  f_equal. rewrite (Z.mod_eq n 8) by lia. lia.
Qed.

Lemma backward_bitnumber_div (n : Z) : backward_bitnumber n / 8 = 7 - n / 8.
Proof.
  unfold backward_bitnumber.
  pose proof (Z.mod_pos_bound n 8 ltac:(lia)).
  symmetry. apply Z.div_unique with (r := n mod 8); lia.
Qed.

Lemma backward_bitnumber_mod (n : Z) : backward_bitnumber n mod 8 = n mod 8.
Proof.
  unfold backward_bitnumber.
  pose proof (Z.mod_pos_bound n 8 ltac:(lia)).
  symmetry. apply Z.mod_unique with (q := 7 - n / 8); lia.
Qed.

Lemma backward_bitnumber_range (n : Z) :
  0 <= n <= 63 -> 0 <= backward_bitnumber n <= 63.
Proof.
  intros Hn. unfold backward_bitnumber.
  pose proof (Z.mod_pos_bound n 8 ltac:(lia)).
  assert (0 <= n / 8 <= 7).
  { apply div8_bounds; lia. }
  lia.
Qed.

Lemma backward_bitnumber_involutive (n : Z) :
  backward_bitnumber (backward_bitnumber n) = n.
Proof.
  unfold backward_bitnumber at 1.
  rewrite backward_bitnumber_div, backward_bitnumber_mod.
  pose proof (Z.div_mod n 8 ltac:(lia)). lia.
Qed.

(** ** The frame data as an integer *)

Lemma can_bytes_to_int_Ok (data : list byte) :
  (length data <= 8)%nat -> can_bytes_to_int data = Ok (frame_integer data).
Proof.
  intros Hlen. unfold can_bytes_to_int, frame_integer, MAX_NUMBER_OF_CAN_DATA_BYTES.
  assert ((Z.of_nat (length data) <=? 8) = true) as -> by (apply Z.leb_le; lia).
  simpl. unfold unpack_uint_be. rewrite length_ljust by lia. reflexivity.
Qed.

Lemma can_bytes_to_int_Ok_inv (data : list byte) (x : Z) :
  can_bytes_to_int data = Ok x -> (length data <= 8)%nat /\ x = frame_integer data.
Proof.
  intros H. unfold can_bytes_to_int, MAX_NUMBER_OF_CAN_DATA_BYTES in H.
  destruct (Z.leb_spec (Z.of_nat (length data)) 8) as [Hle|Hgt]; [|discriminate H].
  assert (length data <= 8)%nat as Hlen by lia.
  split; [exact Hlen|].
  pose proof (can_bytes_to_int_Ok data Hlen) as H'.
  unfold can_bytes_to_int, MAX_NUMBER_OF_CAN_DATA_BYTES in H'.
  destruct (Z.leb_spec (Z.of_nat (length data)) 8); [|lia].
  congruence.
Qed.

Lemma frame_integer_range (data : list byte) :
  (length data <= 8)%nat -> 0 <= frame_integer data < 2 ^ 64.
Proof.
  intros Hlen. unfold frame_integer, MAX_NUMBER_OF_CAN_DATA_BYTES.
  pose proof (be_bytes_to_Z_range (ljust data 8 NULL_BYTE)) as H.
  rewrite length_ljust in H by lia. exact H.
Qed.

(** Bit [p] of the frame integer is bit [p mod 8] of byte [7 - p / 8]; the
    bytes beyond the data are zero. *)
Lemma frame_integer_testbit (data : list byte) (p : Z) :
  (length data <= 8)%nat -> 0 <= p < 64 ->
  Z.testbit (frame_integer data) p =
    match data !! Z.to_nat (7 - p / 8) with
    | Some b => Z.testbit (byte_to_Z b) (p mod 8)
    | None => false
    end.
Proof.
  intros Hlen Hp. unfold frame_integer, MAX_NUMBER_OF_CAN_DATA_BYTES.
  rewrite be_bytes_to_Z_testbit by lia.
  rewrite length_ljust by lia.
  assert (0 <= p / 8 <= 7) as Hq.
  { apply div8_bounds; lia. }
  replace (Z.to_nat 8 - 1 - Z.to_nat (p / 8))%nat with (Z.to_nat (7 - p / 8)) by lia.
  assert ((p / 8 <? Z.of_nat (Z.to_nat 8)) = true) as -> by (apply Z.ltb_lt; lia).
  unfold ljust.
  destruct (decide (Z.to_nat (7 - p / 8) < length data)%nat) as [Hin|Hout].
  - rewrite lookup_app_l by lia.
    destruct (lookup_lt_is_Some_2 data _ Hin) as [b ->]. reflexivity.
  - rewrite lookup_app_r by lia.
    rewrite (lookup_ge_None_2 data) by lia.
    rewrite lookup_replicate_2 by lia. simpl. apply Z.bits_0.
Qed.

Lemma frame_integer_testbit_high (data : list byte) (p : Z) :
  (length data <= 8)%nat -> 64 <= p -> Z.testbit (frame_integer data) p = false.
Proof.
  intros Hlen Hp. unfold frame_integer, MAX_NUMBER_OF_CAN_DATA_BYTES.
  apply be_bytes_to_Z_testbit_high. rewrite length_ljust by lia. lia.
Qed.

(** The bits of the frame integer below the data are zero. *)
Lemma frame_integer_testbit_padding (data : list byte) (p : Z) :
  (length data <= 8)%nat -> 0 <= p < 8 * (8 - Z.of_nat (length data)) ->
  Z.testbit (frame_integer data) p = false.
Proof.
  intros Hlen Hp. rewrite frame_integer_testbit by lia.
  assert (p / 8 < 8 - Z.of_nat (length data)) by (apply Z.div_lt_upper_bound; lia).
  rewrite lookup_ge_None_2 by lia. reflexivity.
Qed.

Lemma int_to_can_bytes_Ok (dlc x : Z) :
  0 <= dlc <= 8 -> 0 <= x < 2 ^ 64 ->
  int_to_can_bytes dlc x = Ok (take (Z.to_nat dlc) (Z_to_be_bytes 8 x)).
Proof.
  intros Hd Hx. unfold int_to_can_bytes, MAX_NUMBER_OF_CAN_DATA_BYTES.
  assert ((dlc <=? 8) = true) as -> by (apply Z.leb_le; lia).
  simpl. rewrite (pack_uint_be_Ok 8) by (change (2 ^ (8 * Z.of_nat 8)) with (2 ^ 64); lia).
  simpl. unfold py_slice_to.
  assert ((dlc <? 0) = false) as -> by (apply Z.ltb_ge; lia).
  reflexivity.
Qed.

(** Cutting an integer to [dlc] bytes clears the bits below them. *)
Lemma frame_integer_take_testbit (n : nat) (x p : Z) :
  (n <= 8)%nat -> 0 <= p < 64 ->
  Z.testbit (frame_integer (take n (Z_to_be_bytes 8 x))) p =
    (8 * (8 - Z.of_nat n) <=? p) && Z.testbit x p.
Proof.
  intros Hn Hp.
  assert (length (take n (Z_to_be_bytes 8 x)) = n) as Hlen.
  { rewrite length_take, length_Z_to_be_bytes. lia. }
  rewrite frame_integer_testbit by lia.
  assert (0 <= p / 8 <= 7) as Hq.
  { apply div8_bounds; lia. }
  pose proof (Z.div_mod p 8 ltac:(lia)) as Hdm.
  pose proof (Z.mod_pos_bound p 8 ltac:(lia)) as Hmod.
  destruct (Z.leb_spec (8 * (8 - Z.of_nat n)) p) as [Hin|Hout].
  - assert (8 - Z.of_nat n <= p / 8) by (apply Z.div_le_lower_bound; lia).
    rewrite lookup_take_lt by lia.
    rewrite Z_to_be_bytes_lookup by lia.
    rewrite byte_to_of_Z. change 256 with (2 ^ 8).
    rewrite Z.mod_pow2_bits_low by lia.
    rewrite Z.shiftr_spec by lia. simpl. f_equal. lia.
  - assert (p / 8 < 8 - Z.of_nat n) by (apply Z.div_lt_upper_bound; lia).
    rewrite lookup_ge_None_2 by lia. reflexivity.
Qed.

(** ** The byte shuffling loops of the little-endian fields *)

Ltac simpl_bind := cbn [mbind result_bind].

Lemma py_getitem_Ok {A} (l : list A) (i : Z) :
  0 <= i < Z.of_nat (length l) ->
  exists x, py_getitem l i = Ok x /\ l !! Z.to_nat i = Some x.
Proof.
  intros Hi. unfold py_getitem.
  assert ((i <? 0) = false) as E1 by (apply Z.ltb_ge; lia).
  assert ((Z.of_nat (length l) <=? i) = false) as E2 by (apply Z.leb_gt; lia).
  cbv zeta. rewrite E1. cbv iota. rewrite E1, E2. simpl. destruct (lookup_lt_is_Some_2 l (Z.to_nat i) ltac:(lia)) as [x Hx].
  rewrite Hx. exists x. split; reflexivity.
Qed.

Lemma py_setitem_Ok {A} (l : list A) (i : Z) (x : A) :
  0 <= i < Z.of_nat (length l) ->
  py_setitem l i x = Ok (<[Z.to_nat i := x]> l).
Proof.
  intros Hi. unfold py_setitem.
  assert ((i <? 0) = false) as E1 by (apply Z.ltb_ge; lia).
  assert ((Z.of_nat (length l) <=? i) = false) as E2 by (apply Z.leb_gt; lia).
  cbv zeta. rewrite E1. cbv iota. rewrite E1, E2. reflexivity.
Qed.

(** A loop that copies [src[f i]] to [acc[g i]] for [i] in [range(k)]. *)
Lemma copy_loop {A} (src acc0 : list A) (f g : Z -> Z) (k : nat) :
  (forall i, 0 <= i < Z.of_nat k -> 0 <= f i < Z.of_nat (length src)) ->
  (forall i, 0 <= i < Z.of_nat k -> 0 <= g i < Z.of_nat (length acc0)) ->
  (forall i j, 0 <= i < Z.of_nat k -> 0 <= j < Z.of_nat k -> g i = g j -> i = j) ->
  exists acc,
    foldM (fun acc i => b ← py_getitem src (f i); py_setitem acc (g i) b)
          (range (Z.of_nat k)) acc0 = Ok acc /\
    length acc = length acc0 /\
    (forall i, 0 <= i < Z.of_nat k ->
               acc !! Z.to_nat (g i) = src !! Z.to_nat (f i)) /\
    (forall j, (forall i, 0 <= i < Z.of_nat k -> Z.to_nat (g i) <> j) ->
               acc !! j = acc0 !! j).
Proof.
  unfold range. induction k as [|k IH]; intros Hf Hg Hinj.
  - exists acc0. simpl. split; [reflexivity|]. split; [reflexivity|].
    split; [intros; lia | reflexivity].
  - destruct IH as (acc & Hfold & Hlen & Hin & Hout).
    { intros i Hi. apply Hf. lia. }
    { intros i Hi. apply Hg. lia. }
    { intros i j Hi Hj. apply Hinj; lia. }
    rewrite seqZ_S, foldM_app, Hfold. simpl.
    rewrite Z.add_0_l.
    destruct (py_getitem_Ok src (f (Z.of_nat k)) ltac:(apply Hf; lia)) as (x & Hget & Hx).
    rewrite Hget. simpl.
    rewrite py_setitem_Ok by (rewrite Hlen; apply Hg; lia). simpl.
    eexists. split; [reflexivity|].
    split; [rewrite length_insert; exact Hlen|]. split.
    + intros i Hi. destruct (Z.eq_dec i (Z.of_nat k)) as [-> | Hne].
      * rewrite list_lookup_insert_eq; [congruence|].
        rewrite Hlen. pose proof (Hg (Z.of_nat k) ltac:(lia)). lia.
      * rewrite list_lookup_insert_ne.
        -- apply Hin. lia.
        -- intros Heq. apply Hne. symmetry. apply Hinj; try lia.
           pose proof (Hg i ltac:(lia)). pose proof (Hg (Z.of_nat k) ltac:(lia)). lia.
    + intros j Hj. rewrite list_lookup_insert_ne.
      * apply Hout. intros i Hi. apply Hj. lia.
      * apply Hj. lia.
Qed.

(** ** Where the codec puts the bits of a field

    [field_index e start p] is the index, in the value of a field that
    starts at [start], of bit [p] of the frame integer. *)

Lemma testbit_below_pow2 (v n j : Z) :
  0 <= v < 2 ^ n -> n <= j -> Z.testbit v j = false.
Proof.
  intros Hv Hj. destruct (Z_lt_dec n 0) as [Hneg|Hnn].
  { rewrite Z.pow_neg_r in Hv by lia. lia. }
  destruct (Z.eq_dec v 0) as [-> | Hnz]; [apply Z.bits_0|].
  apply Z.bits_above_log2; [lia|].
  assert (Z.log2 v < n); [apply Z.log2_lt_pow2; lia | lia].
Qed.

Lemma shifted_value_big_endian (v n start : Z) :
  0 <= start <= 63 ->
  get_shiftedvalue_from_busvalue v BIG_ENDIAN n start =
    Ok (Z.shiftl v (backward_bitnumber start)).
Proof.
  intros Hs. unfold get_shiftedvalue_from_busvalue.
  rewrite calculate_backward_bitnumber_Ok by lia. reflexivity.
Qed.

Lemma shifted_value_little_endian (v n start : Z) :
  0 <= start -> 1 <= n -> start + n <= 64 -> 0 <= v < 2 ^ n ->
  exists s,
    get_shiftedvalue_from_busvalue v LITTLE_ENDIAN n start = Ok s /\
    0 <= s < 2 ^ 64 /\
    forall p, 0 <= p < 64 ->
      Z.testbit s p = Z.testbit v (backward_bitnumber p - start).
Proof.
  intros Hs Hn Hfit Hv. unfold get_shiftedvalue_from_busvalue.
  rewrite calculate_backward_bitnumber_Ok by lia. simpl_bind.
  unfold BITS_PER_BYTE, MAX_NUMBER_OF_CAN_DATA_BYTES.
  rewrite backward_bitnumber_mod.
  pose proof (Z.div_mod start 8 ltac:(lia)) as Hdm.
  pose proof (Z.mod_pos_bound start 8 ltac:(lia)) as Hmod.
  pose proof (Z.div_mod (start + n - 1) 8 ltac:(lia)) as Hdm2.
  pose proof (Z.mod_pos_bound (start + n - 1) 8 ltac:(lia)) as Hmod2.
  set (bs := start / 8) in *. set (s0 := start mod 8) in *.
  set (be := (start + n - 1) / 8) in *.
  assert (0 <= bs) as Hbs0 by (apply Z.div_pos; lia).
  assert (be <= 7) as Hbe by (assert (be < 8); [apply Z.div_lt_upper_bound; lia | lia]).
  assert (bs <= be) as Hbsbe by (apply Z.div_le_mono; lia).
  assert ((be <? 8) = true) as -> by (apply Z.ltb_lt; lia).
  unfold assert. simpl_bind.
  assert (0 <= Z.shiftl v s0 < 2 ^ 64) as Hsh.
  { rewrite Z.shiftl_mul_pow2 by lia. split; [apply Z.mul_nonneg_nonneg; lia|].
    assert (2 ^ n * 2 ^ s0 <= 2 ^ 64).
    { rewrite <- Z.pow_add_r by lia. apply Z.pow_le_mono_r; lia. }
    assert (0 < 2 ^ s0) by (apply Z.pow_pos_nonneg; lia).
    nia. }
  rewrite int_to_can_bytes_Ok by lia. simpl_bind.
  change (Z.to_nat 8) with 8%nat. rewrite take_ge by (rewrite length_Z_to_be_bytes; lia).
  destruct (copy_loop (Z_to_be_bytes 8 (Z.shiftl v s0)) (replicate 8 NULL_BYTE)
              (fun i => 8 - 1 - i) (fun i => bs + i) (Z.to_nat (be - bs + 1)))
    as (acc & Hfold & Hlen & Hin & Hout).
  { intros i Hi. rewrite length_Z_to_be_bytes. lia. }
  { intros i Hi. rewrite length_replicate. lia. }
  { intros i j _ _ ?. lia. }
  rewrite Z2Nat.id in Hfold, Hin, Hout by lia.
  cbv beta in Hfold. rewrite Hfold. simpl_bind.
  rewrite length_replicate in Hlen.
  rewrite can_bytes_to_int_Ok by lia.
  eexists. split; [reflexivity|]. split; [apply frame_integer_range; lia|].
  intros p Hp. rewrite frame_integer_testbit by lia.
  pose proof (div8_bounds p Hp) as Hq.
  pose proof (Z.div_mod p 8 ltac:(lia)) as Hdmp.
  pose proof (Z.mod_pos_bound p 8 ltac:(lia)) as Hmodp.
  unfold backward_bitnumber. set (ib := 7 - p / 8) in *.
  destruct (Z_le_dec bs ib) as [Hlo|Hlo]; [destruct (Z_le_dec ib be) as [Hhi|Hhi]|].
  - (* a byte of the field *)
    specialize (Hin (ib - bs) ltac:(lia)). cbv beta in Hin.
    replace (bs + (ib - bs)) with ib in Hin by lia.
    rewrite Hin, Z_to_be_bytes_lookup by lia.
    rewrite byte_to_of_Z. change 256 with (2 ^ 8).
    rewrite Z.mod_pow2_bits_low by lia.
    rewrite Z.shiftr_spec by lia.
    destruct (Z_lt_dec (ib * 8 + p mod 8 - start) 0) as [Hneg|Hpos].
    + rewrite (Z.testbit_neg_r v) by lia.
      rewrite Z.shiftl_spec by lia. apply Z.testbit_neg_r. lia.
    + rewrite Z.shiftl_spec by lia. f_equal. lia.
  - (* a byte after the field *)
    rewrite Hout.
    2:{ intros i Hi. cbv beta. lia. }
    rewrite lookup_replicate_2 by lia. simpl. rewrite Z.bits_0.
    symmetry. apply (testbit_below_pow2 v n); lia.
  - (* a byte before the field *)
    rewrite Hout.
    2:{ intros i Hi. cbv beta. lia. }
    rewrite lookup_replicate_2 by lia. simpl. rewrite Z.bits_0.
    symmetry. apply Z.testbit_neg_r. lia.
Qed.

(** ** The layout of a field *)

Lemma signal_layout_ok_fits (sd : CanSignalDefinition) :
  signal_layout_ok sd = true ->
  field_fits (endianness sd) (startbit sd) (numberofbits sd) /\
  (signaltype sd = CAN_SIGNALTYPE_SINGLE -> numberofbits sd = 32) /\
  (signaltype sd = CAN_SIGNALTYPE_DOUBLE -> numberofbits sd = 64).
Proof.
  unfold signal_layout_ok, check_startbit, check_numberofbits, field_fits,
    BITS_IN_FULL_DATA, MAX_NUMBER_OF_CAN_DATA_BYTES, BITS_PER_BYTE,
    BITS_IN_SINGLE_PRECISION_FLOAT, BITS_IN_DOUBLE_PRECISION_FLOAT.
  intros H. apply andb_true_iff in H as [H1 H2].
  destruct (Z.ltb_spec (startbit sd) 0); [discriminate H1|].
  destruct (Z.gtb_spec (startbit sd) (8 * 8 - 1)); [discriminate H1|].
  clear H1. simpl in H2.
  destruct (Z.leb_spec (numberofbits sd) 0); [discriminate H2|].
  destruct (Z.gtb_spec (numberofbits sd) (8 * 8)); [discriminate H2|].
  simpl in H2.
  assert (match endianness sd with
          | LITTLE_ENDIAN => startbit sd + numberofbits sd <= 64
          | BIG_ENDIAN => backward_bitnumber (startbit sd) + numberofbits sd <= 64
          end /\
          is_ok match signaltype sd with
                | CAN_SIGNALTYPE_SINGLE =>
                    raise_if (negb (numberofbits sd =? 32)) (CanException WrongNumberOfBitsSingle)
                | CAN_SIGNALTYPE_DOUBLE =>
                    raise_if (negb (numberofbits sd =? 64)) (CanException WrongNumberOfBitsDouble)
                | _ => Ok tt
                end = true) as [Hfit Hty].
  { destruct (endianness sd).
    - destruct (Z.geb_spec (startbit sd + numberofbits sd - 1) (8 * 8));
        [discriminate H2|]. simpl in H2. split; [lia | exact H2].
    - rewrite calculate_backward_bitnumber_Ok in H2 by lia. simpl in H2.
      destruct (Z.geb_spec (backward_bitnumber (startbit sd) + numberofbits sd - 1) (8 * 8));
        [discriminate H2|]. simpl in H2. split; [lia | exact H2]. }
  split; [repeat split; try lia; exact Hfit|].
  split; intros Ht; rewrite Ht in Hty.
  - destruct (Z.eqb_spec (numberofbits sd) 32); [assumption | discriminate Hty].
  - destruct (Z.eqb_spec (numberofbits sd) 64); [assumption | discriminate Hty].
Qed.

Lemma field_index_position (e : endianness_t) (start j : Z) :
  field_index e start (field_position e start j) = j.
Proof.
  unfold field_index, field_position. destruct e.
  - rewrite backward_bitnumber_involutive. lia.
  - lia.
Qed.

Lemma field_position_range (e : endianness_t) (start n j : Z) :
  field_fits e start n -> 0 <= j < n -> 0 <= field_position e start j < 64.
Proof.
  intros (Hs & Hn & Hfit) Hj. unfold field_position. destruct e.
  - pose proof (backward_bitnumber_range (start + j) ltac:(lia)). lia.
  - pose proof (backward_bitnumber_range start ltac:(lia)). lia.
Qed.

Lemma get_minimum_dlc_field (sd : CanSignalDefinition) :
  get_minimum_dlc sd = field_minimum_dlc (endianness sd) (startbit sd) (numberofbits sd).
Proof. unfold get_minimum_dlc, field_minimum_dlc, BITS_PER_BYTE. destruct (endianness sd); reflexivity. Qed.

(** The bits of a field lie in the first [field_minimum_dlc] bytes. *)
Lemma field_position_in_dlc (e : endianness_t) (start n j : Z) :
  field_fits e start n -> 0 <= j < n ->
  8 * (8 - field_minimum_dlc e start n) <= field_position e start j.
Proof.
  intros (Hs & Hn & Hfit) Hj. unfold field_position, field_minimum_dlc. destruct e.
  - unfold backward_bitnumber.
    pose proof (Z.mod_pos_bound (start + j) 8 ltac:(lia)).
    assert ((start + j) / 8 <= (start + n - 1) / 8) by (apply Z.div_le_mono; lia).
    lia.
  - unfold backward_bitnumber.
    pose proof (Z.mod_pos_bound start 8 ltac:(lia)). lia.
Qed.

Lemma ones_as_shift (n : Z) : Z.shiftl 1 n - 1 = Z.ones n.
Proof. rewrite Z.ones_equiv, Z.shiftl_1_l. lia. Qed.

Lemma testbit_ones (n j : Z) :
  0 <= n -> Z.testbit (Z.ones n) j = (0 <=? j) && (j <? n).
Proof.
  intros Hn. destruct (Z.leb_spec 0 j) as [Hj|Hj]; simpl.
  - destruct (Z.ltb_spec j n).
    + apply Z.ones_spec_low. lia.
    + apply Z.ones_spec_high. lia.
  - apply Z.testbit_neg_r. lia.
Qed.

(** *** Writing: [get_shiftedvalue_from_busvalue] *)

Lemma shifted_value_testbit (e : endianness_t) (v n start : Z) :
  field_fits e start n -> 0 <= v < 2 ^ n ->
  exists s,
    get_shiftedvalue_from_busvalue v e n start = Ok s /\
    0 <= s < 2 ^ 64 /\
    forall p, 0 <= p < 64 -> Z.testbit s p = Z.testbit v (field_index e start p).
Proof.
  intros (Hs & Hn & Hfit) Hv. destruct e.
  - apply shifted_value_little_endian; lia.
  - rewrite shifted_value_big_endian by lia.
    pose proof (backward_bitnumber_range start Hs) as Hb.
    eexists. split; [reflexivity|]. split.
    + rewrite Z.shiftl_mul_pow2 by lia.
      assert (2 ^ n * 2 ^ backward_bitnumber start <= 2 ^ 64).
      { rewrite <- Z.pow_add_r by lia. apply Z.pow_le_mono_r; lia. }
      assert (0 < 2 ^ backward_bitnumber start) by (apply Z.pow_pos_nonneg; lia).
      nia.
    + intros p Hp. unfold field_index. apply Z.shiftl_spec. lia.
Qed.

(** The mask of a signal has ones exactly at the positions of its field. *)
Lemma signal_bitmask_testbit (sd : CanSignalDefinition) :
  signal_layout_ok sd = true ->
  exists m,
    signal_bitmask sd = Ok m /\ 0 <= m < 2 ^ 64 /\
    forall p, 0 <= p < 64 ->
      Z.testbit m p =
        (0 <=? field_index (endianness sd) (startbit sd) p)
        && (field_index (endianness sd) (startbit sd) p <? numberofbits sd).
Proof.
  intros Hok. apply signal_layout_ok_fits in Hok as (Hfit & _).
  pose proof Hfit as (Hs & Hn & _).
  unfold signal_bitmask. cbv zeta. rewrite ones_as_shift.
  destruct (shifted_value_testbit (endianness sd) (Z.ones (numberofbits sd))
              (numberofbits sd) (startbit sd) Hfit) as (m & Hm & Hr & Hbits).
  { rewrite Z.ones_equiv. pose proof (Z.pow_pos_nonneg 2 (numberofbits sd)). lia. }
  exists m. split; [exact Hm|]. split; [exact Hr|].
  intros p Hp. rewrite Hbits by exact Hp. apply testbit_ones. lia.
Qed.

(** *** Reading: [get_busvalue_from_bytes] *)

Lemma busvalue_testbit (e : endianness_t) (data : list byte) (n start : Z) :
  field_fits e start n ->
  field_minimum_dlc e start n <= Z.of_nat (length data) <= 8 ->
  exists v,
    get_busvalue_from_bytes data e n start = Ok v /\
    0 <= v < 2 ^ n /\
    forall j, 0 <= j ->
      Z.testbit v j = (j <? n) && Z.testbit (frame_integer data) (field_position e start j).
Proof.
  intros (Hs & Hn & Hfit) Hdlc. unfold get_busvalue_from_bytes.
  assert (forall x, 0 <= Z.land x (Z.ones n) < 2 ^ n) as Hrange.
  { intros x. rewrite Z.land_ones by lia. apply Z.mod_pos_bound.
    apply Z.pow_pos_nonneg; lia. }
  destruct e.
  - (* little endian *)
    unfold field_minimum_dlc in Hdlc.
    unfold BITS_PER_BYTE, MAX_NUMBER_OF_CAN_DATA_BYTES.
    pose proof (Z.div_mod start 8 ltac:(lia)) as Hdm.
    pose proof (Z.mod_pos_bound start 8 ltac:(lia)) as Hmod.
    pose proof (Z.div_mod (start + n - 1) 8 ltac:(lia)) as Hdm2.
    pose proof (Z.mod_pos_bound (start + n - 1) 8 ltac:(lia)) as Hmod2.
    set (bs := start / 8) in *. set (s0 := start mod 8) in *.
    set (be := (start + n - 1) / 8) in *.
    assert (0 <= bs) as Hbs0 by (apply Z.div_pos; lia).
    assert (bs <= be) as Hbsbe by (apply Z.div_le_mono; lia).
    assert ((bs <? 8) = true) as -> by (apply Z.ltb_lt; lia).
    assert ((be <? 8) = true) as -> by (apply Z.ltb_lt; lia).
    unfold assert. simpl_bind.
    destruct (copy_loop data (replicate 8 NULL_BYTE)
                (fun i => bs + i) (fun i => 8 - 1 - i) (Z.to_nat (be - bs + 1)))
      as (acc & Hfold & Hlen & Hin & Hout).
    { intros i Hi. lia. }
    { intros i Hi. rewrite length_replicate. lia. }
    { intros i j _ _ ?. lia. }
    rewrite Z2Nat.id in Hfold, Hin, Hout by lia.
    cbv beta in Hfold. change (Z.to_nat 8) with 8%nat. rewrite Hfold. simpl_bind.
    rewrite length_replicate in Hlen.
    rewrite can_bytes_to_int_Ok by lia. simpl_bind.
    rewrite ones_as_shift.
    eexists. split; [reflexivity|]. split; [apply Hrange|].
    intros j Hj. rewrite Z.land_spec, testbit_ones by lia.
    assert ((0 <=? j) = true) as -> by (apply Z.leb_le; lia).
    rewrite Z.shiftr_spec by lia. rewrite andb_comm. simpl andb.
    destruct (Z.ltb_spec j n) as [Hjn|Hjn]; [|reflexivity]. simpl.
    set (p := j + s0).
    assert (0 <= p < 64) as Hp by (unfold p; lia).
    pose proof (Z.div_mod p 8 ltac:(lia)) as Hdmp.
    pose proof (Z.mod_pos_bound p 8 ltac:(lia)) as Hmodp.
    pose proof (div8_bounds p Hp) as Hq.
    assert (p / 8 <= be - bs) as Hi.
    { assert (8 * bs + p <= start + n - 1) by (unfold p; lia).
      assert (bs + p / 8 <= be); [|lia].
      replace (bs + p / 8) with ((8 * bs + p) / 8).
      - apply Z.div_le_mono; lia.
      - symmetry. apply Z.div_unique with (r := p mod 8); lia. }
    rewrite frame_integer_testbit by lia.
    specialize (Hin (p / 8) ltac:(lia)). cbv beta in Hin.
    replace (8 - 1 - p / 8) with (7 - p / 8) in Hin by lia.
    rewrite Hin.
    unfold field_position.
    assert (0 <= backward_bitnumber (start + j) < 64) as Hbw.
    { pose proof (backward_bitnumber_range (start + j) ltac:(lia)). lia. }
    rewrite frame_integer_testbit by lia.
    rewrite backward_bitnumber_div, backward_bitnumber_mod.
    assert ((start + j) / 8 = bs + p / 8) as Hdiv.
    { symmetry. apply Z.div_unique with (r := p mod 8); unfold p in *; lia. }
    assert ((start + j) mod 8 = p mod 8) as Hm.
    { symmetry. apply Z.mod_unique with (q := bs + p / 8); unfold p in *; lia. }
    rewrite Hdiv, Hm.
    replace (7 - (7 - (bs + p / 8))) with (bs + p / 8) by lia. reflexivity.
  - (* big endian *)
    rewrite calculate_backward_bitnumber_Ok by lia. simpl_bind.
    rewrite can_bytes_to_int_Ok by lia. simpl_bind.
    rewrite ones_as_shift.
    pose proof (backward_bitnumber_range start Hs) as Hb.
    eexists. split; [reflexivity|]. split; [apply Hrange|].
    intros j Hj. rewrite Z.land_spec, testbit_ones by lia.
    assert ((0 <=? j) = true) as -> by (apply Z.leb_le; lia).
    rewrite Z.shiftr_spec by lia. rewrite andb_comm. simpl andb.
    unfold field_position. f_equal. f_equal. lia.
Qed.

Lemma field_position_index (e : endianness_t) (start p : Z) :
  field_position e start (field_index e start p) = p.
Proof.
  unfold field_index, field_position. destruct e.
  - replace (start + (backward_bitnumber p - start)) with (backward_bitnumber p) by lia.
    apply backward_bitnumber_involutive.
  - lia.
Qed.

Lemma lt_pow2_of_testbit (x n : Z) :
  0 <= x -> 0 <= n -> (forall p, n <= p -> Z.testbit x p = false) -> x < 2 ^ n.
Proof.
  intros Hx Hn Hbits.
  destruct (Z.eq_dec x 0) as [-> | Hnz]; [apply Z.pow_pos_nonneg; lia|].
  apply Z.log2_lt_pow2; [lia|].
  destruct (Z_lt_dec (Z.log2 x) n) as [?|Hge]; [assumption|].
  exfalso. pose proof (Z.bit_log2 x ltac:(lia)) as Hbit.
  rewrite Hbits in Hbit by lia. discriminate.
Qed.

Lemma testbit_high_of_lt_pow2 (x n p : Z) :
  0 <= x < 2 ^ n -> n <= p -> Z.testbit x p = false.
Proof. intros. apply (testbit_below_pow2 x n); assumption. Qed.

(** ** Writing a field into a frame *)

Lemma write_bus_value_testbit (f : CanFrame) (sd : CanSignalDefinition) (v : Z) :
  signal_layout_ok sd = true ->
  get_minimum_dlc sd <= Z.of_nat (length (frame_data f)) <= 8 ->
  0 <= v < 2 ^ numberofbits sd ->
  exists f',
    write_bus_value f sd v = Ok f' /\
    frame_id f' = frame_id f /\ frame_format f' = frame_format f /\
    length (frame_data f') = length (frame_data f) /\
    forall p, 0 <= p < 64 ->
      Z.testbit (frame_integer (frame_data f')) p =
        let i := field_index (endianness sd) (startbit sd) p in
        if (0 <=? i) && (i <? numberofbits sd)
        then Z.testbit v i
        else Z.testbit (frame_integer (frame_data f)) p.
Proof.
  intros Hok Hdlc Hv. pose proof Hok as Hok'.
  apply signal_layout_ok_fits in Hok' as (Hfit & _).
  pose proof Hfit as (Hs & Hn & _).
  rewrite get_minimum_dlc_field in Hdlc.
  unfold write_bus_value.
  destruct (shifted_value_testbit _ v _ _ Hfit Hv) as (B & HB & HBr & HBbits).
  destruct (signal_bitmask_testbit sd Hok) as (M & HM & HMr & HMbits).
  rewrite HB, HM. simpl_bind.
  rewrite can_bytes_to_int_Ok by lia. simpl_bind.
  set (D := frame_integer (frame_data f)).
  pose proof (frame_integer_range (frame_data f) ltac:(lia)) as HD. fold D in HD.
  set (D' := Z.lor (Z.land D (Z.lnot M)) B).
  assert (forall p, 0 <= p ->
            Z.testbit D' p = Z.testbit D p && negb (Z.testbit M p) || Z.testbit B p) as HD'bits.
  { intros p Hp. unfold D'. rewrite Z.lor_spec, Z.land_spec, Z.lnot_spec by lia. reflexivity. }
  assert (0 <= D' < 2 ^ 64) as HD'.
  { assert (0 <= D') as Hnn.
    { unfold D'. apply Z.lor_nonneg. split; [|lia]. apply Z.land_nonneg. left. lia. }
    split; [exact Hnn|]. apply lt_pow2_of_testbit; [exact Hnn | lia |].
    intros p Hp. rewrite HD'bits by lia.
    rewrite (testbit_high_of_lt_pow2 D 64), (testbit_high_of_lt_pow2 B 64) by lia.
    reflexivity. }
  rewrite int_to_can_bytes_Ok by lia. simpl_bind.
  rewrite Nat2Z.id.
  unfold set_frame_data, check_frame_data, MAX_NUMBER_OF_CAN_DATA_BYTES.
  assert (length (take (length (frame_data f)) (Z_to_be_bytes 8 D')) = length (frame_data f)) as Hlen.
  { rewrite length_take, length_Z_to_be_bytes. lia. }
  rewrite Hlen.
  assert ((Z.of_nat (length (frame_data f)) >? 8) = false) as ->.
  { rewrite Z.gtb_ltb. apply Z.ltb_ge. lia. }
  unfold raise_if. simpl_bind.
  eexists. split; [reflexivity|]. cbn [frame_id frame_format frame_data].
  split; [reflexivity|]. split; [reflexivity|]. split; [exact Hlen|].
  intros p Hp. cbv zeta.
  rewrite frame_integer_take_testbit by lia.
  rewrite HD'bits, HMbits, HBbits by lia.
  set (i := field_index (endianness sd) (startbit sd) p).
  destruct (Z.leb_spec (8 * (8 - Z.of_nat (length (frame_data f)))) p) as [Hin|Hpad].
  - simpl andb.
    destruct ((0 <=? i) && (i <? numberofbits sd)) eqn:Hi; simpl.
    + rewrite andb_false_r. reflexivity.
    + rewrite andb_true_r.
      assert (Z.testbit v i = false) as ->; [|apply orb_false_r].
      apply andb_false_iff in Hi as [Hi|Hi].
      * apply Z.testbit_neg_r. apply Z.leb_gt in Hi. exact Hi.
      * apply (testbit_below_pow2 v (numberofbits sd)); [exact Hv|].
        apply Z.ltb_ge in Hi. exact Hi.
  - simpl andb.
    destruct ((0 <=? i) && (i <? numberofbits sd)) eqn:Hi.
    + exfalso. apply andb_true_iff in Hi as [Hi1 Hi2].
      apply Z.leb_le in Hi1. apply Z.ltb_lt in Hi2.
      pose proof (field_position_in_dlc _ _ _ i Hfit ltac:(lia)) as Hpos.
      unfold i in Hpos. rewrite field_position_index in Hpos. lia.
    + symmetry. apply frame_integer_testbit_padding; lia.
Qed.

(** The checks that [bus_value_of_scaled] has passed. *)
Lemma bus_value_of_scaled_range (sd : CanSignalDefinition) (x : float) (v : Z) :
  bus_value_of_scaled sd x = Ok v -> 0 <= v <= 2 ^ numberofbits sd - 1.
Proof.
  unfold bus_value_of_scaled. intros H.
  apply bind_Ok in H as (bv & _ & H).
  apply bind_Ok in H as ([] & H1 & H).
  apply bind_Ok in H as ([] & H2 & H).
  injection H as <-.
  apply assert_Ok in H1. apply assert_Ok in H2.
  apply Z.leb_le in H1. apply Z.geb_le in H2. lia.
Qed.

Lemma length_pack_double_be (x : float) : length (pack_double_be x) = 8%nat.
Proof. apply length_Z_to_be_bytes. Qed.

Lemma length_pack_double_le (x : float) : length (pack_double_le x) = 8%nat.
Proof. unfold pack_double_le. rewrite length_rev. apply length_pack_double_be. Qed.

(** C5. Independence of signals: when [set_signalvalue] succeeds on a frame,
    the frame keeps its identifier, its format and its length, and every bit
    of the frame data outside the mask of the signal is unchanged, for all
    signal types and both byte orders. *)
Theorem set_signalvalue_keeps_other_bits
    (f f' : CanFrame) (sd : CanSignalDefinition) (value : option float) (mask : Z) :
  signal_layout_ok sd = true ->
  (length (frame_data f) <= 8)%nat ->
  set_signalvalue f sd value = Ok f' ->
  signal_bitmask sd = Ok mask ->
  frame_id f' = frame_id f /\ frame_format f' = frame_format f /\
  length (frame_data f') = length (frame_data f) /\
  forall p, 0 <= p < 64 -> Z.testbit mask p = false ->
    Z.testbit (frame_integer (frame_data f')) p =
    Z.testbit (frame_integer (frame_data f)) p.
Proof.
  intros Hok Hlen Hset Hmask.
  pose proof (signal_layout_ok_fits sd Hok) as (Hfit & Hsingle & Hdouble).
  destruct (signal_bitmask_testbit sd Hok) as (M & HM & HMr & HMbits).
  rewrite HM in Hmask. injection Hmask as <-.
  unfold set_signalvalue in Hset.
  apply bind_Ok in Hset as ([] & Hdlc & Hset).
  apply raise_if_Ok in Hdlc. rewrite Z.gtb_ltb in Hdlc. apply Z.ltb_ge in Hdlc.
  apply bind_Ok in Hset as (pv & _ & Hset).
  apply bind_Ok in Hset as (scaled & _ & Hset).
  assert (forall bv, bus_value_of_scaled sd scaled = Ok bv ->
            write_bus_value f sd bv = Ok f' ->
            frame_id f' = frame_id f /\ frame_format f' = frame_format f /\
            length (frame_data f') = length (frame_data f) /\
            forall p, 0 <= p < 64 -> Z.testbit M p = false ->
              Z.testbit (frame_integer (frame_data f')) p =
              Z.testbit (frame_integer (frame_data f)) p) as Hfield.
  { intros bv Hbv Hw. apply bus_value_of_scaled_range in Hbv.
    destruct (write_bus_value_testbit f sd bv Hok ltac:(lia) ltac:(lia))
      as (f2 & Hw2 & Hid & Hfmt & Hl & Hbits).
    rewrite Hw in Hw2. injection Hw2 as <-.
    split; [exact Hid|]. split; [exact Hfmt|]. split; [exact Hl|].
    intros p Hp HMp. rewrite Hbits by exact Hp. cbv zeta.
    rewrite HMbits in HMp by exact Hp. rewrite HMp. reflexivity. }
  destruct (signaltype sd) eqn:Hty.
  - apply bind_Ok in Hset as (bv & Hbv & Hw). eauto.
  - apply bind_Ok in Hset as (bv & Hbv & Hw). eauto.
  - apply bind_Ok in Hset as (bv & Hbv & Hw). eauto.
  - (* a double takes the whole frame *)
    specialize (Hdouble eq_refl).
    assert (length (frame_data f) = 8%nat) as Hl8.
    { rewrite get_minimum_dlc_field in Hdlc. unfold field_minimum_dlc in Hdlc.
      destruct Hfit as (Hs & Hn & Hfit). rewrite Hdouble in *.
      destruct (endianness sd).
      - assert (startbit sd = 0) as Hs0 by lia. rewrite Hs0 in Hdlc.
        change ((0 + 64 - 1) / 8) with 7 in Hdlc. lia.
      - pose proof (backward_bitnumber_range (startbit sd) Hs) as Hb.
        assert (backward_bitnumber (startbit sd) = 0) as Hb0 by lia.
        unfold backward_bitnumber in Hb0.
        pose proof (Z.mod_pos_bound (startbit sd) 8 ltac:(lia)).
        pose proof (div8_bounds (startbit sd) ltac:(lia)). lia. }
    assert (forall d, length d = 8%nat -> set_frame_data f d = Ok f' ->
              frame_id f' = frame_id f /\ frame_format f' = frame_format f /\
              length (frame_data f') = length (frame_data f)) as Hsetd.
    { intros d Hd Hs. unfold set_frame_data, check_frame_data in Hs.
      apply bind_Ok in Hs as ([] & _ & Hs). injection Hs as <-. simpl.
      rewrite Hd, Hl8. repeat split. }
    assert (frame_id f' = frame_id f /\ frame_format f' = frame_format f /\
            length (frame_data f') = length (frame_data f)) as (Hid & Hfmt & Hl).
    { destruct (endianness sd).
      - apply (Hsetd _ (length_pack_double_le scaled) Hset).
      - apply (Hsetd _ (length_pack_double_be scaled) Hset). }
    split; [exact Hid|]. split; [exact Hfmt|]. split; [exact Hl|].
    intros p Hp HMp. exfalso.
    rewrite HMbits in HMp by exact Hp. rewrite Hdouble in HMp.
    destruct Hfit as (Hs & Hn & Hfit). rewrite Hdouble in Hfit.
    unfold field_index in HMp.
    pose proof (backward_bitnumber_range p ltac:(lia)) as Hbp.
    pose proof (backward_bitnumber_range (startbit sd) Hs) as Hbs.
    destruct (endianness sd);
      apply andb_false_iff in HMp as [HMp|HMp];
      [apply Z.leb_gt in HMp | apply Z.ltb_ge in HMp
      |apply Z.leb_gt in HMp | apply Z.ltb_ge in HMp]; lia.
Qed.

Lemma set_signalvalue_keeps_other_bits_witness :
  exists f',
    set_signalvalue testframe1 testsignal2 (Some (float_lit 5)) = Ok f' /\
    frame_id f' = frame_id testframe1 /\ frame_format f' = frame_format testframe1 /\
    length (frame_data f') = length (frame_data testframe1) /\
    forall p, 0 <= p < 64 -> Z.testbit 0xffff000000000000 p = false ->
      Z.testbit (frame_integer (frame_data f')) p =
      Z.testbit (frame_integer (frame_data testframe1)) p.
Proof.
  exists {| frame_id := 1;
            frame_data := [x00; x05; x00; x08; x00; x00; x00; xff];
            frame_format := CAN_FRAMEFORMAT_STANDARD |}.
  assert (set_signalvalue testframe1 testsignal2 (Some (float_lit 5)) =
            Ok {| frame_id := 1;
                  frame_data := [x00; x05; x00; x08; x00; x00; x00; xff];
                  frame_format := CAN_FRAMEFORMAT_STANDARD |}) as Hset
    by (vm_compute; reflexivity).
  split; [exact Hset|].
  apply (set_signalvalue_keeps_other_bits testframe1 _ testsignal2 (Some (float_lit 5))).
  - reflexivity.
  - simpl. lia.
  - exact Hset.
  - vm_compute. reflexivity.
Defined.

(** ** The signal mask of a frame definition *)

Lemma _get_overview_string_layout (sd : CanSignalDefinition) :
  _get_overview_string sd =
  _get_overview_string (layout_signal (endianness sd) (startbit sd) (numberofbits sd)).
Proof. destruct sd. reflexivity. Qed.

Lemma signal_bitmask_layout (sd : CanSignalDefinition) :
  signal_bitmask sd =
  signal_bitmask (layout_signal (endianness sd) (startbit sd) (numberofbits sd)).
Proof. destruct sd. reflexivity. Qed.

Lemma overview_agrees_with_mask_all :
  forallb (fun e =>
    forallb (fun start =>
      forallb (fun n => overview_agrees_with_mask e start n) (seqZ 1 64))
      (seqZ 0 64))
    [LITTLE_ENDIAN; BIG_ENDIAN] = true.
Proof. vm_compute. reflexivity. Qed.

Lemma forallb_seqZ (f : Z -> bool) (m n : Z) :
  forallb f (seqZ m n) = true -> forall x, m <= x < m + n -> f x = true.
Proof.
  intros H x Hx. rewrite forallb_forall in H. apply H.
  apply list_elem_of_In, elem_of_seqZ. exact Hx.
Qed.

Lemma overview_agrees_with_mask_true (e : endianness_t) (start n : Z) :
  0 <= start <= 63 -> 1 <= n <= 64 -> overview_agrees_with_mask e start n = true.
Proof.
  intros Hs Hn. pose proof overview_agrees_with_mask_all as Hall.
  cbn [forallb] in Hall.
  apply andb_true_iff in Hall as [Hle Hbe].
  apply andb_true_iff in Hbe as [Hbe _].
  destruct e.
  - apply (forallb_seqZ _ 1 64); [|lia].
    apply (forallb_seqZ (fun start => forallb _ _) 0 64 Hle). lia.
  - apply (forallb_seqZ _ 1 64); [|lia].
    apply (forallb_seqZ (fun start => forallb _ _) 0 64 Hbe). lia.
Qed.

Lemma overview_string_mask (sd : CanSignalDefinition) :
  signal_layout_ok sd = true ->
  exists overviewstring stopbit m,
    _get_overview_string sd = Ok (overviewstring, stopbit) /\
    signal_bitmask sd = Ok m /\
    mask_of_overview overviewstring 0 = m.
Proof.
  intros Hok. apply signal_layout_ok_fits in Hok as ((Hs & Hn & Hfit) & _).
  rewrite _get_overview_string_layout, signal_bitmask_layout.
  pose proof (overview_agrees_with_mask_true (endianness sd) _ _ Hs Hn) as Hall.
  unfold overview_agrees_with_mask in Hall.
  assert ((match endianness sd with
           | LITTLE_ENDIAN => 64 <? startbit sd + numberofbits sd
           | BIG_ENDIAN => 64 <? backward_bitnumber (startbit sd) + numberofbits sd
           end) = false) as Hin.
  { destruct (endianness sd); apply Z.ltb_ge; lia. }
  rewrite Hin in Hall. simpl orb in Hall.
  destruct (_get_overview_string _) as [[ov stop]|]; [|discriminate Hall].
  destruct (signal_bitmask _) as [m|]; [|discriminate Hall].
  exists ov, stop, m. split; [reflexivity|]. split; [reflexivity|].
  apply andb_true_iff in Hall as [_ Heq]. apply Z.eqb_eq in Heq. exact Heq.
Qed.

Lemma mask_of_overview_acc (overviewstring : list ascii) (acc : Z) :
  mask_of_overview overviewstring acc = Z.lor acc (mask_of_overview overviewstring 0).
Proof.
  unfold mask_of_overview.
  generalize (enumerate overviewstring) as l. intros l. revert acc.
  induction l as [|[pos char] l IH]; intros acc; simpl.
  - rewrite Z.lor_0_r. reflexivity.
  - rewrite IH. rewrite (IH (if negb _ then _ else 0)).
    destruct (negb (Ascii.eqb char " ")).
    + rewrite Z.lor_assoc. reflexivity.
    + rewrite Z.lor_0_l. reflexivity.
Qed.

Lemma get_signal_mask_fold (l : list CanSignalDefinition) (acc : Z) :
  Forall (fun sd => signal_layout_ok sd = true) l ->
  0 <= acc < 2 ^ 64 ->
  exists out,
    foldM (fun output_int signaldef =>
             '(overviewstring, _) ← _get_overview_string signaldef;
             Ok (mask_of_overview overviewstring output_int)) l acc = Ok out /\
    0 <= out < 2 ^ 64 /\
    forall p, Z.testbit out p = Z.testbit acc p || existsb (fun sd => signal_occupies sd p) l.
Proof.
  intros Hall. revert acc. induction Hall as [|sd l Hsd Hl IH]; intros acc Hacc.
  - exists acc. simpl. split; [reflexivity|]. split; [exact Hacc|].
    intros p. rewrite orb_false_r. reflexivity.
  - destruct (overview_string_mask sd Hsd) as (ov & stop & m & Hov & Hm & Hmask).
    destruct (signal_bitmask_testbit sd Hsd) as (m' & Hm' & Hmr & _).
    rewrite Hm in Hm'. injection Hm' as <-.
    cbn [foldM]. rewrite Hov. simpl_bind.
    rewrite mask_of_overview_acc, Hmask.
    destruct (IH (Z.lor acc m)) as (out & Hfold & Hout & Hbits).
    { split; [apply Z.lor_nonneg; lia|].
      apply lt_pow2_of_testbit; [apply Z.lor_nonneg; lia | lia |].
      intros p Hp. rewrite Z.lor_spec.
      rewrite (testbit_high_of_lt_pow2 acc 64), (testbit_high_of_lt_pow2 m 64) by lia.
      reflexivity. }
    exists out. split; [exact Hfold|]. split; [exact Hout|].
    intros p. rewrite Hbits, Z.lor_spec. cbn [existsb].
    unfold signal_occupies at 2. rewrite Hm. rewrite orb_assoc. reflexivity.
Qed.

(** C4. Signal mask: for the frame definition of the change-detection
    scenario, [get_signal_mask] is FF FF 00 FF FF 00 FF 01; and for every
    frame definition whose signals have a valid layout, it returns eight
    bytes in which a bit is set if and only if some signal of the frame
    occupies that bit, that is, has it in the mask that [set_signalvalue]
    uses. *)
Theorem get_signal_mask_spec :
  get_signal_mask testframedef4 = Ok [xff; xff; x00; xff; xff; x00; xff; x01] /\
  forall fd : CanFrameDefinition,
    Forall (fun sd => signal_layout_ok sd = true) (signaldefinitions fd) ->
    exists mask,
      get_signal_mask fd = Ok mask /\ length mask = 8%nat /\
      forall p, 0 <= p < 64 ->
        Z.testbit (frame_integer mask) p = true <->
        exists sd m, sd ∈ signaldefinitions fd /\
                     signal_bitmask sd = Ok m /\ Z.testbit m p = true.
Proof.
  split; [vm_compute; reflexivity|].
  intros fd Hall. unfold get_signal_mask.
  destruct (get_signal_mask_fold (signaldefinitions fd) 0 Hall ltac:(lia))
    as (out & Hfold & Hout & Hbits).
  rewrite Hfold. simpl_bind.
  rewrite int_to_can_bytes_Ok by (unfold MAX_NUMBER_OF_CAN_DATA_BYTES; lia).
  unfold MAX_NUMBER_OF_CAN_DATA_BYTES. change (Z.to_nat 8) with 8%nat.
  eexists. split; [reflexivity|].
  split; [rewrite length_take, length_Z_to_be_bytes; reflexivity|].
  intros p Hp. rewrite frame_integer_take_testbit by lia.
  assert ((8 * (8 - Z.of_nat 8) <=? p) = true) as -> by (apply Z.leb_le; lia).
  simpl andb. rewrite Hbits, Z.bits_0. simpl orb.
  rewrite existsb_exists. split.
  - intros (sd & Hin & Hocc). unfold signal_occupies in Hocc.
    destruct (signal_bitmask sd) as [m|] eqn:Hm; [|discriminate Hocc].
    exists sd, m. split; [apply list_elem_of_In; exact Hin|]. split; [exact Hm | exact Hocc].
  - intros (sd & m & Hin & Hm & Hbit). exists sd.
    split; [apply list_elem_of_In; exact Hin|].
    unfold signal_occupies. rewrite Hm. exact Hbit.
Qed.

Lemma get_signal_mask_spec_witness :
  exists mask,
    get_signal_mask testframedef4 = Ok mask /\ length mask = 8%nat /\
    forall p, 0 <= p < 64 ->
      Z.testbit (frame_integer mask) p = true <->
      exists sd m, sd ∈ signaldefinitions testframedef4 /\
                   signal_bitmask sd = Ok m /\ Z.testbit m p = true.
Proof.
  apply (proj2 get_signal_mask_spec testframedef4).
  repeat constructor.
Defined.

(** ** Binary64 arithmetic on integers *)

Lemma digits2_pos_bounds (m : positive) :
  2 ^ (Zpos (digits2_pos m) - 1) <= Zpos m < 2 ^ Zpos (digits2_pos m).
Proof.
  induction m as [m IH|m IH|]; cbn [digits2_pos].
  - rewrite Pos2Z.inj_succ. unfold Z.succ.
    replace (Zpos (digits2_pos m) + 1 - 1) with (Z.succ (Zpos (digits2_pos m) - 1)) by lia.
    rewrite !Z.pow_succ_r by lia. rewrite Z.add_1_r, Z.pow_succ_r by lia. lia.
  - rewrite Pos2Z.inj_succ. unfold Z.succ.
    replace (Zpos (digits2_pos m) + 1 - 1) with (Z.succ (Zpos (digits2_pos m) - 1)) by lia.
    rewrite !Z.pow_succ_r by lia. rewrite Z.add_1_r, Z.pow_succ_r by lia. lia.
  - simpl. lia.
Qed.

Lemma digits2_pos_le (m : positive) (n : Z) :
  Zpos m < 2 ^ n -> Zpos (digits2_pos m) <= n.
Proof.
  intros H. pose proof (digits2_pos_bounds m) as [Hlo _].
  destruct (Z_le_dec (Zpos (digits2_pos m)) n) as [?|Hgt]; [assumption|].
  exfalso. assert (2 ^ n <= 2 ^ (Zpos (digits2_pos m) - 1)).
  { apply Z.pow_le_mono_r; lia. }
  lia.
Qed.

Lemma digits2_pos_mono (a b : positive) :
  (a <= b)%positive -> (digits2_pos a <= digits2_pos b)%positive.
Proof.
  intros Hab. pose proof (digits2_pos_bounds a) as [Hlo _].
  pose proof (digits2_pos_bounds b) as [_ Hhi].
  assert (Zpos (digits2_pos a) <= Zpos (digits2_pos b)); [|lia].
  apply digits2_pos_le. lia.
Qed.

Lemma iter_xO_value (m : positive) (n : positive) :
  Zpos (Pos.iter xO m n) = Zpos m * 2 ^ Zpos n.
Proof.
  induction n as [|n IH] using Pos.peano_ind.
  - simpl. lia.
  - rewrite Pos.iter_succ, Pos2Z.inj_xO, IH, Pos2Z.inj_succ, Z.pow_succ_r by lia. lia.
Qed.

Lemma iter_xO_digits (m : positive) (n : positive) :
  Zpos (digits2_pos (Pos.iter xO m n)) = Zpos (digits2_pos m) + Zpos n.
Proof.
  induction n as [|n IH] using Pos.peano_ind.
  - simpl. lia.
  - rewrite Pos.iter_succ. cbn [digits2_pos]. lia.
Qed.

(** A canonical mantissa is not rounded. *)
Lemma binary_round_aux_canonical (s : bool) (m : positive) (e : Z) :
  canonical_mantissa prec64 emax64 m e = true -> e <= emax64 - prec64 ->
  binary_round_aux prec64 emax64 s (Zpos m) e loc_Exact = S754_finite s m e.
Proof.
  unfold canonical_mantissa. intros Hc He. apply Z.eqb_eq in Hc.
  unfold binary_round_aux, shr_fexp. cbn [Zdigits2 shr_record_of_loc].
  rewrite Hc, Z.sub_diag. cbn [shr shr_m loc_of_shr_record round_nearest_even].
  cbn [Zdigits2]. rewrite Hc, Z.sub_diag. cbn [shr shr_m].
  apply Z.leb_le in He. rewrite He. reflexivity.
Qed.

Lemma shift_to_53_spec (m : positive) :
  Zpos m < 2 ^ 53 ->
  Zpos (fst (shift_to_53 m)) = Zpos m * 2 ^ (- snd (shift_to_53 m)) /\
  - 52 <= snd (shift_to_53 m) <= 0 /\
  snd (shift_to_53 m) = Zpos (digits2_pos m) - 53 /\
  Zpos (digits2_pos (fst (shift_to_53 m))) = 53.
Proof.
  intros Hm. unfold shift_to_53, shl_align.
  pose proof (digits2_pos_le m 53 Hm) as Hd.
  assert (1 <= Zpos (digits2_pos m)) as Hd1 by lia.
  rewrite Z.sub_0_r.
  destruct (Zpos (digits2_pos m) - 53) as [|n|n] eqn:Hn.
  - cbn [fst snd]. change (2 ^ (- 0)) with 1. repeat split; lia.
  - lia.
  - cbn [fst snd]. rewrite iter_xO_value, iter_xO_digits.
    replace (- Zneg n) with (Zpos n) by lia.
    repeat split; lia.
Qed.

Lemma float_lit_pos (s : bool) (m : positive) :
  Zpos m < 2 ^ 53 ->
  binary_round prec64 emax64 s m 0 =
    S754_finite s (fst (shift_to_53 m)) (snd (shift_to_53 m)).
Proof.
  intros Hm. pose proof (shift_to_53_spec m Hm) as (_ & He & Heq & Hdig).
  unfold binary_round.
  pose proof (digits2_pos_le m 53 Hm) as Hd.
  assert (fexp prec64 emax64 (Zpos (digits2_pos m) + 0) = Zpos (digits2_pos m) - 53) as ->.
  { unfold fexp, emin, prec64, emax64. lia. }
  fold (shift_to_53 m).
  destruct (shift_to_53 m) as [mz ez]. cbn [fst snd] in *.
  apply binary_round_aux_canonical.
  - unfold canonical_mantissa, fexp, emin, prec64, emax64. apply Z.eqb_eq. lia.
  - unfold prec64, emax64. lia.
Qed.

Lemma float_lit_small (k : Z) :
  k <> 0 -> Z.abs k < 2 ^ 53 ->
  float_lit k =
    S754_finite (k <? 0) (fst (shift_to_53 (Z.to_pos (Z.abs k))))
                (snd (shift_to_53 (Z.to_pos (Z.abs k)))).
Proof.
  intros Hnz Hk. unfold float_lit, binary_normalize.
  destruct k as [|m|m]; [congruence | |]; simpl Z.abs in *; simpl Z.to_pos.
  - apply float_lit_pos. exact Hk.
  - apply float_lit_pos. exact Hk.
Qed.

Lemma float_lit_zero : float_lit 0 = S754_zero false.
Proof. reflexivity. Qed.

Lemma float_of_int_small (k : Z) :
  Z.abs k < 2 ^ 53 -> float_of_int k = Ok (float_lit k).
Proof.
  intros Hk. unfold float_of_int. fold (float_lit k).
  destruct (Z.eq_dec k 0) as [-> | Hnz]; [reflexivity|].
  rewrite float_lit_small by assumption. reflexivity.
Qed.

(** [int(float(k)) = k] *)
Lemma int_of_float_lit (k : Z) :
  Z.abs k < 2 ^ 53 -> int_of_float (float_lit k) = Ok k.
Proof.
  intros Hk. destruct (Z.eq_dec k 0) as [-> | Hnz]; [reflexivity|].
  rewrite float_lit_small by assumption.
  assert (Zpos (Z.to_pos (Z.abs k)) = Z.abs k) as Hpos by lia.
  pose proof (shift_to_53_spec (Z.to_pos (Z.abs k)) ltac:(lia)) as Hspec.
  destruct (shift_to_53 (Z.to_pos (Z.abs k))) as [mz ez].
  cbn [fst snd] in Hspec.
  destruct Hspec as (Hval & He & _ & _). cbn [fst snd int_of_float].
  rewrite Hval, Hpos.
  assert ((if 0 <=? ez then (Z.abs k * 2 ^ (- ez)) * 2 ^ ez
           else (Z.abs k * 2 ^ (- ez)) / 2 ^ (- ez)) = Z.abs k) as ->.
  { destruct (Z.leb_spec 0 ez).
    - assert (ez = 0) as -> by lia. simpl. lia.
    - apply Z.div_mul. apply Z.pow_nonzero; lia. }
  destruct (Z.ltb_spec k 0); f_equal; lia.
Qed.

Lemma float_lit_one : float_lit 1 = S754_finite false 4503599627370496 (-52).
Proof. reflexivity. Qed.

Lemma canonical_mantissa_cases (m : positive) (e : Z) :
  canonical_mantissa prec64 emax64 m e = true ->
  (Zpos (digits2_pos m) = 53 /\ -1074 <= e) \/
  (Zpos (digits2_pos m) < 53 /\ e = -1074).
Proof.
  unfold canonical_mantissa, fexp, emin, prec64, emax64. intros H.
  apply Z.eqb_eq in H. lia.
Qed.

(** [x * 1.0 = x] *)
Lemma float_mul_one (s : bool) (m : positive) (e : Z) :
  canonical_mantissa prec64 emax64 m e = true -> e <= 971 ->
  float_mul (S754_finite s m e) (float_lit 1) = S754_finite s m e.
Proof.
  intros Hc He. rewrite float_lit_one. unfold float_mul, SFmul.
  rewrite xorb_false_r.
  rewrite (Pos.mul_comm m). 
  unfold binary_round_aux, shr_fexp. cbn [Zdigits2 shr_record_of_loc].
  change (Zpos (digits2_pos (4503599627370496 * m)))
    with (Zpos (Pos.iter Pos.succ (digits2_pos m) 52)).
  assert (Zpos (Pos.iter Pos.succ (digits2_pos m) 52) = Zpos (digits2_pos m) + 52) as ->.
  { cbn [Pos.iter]. lia. }
  pose proof Hc as Hc'. unfold canonical_mantissa in Hc'. apply Z.eqb_eq in Hc'.
  replace (Zpos (digits2_pos m) + 52 + (e + -52)) with (Zpos (digits2_pos m) + e) by lia.
  rewrite Hc'. replace (e - (e + -52)) with 52 by lia.
  cbn [shr]. replace (e + -52 + 52) with e by lia.
  change (SpecFloat.iter_pos shr_1 52
            {| shr_m := Zpos (4503599627370496 * m); shr_r := false; shr_s := false |})
    with {| shr_m := Zpos m; shr_r := false; shr_s := false |}.
  cbn [shr_m loc_of_shr_record round_nearest_even Zdigits2].
  rewrite Hc', Z.sub_diag. cbn [shr shr_m].
  assert ((e <=? emax64 - prec64) = true) as ->; [|reflexivity].
  apply Z.leb_le. unfold emax64, prec64. lia.
Qed.

Lemma div_eucl_exact (a b q : Z) :
  0 < b -> a = b * q -> Z.div_eucl a b = (q, 0).
Proof.
  intros Hb Ha. pose proof (Z_div_mod a b ltac:(lia)) as H.
  destruct (Z.div_eucl a b) as [q' r']. destruct H as [H1 H2].
  assert (q' = q) as -> by nia.
  f_equal. lia.
Qed.

(** [x / 1.0 = x] *)
Lemma float_div_one (s : bool) (m : positive) (e : Z) :
  canonical_mantissa prec64 emax64 m e = true -> e <= 971 ->
  float_truediv (S754_finite s m e) (float_lit 1) = Ok (S754_finite s m e).
Proof.
  intros Hc He. rewrite float_lit_one. unfold float_truediv. cbn [float_is_zero].
  f_equal. unfold SFdiv. rewrite xorb_false_r.
  pose proof (binary_round_aux_canonical s m e Hc ltac:(unfold emax64, prec64; lia)) as Hround.
  destruct (canonical_mantissa_cases m e Hc) as [[Hd Hemin]|[Hd Hemin]].
  - destruct (Z.eq_dec e (-1074)) as [-> | Hne].
    + (* the smallest binade *)
      unfold SFdiv_core_binary. cbn [Zdigits2]. rewrite Hd.
      change (Zpos (digits2_pos 4503599627370496)) with 53.
      change (Z.min (fexp prec64 emax64 (53 + -1074 - (53 + -52))) (-1074 - -52)) with (-1074).
      change (-1074 - -52 - -1074) with 52. cbv iota.
      rewrite (div_eucl_exact _ _ (Zpos m)); [exact Hround | lia |].
      rewrite Z.shiftl_mul_pow2 by lia. lia.
    + unfold SFdiv_core_binary. cbn [Zdigits2]. rewrite Hd.
      change (Zpos (digits2_pos 4503599627370496)) with 53.
      assert (Z.min (fexp prec64 emax64 (53 + e - (53 + -52))) (e - -52) = e - 1) as ->.
      { unfold fexp, emin, prec64, emax64. lia. }
      replace (e - -52 - (e - 1)) with 53 by lia. cbv iota.
      rewrite (div_eucl_exact _ _ (Zpos m~0)); [| lia |].
      2:{ rewrite Z.shiftl_mul_pow2 by lia. lia. }
      change (new_location 4503599627370496 0) with loc_Exact.
      unfold binary_round_aux, shr_fexp. cbn [Zdigits2 digits2_pos shr_record_of_loc].
      rewrite Pos2Z.inj_succ, Hd.
      assert (fexp prec64 emax64 (Z.succ 53 + (e - 1)) - (e - 1) = 1) as ->.
      { unfold fexp, emin, prec64, emax64. lia. }
      cbn [shr SpecFloat.iter_pos shr_1 orb].
      cbn [shr_m loc_of_shr_record round_nearest_even Zdigits2].
      replace (e - 1 + 1) with e by lia. rewrite Hd.
      assert (fexp prec64 emax64 (53 + e) - e = 0) as ->.
      { unfold fexp, emin, prec64, emax64. lia. }
      cbn [shr shr_m].
      assert ((e <=? emax64 - prec64) = true) as ->; [|reflexivity].
      apply Z.leb_le. unfold emax64, prec64. lia.
  - (* subnormal *)
    subst e. unfold SFdiv_core_binary. cbn [Zdigits2].
    change (Zpos (digits2_pos 4503599627370496)) with 53.
    assert (Z.min (fexp prec64 emax64 (Zpos (digits2_pos m) + -1074 - (53 + -52)))
                  (-1074 - -52) = -1074) as ->.
    { unfold fexp, emin, prec64, emax64. lia. }
    change (-1074 - -52 - -1074) with 52. cbv iota.
    rewrite (div_eucl_exact _ _ (Zpos m)); [exact Hround | lia |].
    rewrite Z.shiftl_mul_pow2 by lia. lia.
Qed.

(** *** Order *)

Lemma shift_to_53_compare (pa pb : positive) :
  Zpos pa < 2 ^ 53 -> Zpos pb < 2 ^ 53 ->
  match snd (shift_to_53 pa) ?= snd (shift_to_53 pb) with
  | Lt => Lt
  | Gt => Gt
  | Eq => Pos.compare_cont Eq (fst (shift_to_53 pa)) (fst (shift_to_53 pb))
  end = (Zpos pa ?= Zpos pb).
Proof.
  intros Ha Hb.
  pose proof (shift_to_53_spec pa Ha) as (Hva & Hea & Heqa & _).
  pose proof (shift_to_53_spec pb Hb) as (Hvb & Heb & Heqb & _).
  pose proof (digits2_pos_bounds pa) as [Hla Hua].
  pose proof (digits2_pos_bounds pb) as [Hlb Hub].
  destruct (shift_to_53 pa) as [ma ea]. destruct (shift_to_53 pb) as [mb eb].
  cbn [fst snd] in *. symmetry.
  destruct (Z.compare_spec ea eb) as [Heq|Hlt|Hgt].
  - change (Pos.compare_cont Eq ma mb) with (Zpos ma ?= Zpos mb).
    rewrite Hva, Hvb, Heq.
    assert (0 < 2 ^ (- eb)) as Hpow by (apply Z.pow_pos_nonneg; lia).
    destruct (Z.compare_spec (Zpos pa) (Zpos pb)) as [H|H|H].
    + rewrite H. symmetry. apply Z.compare_refl.
    + symmetry. apply Z.compare_lt_iff. nia.
    + symmetry. apply Z.compare_gt_iff. nia.
  - apply Z.compare_lt_iff.
    assert (2 ^ Zpos (digits2_pos pa) <= 2 ^ (Zpos (digits2_pos pb) - 1)).
    { apply Z.pow_le_mono_r; lia. }
    lia.
  - apply Z.compare_gt_iff.
    assert (2 ^ Zpos (digits2_pos pb) <= 2 ^ (Zpos (digits2_pos pa) - 1)).
    { apply Z.pow_le_mono_r; lia. }
    lia.
Qed.

Lemma float_compare_lit (a b : Z) :
  Z.abs a < 2 ^ 53 -> Z.abs b < 2 ^ 53 ->
  SFcompare (float_lit a) (float_lit b) = Some (a ?= b).
Proof.
  intros Ha Hb.
  destruct (Z.eq_dec a 0) as [-> | Ha0]; destruct (Z.eq_dec b 0) as [-> | Hb0].
  - reflexivity.
  - rewrite float_lit_zero, (float_lit_small b) by assumption. cbn [SFcompare].
    destruct b; [congruence | reflexivity | reflexivity].
  - rewrite float_lit_zero, (float_lit_small a) by assumption. cbn [SFcompare].
    destruct a; [congruence | reflexivity | reflexivity].
  - rewrite (float_lit_small a), (float_lit_small b) by assumption. cbn [SFcompare].
    destruct a as [|pa|pa]; [congruence | |]; destruct b as [|pb|pb]; try congruence;
      cbn [Z.ltb Z.compare Z.abs Z.to_pos] in *; try reflexivity.
    + f_equal. apply shift_to_53_compare; assumption.
    + f_equal. change (pa ?= pb)%positive with (Zpos pa ?= Zpos pb).
      rewrite <- (shift_to_53_compare pa pb) by assumption.
      change (Z.to_pos (Z.abs (Zneg pa))) with pa.
      change (Z.to_pos (Z.abs (Zneg pb))) with pb.
      destruct (snd (shift_to_53 pa) ?= snd (shift_to_53 pb)); reflexivity.
Qed.

Lemma float_lt_lit (a b : Z) :
  Z.abs a < 2 ^ 53 -> Z.abs b < 2 ^ 53 ->
  float_lt (float_lit a) (float_lit b) = (a <? b).
Proof.
  intros Ha Hb. unfold float_lt, SFltb. rewrite float_compare_lit by assumption.
  unfold Z.ltb. destruct (a ?= b); reflexivity.
Qed.

Lemma float_le_lit (a b : Z) :
  Z.abs a < 2 ^ 53 -> Z.abs b < 2 ^ 53 ->
  float_le (float_lit a) (float_lit b) = (a <=? b).
Proof.
  intros Ha Hb. unfold float_le, SFleb. rewrite float_compare_lit by assumption.
  unfold Z.leb. destruct (a ?= b); reflexivity.
Qed.

(** *** Conversions of wide integers do not overflow *)

Lemma shr_1_bounds (r : shr_record) :
  0 <= shr_m r -> 0 <= shr_m (shr_1 r) <= shr_m r.
Proof.
  destruct r as [m r s]. cbn [shr_m]. intros Hm.
  destruct m as [|[p|p|]|p]; cbn [shr_1 shr_m]; lia.
Qed.

Lemma iter_shr_1_bounds (p : positive) (r : shr_record) :
  0 <= shr_m r -> 0 <= shr_m (SpecFloat.iter_pos shr_1 p r) <= shr_m r.
Proof.
  revert r. induction p as [p IH|p IH|]; intros r Hr; cbn [SpecFloat.iter_pos].
  - pose proof (shr_1_bounds r Hr) as H1.
    pose proof (IH (shr_1 r) ltac:(lia)) as H2.
    pose proof (IH _ (proj1 H2)) as H3. lia.
  - pose proof (IH r Hr) as H2.
    pose proof (IH _ (proj1 H2)) as H3. lia.
  - apply shr_1_bounds. exact Hr.
Qed.

Lemma shr_m_record_of_loc (m : Z) (l : location) : shr_m (shr_record_of_loc m l) = m.
Proof. destruct l as [|[]]; reflexivity. Qed.

Lemma Zdigits2_le (m n : Z) : 0 <= m < 2 ^ n -> 0 <= n -> 0 <= Zdigits2 m <= n.
Proof.
  intros Hm Hn. destruct m as [|p|p]; cbn [Zdigits2]; [lia | | lia].
  split; [lia|]. apply digits2_pos_le. lia.
Qed.

Lemma shr_fexp_bounds (m e : Z) (l : location) (n : Z) :
  0 <= m < 2 ^ n -> 0 <= n ->
  0 <= shr_m (fst (shr_fexp prec64 emax64 m e l)) <= m /\
  snd (shr_fexp prec64 emax64 m e l) <= Z.max (Z.max e (n + e - 53)) (-1074).
Proof.
  intros Hm Hn. unfold shr_fexp, shr.
  pose proof (Zdigits2_le m n Hm Hn) as Hd.
  assert (fexp prec64 emax64 (Zdigits2 m + e) <= Z.max (n + e - 53) (-1074)) as Hf.
  { unfold fexp, emin, prec64, emax64. lia. }
  destruct (fexp prec64 emax64 (Zdigits2 m + e) - e) as [|p|p] eqn:Hp; cbn [fst snd].
  - rewrite shr_m_record_of_loc. lia.
  - pose proof (iter_shr_1_bounds p (shr_record_of_loc m l)) as Hb.
    rewrite shr_m_record_of_loc in Hb. specialize (Hb ltac:(lia)). lia.
  - rewrite shr_m_record_of_loc. lia.
Qed.

Lemma round_nearest_even_bounds (m : Z) (l : location) :
  m <= round_nearest_even m l <= m + 1.
Proof.
  destruct l as [|[]]; cbn [round_nearest_even]; try lia.
  destruct (Z.even m); lia.
Qed.

(** A float that is a number. *)
Lemma binary_round_aux_finite (s : bool) (m e : Z) (l : location) (n : Z) :
  0 <= m < 2 ^ n -> 0 <= n <= 200 -> e <= 200 ->
  float_is_finite (binary_round_aux prec64 emax64 s m e l) = true.
Proof.
  intros Hm Hn He. unfold binary_round_aux.
  pose proof (shr_fexp_bounds m e l n Hm ltac:(lia)) as [Hm1 He1].
  destruct (shr_fexp prec64 emax64 m e l) as [mrs' e']. cbn [fst snd] in *.
  pose proof (round_nearest_even_bounds (shr_m mrs') (loc_of_shr_record mrs')) as Hr.
  set (m2 := round_nearest_even (shr_m mrs') (loc_of_shr_record mrs')) in *.
  assert (0 <= m2 < 2 ^ (n + 1)) as Hm2.
  { rewrite Z.pow_add_r by lia. lia. }
  pose proof (shr_fexp_bounds m2 e' loc_Exact (n + 1) Hm2 ltac:(lia)) as [Hm3 He3].
  destruct (shr_fexp prec64 emax64 m2 e' loc_Exact) as [mrs'' e'']. cbn [fst snd] in *.
  destruct (shr_m mrs'') as [|p|p]; [reflexivity | | lia].
  assert ((e'' <=? emax64 - prec64) = true) as ->; [|reflexivity].
  apply Z.leb_le. unfold emax64, prec64. lia.
Qed.

Lemma float_of_int_Ok (k : Z) :
  Z.abs k < 2 ^ 64 ->
  exists x, float_of_int k = Ok x /\ float_is_finite x = true.
Proof.
  intros Hk. unfold float_of_int.
  assert (float_is_finite (binary_normalize prec64 emax64 k 0 false) = true) as Hfin.
  { unfold binary_normalize.
    assert (forall s p, Zpos p < 2 ^ 64 ->
              float_is_finite (binary_round prec64 emax64 s p 0) = true) as Hround.
    { intros s p Hp. unfold binary_round, shl_align.
      pose proof (digits2_pos_bounds p) as [Hlo Hhi].
      pose proof (digits2_pos_le p 64 Hp) as Hd.
      destruct (fexp prec64 emax64 (Zpos (digits2_pos p) + 0) - 0) as [|q|q] eqn:Hq.
      - apply (binary_round_aux_finite s (Zpos p) 0 loc_Exact 64); lia.
      - apply (binary_round_aux_finite s (Zpos p) 0 loc_Exact 64); lia.
      - assert (Zpos q <= 52) as Hq52.
        { unfold fexp, emin, prec64, emax64 in Hq. lia. }
        apply (binary_round_aux_finite s _ _ loc_Exact 128); try lia.
        rewrite iter_xO_value.
        assert (2 ^ Zpos q <= 2 ^ 52) by (apply Z.pow_le_mono_r; lia).
        assert (0 < 2 ^ Zpos q) by (apply Z.pow_pos_nonneg; lia).
        change (2 ^ 128) with (2 ^ 64 * 2 ^ 64). nia. }
    destruct k as [|p|p]; [reflexivity | |]; apply Hround; simpl Z.abs in Hk; lia. }
  destruct (binary_normalize prec64 emax64 k 0 false) as [s|s| |s m e] eqn:E;
    try discriminate Hfin; eexists; (split; [reflexivity|reflexivity]).
Qed.

(** ** Decoding *)

Lemma from_twos_complement_Ok (v n : Z) :
  1 <= n -> 0 <= v < 2 ^ n ->
  exists k, from_twos_complement v n = Ok k /\ - 2 ^ (n - 1) <= k < 2 ^ (n - 1) /\
            (k = v \/ k = v - 2 ^ n).
Proof.
  intros Hn Hv. unfold from_twos_complement.
  assert (2 ^ n = 2 * 2 ^ (n - 1)) as Hpow.
  { rewrite <- Z.pow_succ_r by lia. f_equal. lia. }
  assert ((v <? 0) = false) as -> by (apply Z.ltb_ge; lia).
  assert ((v >? 2 ^ n - 1) = false) as -> by (rewrite Z.gtb_ltb; apply Z.ltb_ge; lia).
  cbn [orb]. destruct (Z.leb_spec v (2 ^ (n - 1) - 1)).
  - exists v. split; [reflexivity|]. lia.
  - exists (v - 2 ^ n). split; [reflexivity|]. lia.
Qed.

Lemma double_takes_whole_frame (sd : CanSignalDefinition) :
  signal_layout_ok sd = true -> signaltype sd = CAN_SIGNALTYPE_DOUBLE ->
  get_minimum_dlc sd = 8.
Proof.
  intros Hok Hty. apply signal_layout_ok_fits in Hok as ((Hs & Hn & Hfit) & _ & Hd).
  specialize (Hd Hty). rewrite get_minimum_dlc_field. unfold field_minimum_dlc.
  rewrite Hd in *. destruct (endianness sd).
  - assert (startbit sd = 0) as -> by lia. reflexivity.
  - pose proof (backward_bitnumber_range (startbit sd) Hs) as Hb.
    unfold backward_bitnumber in *.
    pose proof (Z.mod_pos_bound (startbit sd) 8 ltac:(lia)).
    pose proof (div8_bounds (startbit sd) ltac:(lia)). lia.
Qed.

(** A signal with a valid layout that fits in the frame decodes. *)
Lemma get_signalvalue_Ok (f : CanFrame) (sd : CanSignalDefinition) :
  signal_layout_ok sd = true ->
  get_minimum_dlc sd <= Z.of_nat (length (frame_data f)) <= 8 ->
  exists v, get_signalvalue f sd = Ok v.
Proof.
  intros Hok Hdlc. pose proof (signal_layout_ok_fits sd Hok) as (Hfit & Hsingle & Hdouble).
  pose proof Hfit as (Hs & Hn & _).
  unfold get_signalvalue.
  assert (2 ^ numberofbits sd <= 2 ^ 64) as Hpow by (apply Z.pow_le_mono_r; lia).
  assert (0 < 2 ^ (numberofbits sd - 1)) as Hpow1 by (apply Z.pow_pos_nonneg; lia).
  assert (2 ^ (numberofbits sd - 1) < 2 ^ 64) as Hpow2 by (apply Z.pow_lt_mono_r; lia).
  destruct (busvalue_testbit (endianness sd) (frame_data f) (numberofbits sd) (startbit sd)
              Hfit ltac:(rewrite <- get_minimum_dlc_field; lia)) as (bus & Hbus & Hbr & _).
  destruct (signaltype sd) eqn:Hty.
  - rewrite Hbus. simpl_bind.
    destruct (float_of_int_Ok bus ltac:(lia)) as (x & -> & _). simpl_bind. eauto.
  - rewrite Hbus. simpl_bind.
    destruct (from_twos_complement_Ok bus (numberofbits sd) ltac:(lia) Hbr) as (k & -> & Hk & _).
    simpl_bind.
    destruct (float_of_int_Ok k ltac:(lia)) as (x & -> & _). simpl_bind. eauto.
  - rewrite Hbus. simpl_bind. rewrite (Hsingle eq_refl) in Hbr.
    rewrite (pack_uint_be_Ok 4) by (change (2 ^ (8 * Z.of_nat 4)) with (2 ^ 32); lia).
    simpl_bind. unfold unpack_single_be. rewrite length_Z_to_be_bytes.
    cbn [Nat.eqb negb]. simpl_bind. eauto.
  - pose proof (double_takes_whole_frame sd Hok Hty) as H8.
    assert (length (frame_data f) = 8%nat) as Hl by lia.
    destruct (endianness sd); unfold unpack_double_le, unpack_double_be;
      rewrite ?length_rev, Hl; cbn [Nat.eqb negb]; simpl_bind; eauto.
Qed.

(** The loop of [unpack]. *)
Lemma unpack_fold (f : CanFrame) (l : list CanSignalDefinition) (acc : gmap string float) :
  Forall (fun sd => exists v, get_signalvalue f sd = Ok v) l ->
  exists out,
    foldM (fun outputdict sigdef =>
             val ← get_signalvalue f sigdef;
             Ok (<[signalname sigdef := val]> outputdict)) l acc = Ok out /\
    (forall name, name ∉ map signalname l -> out !! name = acc !! name) /\
    (forall name v, out !! name = Some v ->
       acc !! name = Some v \/
       exists sd, sd ∈ l /\ signalname sd = name /\ get_signalvalue f sd = Ok v) /\
    (forall sd, sd ∈ l -> is_Some (out !! signalname sd)) /\
    (NoDup (map signalname l) ->
     (forall sd, sd ∈ l -> acc !! signalname sd = None) ->
     size out = (size acc + length l)%nat /\
     forall sd, sd ∈ l ->
       exists v, get_signalvalue f sd = Ok v /\ out !! signalname sd = Some v).
Proof.
  intros Hall. revert acc. induction Hall as [|sd l [v Hv] Hl IH]; intros acc.
  - exists acc. cbn [foldM]. split; [reflexivity|]. split; [reflexivity|].
    split; [intros name v Hv; left; exact Hv|].
    split; [intros sd Hsd; inversion Hsd|].
    intros _ _. split; [cbn [length]; lia | intros sd Hsd; inversion Hsd].
  - cbn [foldM]. rewrite Hv. simpl_bind.
    destruct (IH (<[signalname sd := v]> acc)) as (out & Hfold & Hother & Hfrom & Hdom & Hnodup).
    exists out. split; [exact Hfold|]. split; [|split; [|split]].
    + intros name Hname. cbn [map] in Hname.
      rewrite not_elem_of_cons in Hname. destruct Hname as [Hne Hnin].
      rewrite Hother by exact Hnin. apply lookup_insert_ne. congruence.
    + intros name w Hw. destruct (Hfrom name w Hw) as [Hacc|(sd' & Hin & Hname & Hget)].
      * destruct (decide (signalname sd = name)) as [Heq|Hne].
        -- rewrite Heq, lookup_insert_eq in Hacc. injection Hacc as <-.
           right. exists sd. split; [left|]. split; assumption.
        -- rewrite lookup_insert_ne in Hacc by exact Hne. left. exact Hacc.
      * right. exists sd'. split; [right; exact Hin|]. split; assumption.
    + intros sd' Hin. apply elem_of_cons in Hin as [-> | Hin]; [|apply Hdom; exact Hin].
      destruct (decide (signalname sd ∈ map signalname l)) as [Hdup|Hnew].
      * apply list_elem_of_fmap in Hdup as (sd2 & Hname & Hin2).
        rewrite Hname. apply Hdom. exact Hin2.
      * rewrite Hother by exact Hnew. rewrite lookup_insert_eq. eauto.
    + intros Hnd Hfresh. cbn [map] in Hnd. apply NoDup_cons in Hnd as [Hnew Hnd].
      destruct (Hnodup Hnd) as [Hsize Hvals].
      { intros sd' Hin. rewrite lookup_insert_ne.
        - apply Hfresh. right. exact Hin.
        - intros Heq. apply Hnew. rewrite Heq. apply list_elem_of_fmap. eauto. }
      split.
      * rewrite Hsize, map_size_insert_None by (apply Hfresh; left). cbn [length]. lia.
      * intros sd' Hin. apply elem_of_cons in Hin as [-> | Hin]; [|apply Hvals; exact Hin].
        exists v. split; [exact Hv|]. rewrite Hother by exact Hnew. apply lookup_insert_eq.
Qed.

(** A dictionary comes out of the loop only when every signal decodes. *)
Lemma unpack_fold_decodes (f : CanFrame) (l : list CanSignalDefinition)
    (acc out : gmap string float) :
  foldM (fun outputdict sigdef =>
           val ← get_signalvalue f sigdef;
           Ok (<[signalname sigdef := val]> outputdict)) l acc = Ok out ->
  Forall (fun sd => exists v, get_signalvalue f sd = Ok v) l.
Proof.
  revert acc. induction l as [|sd l IH]; intros acc H; [constructor|].
  cbn [foldM] in H. apply bind_Ok in H as (acc1 & Hstep & H).
  apply bind_Ok in Hstep as (v & Hv & _).
  constructor; [exists v; exact Hv | exact (IH acc1 H)].
Qed.

(** The loop stops at the first signal that does not decode. *)
Lemma unpack_fold_raise (f : CanFrame) (before after : list CanSignalDefinition)
    (sd : CanSignalDefinition) (acc : gmap string float) (e : exn) :
  Forall (fun s => exists v, get_signalvalue f s = Ok v) before ->
  get_signalvalue f sd = Raise e ->
  foldM (fun outputdict sigdef =>
           val ← get_signalvalue f sigdef;
           Ok (<[signalname sigdef := val]> outputdict)) (before ++ sd :: after) acc
    = Raise e.
Proof.
  intros Hbefore Hsd. rewrite foldM_app.
  destruct (unpack_fold f before acc Hbefore) as (acc1 & -> & _).
  simpl_bind. cbn [foldM]. rewrite Hsd. reflexivity.
Qed.

(** The last signal of a name gives the value of that name. *)
Lemma unpack_fold_last (f : CanFrame) (before after : list CanSignalDefinition)
    (sd : CanSignalDefinition) (acc out : gmap string float) :
  foldM (fun outputdict sigdef =>
           val ← get_signalvalue f sigdef;
           Ok (<[signalname sigdef := val]> outputdict)) (before ++ sd :: after) acc
    = Ok out ->
  signalname sd ∉ map signalname after ->
  exists v, get_signalvalue f sd = Ok v /\ out !! signalname sd = Some v.
Proof.
  intros H Hlast. rewrite foldM_app in H.
  apply bind_Ok in H as (acc1 & _ & H).
  cbn [foldM] in H. apply bind_Ok in H as (acc2 & Hstep & H).
  apply bind_Ok in Hstep as (v & Hv & Hacc2). injection Hacc2 as <-.
  exists v. split; [exact Hv|].
  pose proof (unpack_fold_decodes f after _ out H) as Hafter.
  destruct (unpack_fold f after (<[signalname sd := v]> acc1) Hafter)
    as (out' & Hfold & Hother & _).
  rewrite H in Hfold. injection Hfold as <-.
  rewrite Hother by exact Hlast. apply lookup_insert_eq.
Qed.

(** C6, as the code has it. [unpack]: a frame whose identifier is not in the
    frame definitions gives the empty dictionary; a frame whose length
    differs from the DLC of its definition raises the wrong-length
    exception. Otherwise the signals are decoded in their order: the first
    one that cannot be decoded ends [unpack] with its exception; when all
    of them decode, the dictionary holds exactly the names of the signals,
    each with the decoded value of the last signal of that name, which is
    one entry per signal when the names are distinct. Signals with a valid
    layout that fit in a DLC of at most 8 bytes decode. *)
Theorem unpack_spec (f : CanFrame) (m : gmap Z CanFrameDefinition) :
  (m !! frame_id f = None -> unpack f m = Ok ∅) /\
  (forall fd, m !! frame_id f = Some fd ->
     Z.of_nat (length (frame_data f)) <> dlc fd ->
     unpack f m = Raise (CanException ReceivedFrameWrongLength)) /\
  (forall fd, m !! frame_id f = Some fd ->
     Z.of_nat (length (frame_data f)) = dlc fd ->
     (forall before sd after e,
        signaldefinitions fd = before ++ sd :: after ->
        Forall (fun s => exists v, get_signalvalue f s = Ok v) before ->
        get_signalvalue f sd = Raise e ->
        unpack f m = Raise e) /\
     (Forall (fun s => exists v, get_signalvalue f s = Ok v) (signaldefinitions fd) ->
      exists out,
        unpack f m = Ok out /\
        (forall name, is_Some (out !! name) <->
           exists sd, sd ∈ signaldefinitions fd /\ signalname sd = name) /\
        (forall before sd after,
           signaldefinitions fd = before ++ sd :: after ->
           signalname sd ∉ map signalname after ->
           exists v, get_signalvalue f sd = Ok v /\ out !! signalname sd = Some v) /\
        (NoDup (map signalname (signaldefinitions fd)) ->
         size out = length (signaldefinitions fd) /\
         forall sd, sd ∈ signaldefinitions fd ->
           exists v, get_signalvalue f sd = Ok v /\ out !! signalname sd = Some v)) /\
     (dlc fd <= 8 ->
      Forall (fun sd => signal_layout_ok sd = true /\ get_minimum_dlc sd <= dlc fd)
             (signaldefinitions fd) ->
      Forall (fun s => exists v, get_signalvalue f s = Ok v) (signaldefinitions fd))).
Proof.
  unfold unpack. split; [|split].
  - intros ->. reflexivity.
  - intros fd -> Hlen.
    assert ((Z.of_nat (length (frame_data f)) =? dlc fd) = false) as ->
      by (apply Z.eqb_neq; exact Hlen).
    reflexivity.
  - intros fd -> Hlen.
    rewrite Hlen, Z.eqb_refl. cbn [negb raise_if]. simpl_bind.
    split; [|split].
    + intros before sd after e -> Hbefore Hsd.
      apply unpack_fold_raise; assumption.
    + intros Hall.
      destruct (unpack_fold f (signaldefinitions fd) ∅ Hall)
        as (out & Hfold & Hother & Hfrom & Hdom & Hnodup).
      exists out. split; [exact Hfold|]. split; [|split].
      * intros name. split.
        -- intros [v Hv]. destruct (Hfrom name v Hv) as [Hacc|(sd & Hin & Hname & _)].
           ++ rewrite lookup_empty in Hacc. discriminate Hacc.
           ++ eauto.
        -- intros (sd & Hin & <-). apply Hdom. exact Hin.
      * intros before sd after Hsplit Hlast. rewrite Hsplit in Hfold.
        exact (unpack_fold_last f before after sd ∅ out Hfold Hlast).
      * intros Hnd. destruct (Hnodup Hnd) as [Hsize Hvals].
        { intros sd _. apply lookup_empty. }
        split; [rewrite Hsize, map_size_empty; lia | exact Hvals].
    + intros Hdlc Hall.
      eapply Forall_impl; [exact Hall|]. intros sd [Hok Hmin].
      apply get_signalvalue_Ok; [exact Hok | lia].
Qed.

Lemma unpack_spec_witness :
  exists out,
    unpack testframe1 {[ 1 := testframedef1 ]} = Ok out /\
    (forall name, is_Some (out !! name) <->
       exists sd, sd ∈ signaldefinitions testframedef1 /\ signalname sd = name) /\
    (forall before sd after,
       signaldefinitions testframedef1 = before ++ sd :: after ->
       signalname sd ∉ map signalname after ->
       exists v, get_signalvalue testframe1 sd = Ok v /\ out !! signalname sd = Some v) /\
    (NoDup (map signalname (signaldefinitions testframedef1)) ->
     size out = length (signaldefinitions testframedef1) /\
     forall sd, sd ∈ signaldefinitions testframedef1 ->
       exists v, get_signalvalue testframe1 sd = Ok v /\ out !! signalname sd = Some v).
Proof.
  assert (({[ 1 := testframedef1 ]} : gmap Z CanFrameDefinition) !! frame_id testframe1
          = Some testframedef1) as Hlookup by reflexivity.
  assert (Z.of_nat (length (frame_data testframe1)) = dlc testframedef1) as Hlen
    by reflexivity.
  destruct (proj2 (proj2 (unpack_spec testframe1 {[ 1 := testframedef1 ]}))
              testframedef1 Hlookup Hlen) as (_ & Hall & Hdecode).
  apply Hall. apply Hdecode.
  - vm_compute. discriminate.
  - repeat constructor; vm_compute; discriminate.
Defined.

(** C6 as stated fails: a frame of one byte has the length of its
    definition, and the signal in the second byte cannot be decoded from it;
    and two signals of one name give one entry, with the value of the second
    one. *)
Lemma unpack_counterexample :
  ({[ 1 := short_framedef ]} : gmap Z CanFrameDefinition) !! frame_id short_frame
    = Some short_framedef /\
  Z.of_nat (length (frame_data short_frame)) = dlc short_framedef /\
  signal_layout_ok second_byte_signal = true /\
  unpack short_frame {[ 1 := short_framedef ]} = Raise IndexError /\
  length (signaldefinitions twin_framedef) = 2%nat /\
  unpack testframe1 {[ 1 := twin_framedef ]} = Ok {[ "twin" := float_lit 2 ]}.
Proof. repeat split; vm_compute; reflexivity. Qed.

(** ** The error conditions of [set_signalvalue] *)

(** The order of two floats that are numbers. *)
Lemma float_le_of_not_lt (x y : float) :
  x <> S754_nan -> y <> S754_nan -> float_lt x y = false -> float_le y x = true.
Proof.
  unfold float_lt, float_le, SFltb, SFleb, SFcompare.
  destruct x as [s1|s1| |s1 m1 e1], y as [s2|s2| |s2 m2 e2]; intros Hx Hy;
    try congruence;
    try (destruct s1); try (destruct s2); try reflexivity; try discriminate.
  - rewrite (Z.compare_antisym e1 e2).
    change (Pos.compare_cont Eq m2 m1) with (Pos.compare m2 m1).
    change (Pos.compare_cont Eq m1 m2) with (Pos.compare m1 m2).
    rewrite (Pos.compare_antisym m1 m2).
    destruct (e1 ?= e2); cbn [CompOpp]; try reflexivity; try discriminate.
    destruct (m1 ?= m2)%positive; cbn [CompOpp]; try reflexivity; discriminate.
  - rewrite (Z.compare_antisym e1 e2).
    change (Pos.compare_cont Eq m2 m1) with (Pos.compare m2 m1).
    change (Pos.compare_cont Eq m1 m2) with (Pos.compare m1 m2).
    rewrite (Pos.compare_antisym m1 m2).
    destruct (e1 ?= e2); cbn [CompOpp]; try reflexivity; try discriminate.
    destruct (m1 ?= m2)%positive; cbn [CompOpp]; try reflexivity; discriminate.
Qed.

Lemma float_not_lt_of_le (x y : float) :
  float_le y x = true -> float_lt x y = false.
Proof.
  unfold float_lt, float_le, SFltb, SFleb, SFcompare.
  destruct x as [s1|s1| |s1 m1 e1], y as [s2|s2| |s2 m2 e2];
    try (destruct s1); try (destruct s2); try reflexivity; try discriminate.
  - rewrite (Z.compare_antisym e1 e2).
    change (Pos.compare_cont Eq m2 m1) with (Pos.compare m2 m1).
    change (Pos.compare_cont Eq m1 m2) with (Pos.compare m1 m2).
    rewrite (Pos.compare_antisym m1 m2).
    destruct (e1 ?= e2); cbn [CompOpp]; try reflexivity; try discriminate.
    destruct (m1 ?= m2)%positive; cbn [CompOpp]; try reflexivity; discriminate.
  - rewrite (Z.compare_antisym e1 e2).
    change (Pos.compare_cont Eq m2 m1) with (Pos.compare m2 m1).
    change (Pos.compare_cont Eq m1 m2) with (Pos.compare m1 m2).
    rewrite (Pos.compare_antisym m1 m2).
    destruct (e1 ?= e2); cbn [CompOpp]; try reflexivity; try discriminate.
    destruct (m1 ?= m2)%positive; cbn [CompOpp]; try reflexivity; discriminate.
Qed.

(** C7, for values that are numbers. [set_signalvalue] fails when the frame
    is shorter than the minimum DLC of the signal; it fails when the value
    is below the minimum or above the maximum possible value, whatever
    [minvalue] and [maxvalue] are; a value is limited to [minvalue] and
    [maxvalue] only after both comparisons of the range check have found
    nothing, which for numbers means that the value lies within the
    possible range; and every value within the possible range passes the
    check. *)
Theorem set_signalvalue_errors (f : CanFrame) (sd : CanSignalDefinition)
    (physical_value : option float) :
  (Z.of_nat (length (frame_data f)) < get_minimum_dlc sd ->
   set_signalvalue f sd physical_value = Raise (CanException FrameTooShortForSignal)) /\
  (forall v lower_limit upper_limit,
     get_minimum_dlc sd <= Z.of_nat (length (frame_data f)) ->
     given_or_default sd physical_value = Some v ->
     get_minimum_possible_value sd = Ok lower_limit ->
     get_maximum_possible_value sd = Ok upper_limit ->
     float_lt v lower_limit = true \/ float_lt upper_limit v = true ->
     set_signalvalue f sd physical_value = Raise (CanException PhysicalValueOutOfRange)) /\
  (forall x, value_to_encode sd physical_value = Ok x ->
     exists v lower_limit upper_limit,
       given_or_default sd physical_value = Some v /\
       get_minimum_possible_value sd = Ok lower_limit /\
       get_maximum_possible_value sd = Ok upper_limit /\
       float_lt v lower_limit = false /\ float_lt upper_limit v = false /\
       x = limit_to_min_max sd v /\
       (v <> S754_nan -> lower_limit <> S754_nan -> upper_limit <> S754_nan ->
        float_le lower_limit v = true /\ float_le v upper_limit = true)) /\
  (forall v lower_limit upper_limit,
     given_or_default sd physical_value = Some v ->
     get_minimum_possible_value sd = Ok lower_limit ->
     get_maximum_possible_value sd = Ok upper_limit ->
     float_le lower_limit v = true -> float_le v upper_limit = true ->
     value_to_encode sd physical_value = Ok (limit_to_min_max sd v)).
Proof.
  assert (forall v, given_or_default sd physical_value = Some v ->
            match physical_value with
            | Some v0 => Ok v0
            | None => match defaultvalue sd with
                      | Some d => Ok d
                      | None => Raise TypeError
                      end
            end = Ok v) as Hgiven.
  { intros v Hv. destruct physical_value as [w|]; cbn [given_or_default] in Hv.
    - congruence.
    - rewrite Hv. reflexivity. }
  split; [|split; [|split]].
  - intros Hshort. unfold set_signalvalue.
    assert ((get_minimum_dlc sd >? Z.of_nat (length (frame_data f))) = true) as ->.
    { rewrite Z.gtb_ltb. apply Z.ltb_lt. exact Hshort. }
    reflexivity.
  - intros v lo hi Hdlc Hv Hlo Hhi Hout. unfold set_signalvalue.
    assert ((get_minimum_dlc sd >? Z.of_nat (length (frame_data f))) = false) as ->.
    { rewrite Z.gtb_ltb. apply Z.ltb_ge. exact Hdlc. }
    cbn [raise_if]. simpl_bind. unfold value_to_encode.
    rewrite (Hgiven v Hv).
    simpl_bind. rewrite Hlo. simpl_bind.
    destruct (float_lt v lo) eqn:Hlt; [reflexivity|].
    rewrite Hhi. simpl_bind.
    destruct Hout as [Hout|Hout]; [discriminate Hout|].
    rewrite Hout. reflexivity.
  - intros x Hx. unfold value_to_encode in Hx.
    apply bind_Ok in Hx as (v & Hv & Hx).
    apply bind_Ok in Hx as (lo & Hlo & Hx).
    apply bind_Ok in Hx as ([] & Hcheck & Hx).
    injection Hx as <-.
    destruct (float_lt v lo) eqn:Hlt; [discriminate Hcheck|].
    apply bind_Ok in Hcheck as (hi & Hhi & Hcheck).
    apply raise_if_Ok in Hcheck.
    exists v, lo, hi.
    split.
    { destruct physical_value as [w|]; cbn [given_or_default].
      - congruence.
      - destruct (defaultvalue sd); [congruence | discriminate Hv]. }
    repeat (split; [assumption || reflexivity|]).
    intros Hnv Hnlo Hnhi.
    split; apply float_le_of_not_lt; assumption.
  - intros v lo hi Hv Hlo Hhi Hlow Hhigh. unfold value_to_encode.
    rewrite (Hgiven v Hv). simpl_bind. rewrite Hlo. simpl_bind.
    rewrite (float_not_lt_of_le v lo Hlow).
    rewrite Hhi. simpl_bind.
    rewrite (float_not_lt_of_le hi v Hhigh). reflexivity.
Qed.

Lemma set_signalvalue_errors_witness :
  set_signalvalue {| frame_id := 1; frame_data := []; frame_format := CAN_FRAMEFORMAT_STANDARD |}
    limited_signal (Some (float_lit 5)) = Raise (CanException FrameTooShortForSignal) /\
  set_signalvalue empty_frame limited_signal (Some (float_lit 256)) =
    Raise (CanException PhysicalValueOutOfRange) /\
  (exists v lower_limit upper_limit,
    given_or_default limited_signal (Some (float_lit 200)) = Some v /\
    get_minimum_possible_value limited_signal = Ok lower_limit /\
    get_maximum_possible_value limited_signal = Ok upper_limit /\
    float_lt v lower_limit = false /\ float_lt upper_limit v = false /\
    float_lit 100 = limit_to_min_max limited_signal v /\
    (v <> S754_nan -> lower_limit <> S754_nan -> upper_limit <> S754_nan ->
     float_le lower_limit v = true /\ float_le v upper_limit = true)) /\
  value_to_encode limited_signal (Some (float_lit 200))
    = Ok (limit_to_min_max limited_signal (float_lit 200)).
Proof.
  split; [|split; [|split]].
  - apply (proj1 (set_signalvalue_errors _ limited_signal (Some (float_lit 5)))).
    vm_compute. reflexivity.
  - apply (proj1 (proj2 (set_signalvalue_errors empty_frame limited_signal
                           (Some (float_lit 256))))
             (float_lit 256) (float_lit 0) (float_lit 255)).
    + vm_compute. discriminate.
    + reflexivity.
    + reflexivity.
    + reflexivity.
    + right. reflexivity.
  - apply (proj1 (proj2 (proj2 (set_signalvalue_errors empty_frame limited_signal
                                  (Some (float_lit 200))))) (float_lit 100)).
    reflexivity.
  - apply (proj2 (proj2 (proj2 (set_signalvalue_errors empty_frame limited_signal
                                  (Some (float_lit 200)))))
             (float_lit 200) (float_lit 0) (float_lit 255));
      reflexivity.
Defined.

(** C7 as stated fails for a value that is not a number: NaN is not within
    the possible range 0..255 of the byte, both comparisons of the range
    check are false for it, and [set_signalvalue] writes the [maxvalue] 100
    in its place. *)
Lemma set_signalvalue_nan_counterexample :
  get_minimum_possible_value limited_signal = Ok (float_lit 0) /\
  get_maximum_possible_value limited_signal = Ok (float_lit 255) /\
  float_le (float_lit 0) S754_nan = false /\
  float_le S754_nan (float_lit 255) = false /\
  value_to_encode limited_signal (Some S754_nan) = Ok (float_lit 100) /\
  set_signalvalue empty_frame limited_signal (Some S754_nan) =
    Ok {| frame_id := 1;
          frame_data := [x64; x00; x00; x00; x00; x00; x00; x00];
          frame_format := CAN_FRAMEFORMAT_STANDARD |}.
Proof. repeat split; vm_compute; reflexivity. Qed.


(** *** The identities of the codec for scale 1 and offset 0 *)

Lemma float_lit_canonical (k : Z) :
  k <> 0 -> Z.abs k < 2 ^ 53 ->
  exists s m e, float_lit k = S754_finite s m e /\
                canonical_mantissa prec64 emax64 m e = true /\ e <= 0.
Proof.
  intros Hnz Hk. rewrite float_lit_small by assumption.
  pose proof (shift_to_53_spec (Z.to_pos (Z.abs k)) ltac:(lia)) as (_ & He & _ & Hd).
  do 3 eexists. split; [reflexivity|]. split; [|lia].
  unfold canonical_mantissa, fexp, emin, prec64, emax64. apply Z.eqb_eq. lia.
Qed.

(** [float(k) * 1.0 + 0.0 = float(k)] *)
Lemma float_affine_identity (k : Z) :
  Z.abs k < 2 ^ 53 ->
  float_add (float_mul (float_lit k) (float_lit 1)) (float_lit 0) = float_lit k.
Proof.
  intros Hk. destruct (Z.eq_dec k 0) as [-> | Hnz]; [reflexivity|].
  destruct (float_lit_canonical k Hnz Hk) as (s & m & e & -> & Hc & He).
  rewrite float_mul_one by (assumption || lia). reflexivity.
Qed.

(** [(float(k) - 0.0) / 1.0 = float(k)] *)
Lemma float_scale_identity (k : Z) :
  Z.abs k < 2 ^ 53 ->
  float_truediv (float_sub (float_lit k) (float_lit 0)) (float_lit 1) = Ok (float_lit k).
Proof.
  intros Hk. destruct (Z.eq_dec k 0) as [-> | Hnz]; [reflexivity|].
  destruct (float_lit_canonical k Hnz Hk) as (s & m & e & -> & Hc & He).
  change (float_sub (S754_finite s m e) (float_lit 0)) with (S754_finite s m e).
  apply float_div_one; [assumption | lia].
Qed.

(** [x - x = 0.0] for a number [x] *)
Lemma float_sub_diag (x : float) :
  float_is_finite x = true -> float_sub x x = S754_zero false.
Proof.
  destruct x as [s|s| |s m e]; try discriminate; intros _.
  - destruct s; reflexivity.
  - unfold float_sub, SFsub. rewrite Z.sub_diag. reflexivity.
Qed.

(** [0.0 / y = 0.0] for a positive [y] *)
Lemma float_zero_div (y : float) :
  float_lt (float_lit 0) y = true ->
  float_truediv (S754_zero false) y = Ok (S754_zero false).
Proof.
  destruct y as [s|s| |s m e]; intros H; try discriminate H.
  - destruct s; [discriminate H | reflexivity].
  - destruct s; [discriminate H | reflexivity].
Qed.

Lemma twos_complement_roundtrip (k n : Z) :
  1 <= n -> - 2 ^ (n - 1) <= k < 2 ^ (n - 1) ->
  exists v, twos_complement k n = Ok v /\ 0 <= v < 2 ^ n /\
            from_twos_complement v n = Ok k.
Proof.
  intros Hn Hk. unfold twos_complement.
  assert (2 ^ n = 2 * 2 ^ (n - 1)) as Hpow.
  { rewrite <- Z.pow_succ_r by lia. f_equal. lia. }
  assert ((k >? 2 ^ (n - 1) - 1) = false) as -> by (rewrite Z.gtb_ltb; apply Z.ltb_ge; lia).
  assert ((k <? - 2 ^ (n - 1)) = false) as -> by (apply Z.ltb_ge; lia).
  cbn [orb]. unfold from_twos_complement.
  destruct (Z.geb_spec k 0) as [Hpos|Hneg].
  - exists k. split; [reflexivity|]. split; [lia|].
    assert ((k <? 0) = false) as -> by (apply Z.ltb_ge; lia).
    assert ((k >? 2 ^ n - 1) = false) as -> by (rewrite Z.gtb_ltb; apply Z.ltb_ge; lia).
    assert ((k <=? 2 ^ (n - 1) - 1) = true) as -> by (apply Z.leb_le; lia).
    reflexivity.
  - exists (k + 2 ^ n). split; [reflexivity|]. split; [lia|].
    assert ((k + 2 ^ n <? 0) = false) as -> by (apply Z.ltb_ge; lia).
    assert ((k + 2 ^ n >? 2 ^ n - 1) = false) as -> by (rewrite Z.gtb_ltb; apply Z.ltb_ge; lia).
    assert ((k + 2 ^ n <=? 2 ^ (n - 1) - 1) = false) as -> by (apply Z.leb_gt; lia).
    cbn [orb]. f_equal. lia.
Qed.

(** ** Reading back what was written *)

Lemma field_roundtrip (f : CanFrame) (sd : CanSignalDefinition) (v : Z) :
  signal_layout_ok sd = true ->
  get_minimum_dlc sd <= Z.of_nat (length (frame_data f)) <= 8 ->
  0 <= v < 2 ^ numberofbits sd ->
  exists f',
    write_bus_value f sd v = Ok f' /\
    frame_id f' = frame_id f /\ frame_format f' = frame_format f /\
    length (frame_data f') = length (frame_data f) /\
    get_busvalue_from_bytes (frame_data f') (endianness sd) (numberofbits sd) (startbit sd)
      = Ok v.
Proof.
  intros Hok Hdlc Hv.
  destruct (write_bus_value_testbit f sd v Hok Hdlc Hv)
    as (f' & Hw & Hid & Hfmt & Hlen & Hbits).
  exists f'. split; [exact Hw|]. split; [exact Hid|]. split; [exact Hfmt|].
  split; [exact Hlen|].
  pose proof (signal_layout_ok_fits sd Hok) as (Hfit & _).
  pose proof Hfit as (Hs & Hn & _).
  destruct (busvalue_testbit (endianness sd) (frame_data f') (numberofbits sd) (startbit sd)
              Hfit ltac:(rewrite <- get_minimum_dlc_field, Hlen; lia))
    as (v' & Hget & Hv' & Hbits').
  rewrite Hget. f_equal. apply Z.bits_inj'. intros j Hj.
  rewrite Hbits' by exact Hj.
  destruct (Z.ltb_spec j (numberofbits sd)) as [Hjn|Hjn]; cbn [andb].
  - rewrite Hbits by (apply (field_position_range _ _ (numberofbits sd)); [exact Hfit | lia]).
    cbv zeta. rewrite field_index_position.
    assert ((0 <=? j) = true) as -> by (apply Z.leb_le; lia).
    assert ((j <? numberofbits sd) = true) as -> by (apply Z.ltb_lt; lia).
    reflexivity.
  - symmetry. apply (testbit_below_pow2 v (numberofbits sd)); assumption.
Qed.

(** ** Round trip of integer signals *)

Lemma possible_values_integer (sd : CanSignalDefinition) :
  signal_layout_ok sd = true -> numberofbits sd <= 53 ->
  scalingfactor sd = float_lit 1 -> valueoffset sd = float_lit 0 ->
  (signaltype sd = CAN_SIGNALTYPE_UNSIGNED ->
   get_minimum_possible_value sd = Ok (float_lit 0) /\
   get_maximum_possible_value sd = Ok (float_lit (2 ^ numberofbits sd - 1))) /\
  (signaltype sd = CAN_SIGNALTYPE_SIGNED ->
   get_minimum_possible_value sd = Ok (float_lit (- 2 ^ (numberofbits sd - 1))) /\
   get_maximum_possible_value sd = Ok (float_lit (2 ^ (numberofbits sd - 1) - 1))).
Proof.
  intros Hok Hn53 Hscale Hoffset.
  pose proof (signal_layout_ok_fits sd Hok) as ((Hs & Hn & _) & _).
  assert (2 ^ numberofbits sd <= 2 ^ 53) as Hpow by (apply Z.pow_le_mono_r; lia).
  assert (0 < 2 ^ (numberofbits sd - 1)) as Hpow1 by (apply Z.pow_pos_nonneg; lia).
  assert (2 ^ (numberofbits sd - 1) < 2 ^ numberofbits sd) as Hpow2
    by (apply Z.pow_lt_mono_r; lia).
  unfold get_minimum_possible_value, get_maximum_possible_value.
  rewrite Hscale, Hoffset.
  split; intros ->.
  - rewrite !float_of_int_small by lia. simpl_bind.
    rewrite !float_affine_identity by lia. split; reflexivity.
  - rewrite !float_of_int_small by lia. simpl_bind.
    rewrite !float_affine_identity by lia. split; reflexivity.
Qed.

(** X23. Round trip of integer signals: for an unsigned or signed signal of
    at most 53 bits with scale 1 and offset 0, an integer [k] of the range
    of the field that [minvalue] and [maxvalue] do not change is written by
    [set_signalvalue] into any frame that is long enough, and
    [get_signalvalue] reads exactly [k] back. *)
Theorem integer_signal_roundtrip (f : CanFrame) (sd : CanSignalDefinition) (k : Z) :
  signal_layout_ok sd = true ->
  numberofbits sd <= 53 ->
  scalingfactor sd = float_lit 1 -> valueoffset sd = float_lit 0 ->
  (signaltype sd = CAN_SIGNALTYPE_UNSIGNED /\ 0 <= k <= 2 ^ numberofbits sd - 1) \/
  (signaltype sd = CAN_SIGNALTYPE_SIGNED /\
   - 2 ^ (numberofbits sd - 1) <= k <= 2 ^ (numberofbits sd - 1) - 1) ->
  limit_to_min_max sd (float_lit k) = float_lit k ->
  get_minimum_dlc sd <= Z.of_nat (length (frame_data f)) <= 8 ->
  exists f',
    set_signalvalue f sd (Some (float_lit k)) = Ok f' /\
    length (frame_data f') = length (frame_data f) /\
    get_signalvalue f' sd = Ok (float_lit k).
Proof.
  intros Hok Hn53 Hscale Hoffset Hrange Hlimit Hdlc.
  pose proof (signal_layout_ok_fits sd Hok) as ((Hs & Hn & _) & _).
  pose proof (possible_values_integer sd Hok Hn53 Hscale Hoffset) as [Hun Hsi].
  assert (2 ^ numberofbits sd <= 2 ^ 53) as Hpow by (apply Z.pow_le_mono_r; lia).
  assert (0 < 2 ^ (numberofbits sd - 1)) as Hpow1 by (apply Z.pow_pos_nonneg; lia).
  assert (2 ^ numberofbits sd = 2 * 2 ^ (numberofbits sd - 1)) as Hpow2.
  { rewrite <- Z.pow_succ_r by lia. f_equal. lia. }
  assert (Z.abs k < 2 ^ 53) as Hk by (destruct Hrange as [[_ ?]|[_ ?]]; lia).
  assert (value_to_encode sd (Some (float_lit k)) = Ok (float_lit k)) as Hvalue.
  { unfold value_to_encode. simpl_bind.
    destruct Hrange as [[Hty Hr]|[Hty Hr]].
    - destruct (Hun Hty) as [-> ->]. simpl_bind.
      rewrite !float_lt_lit by lia.
      assert ((k <? 0) = false) as -> by (apply Z.ltb_ge; lia).
      assert ((2 ^ numberofbits sd - 1 <? k) = false) as -> by (apply Z.ltb_ge; lia).
      cbn [raise_if]. simpl_bind. rewrite Hlimit. reflexivity.
    - destruct (Hsi Hty) as [-> ->]. simpl_bind.
      rewrite !float_lt_lit by lia.
      assert ((k <? - 2 ^ (numberofbits sd - 1)) = false) as -> by (apply Z.ltb_ge; lia).
      assert ((2 ^ (numberofbits sd - 1) - 1 <? k) = false) as -> by (apply Z.ltb_ge; lia).
      cbn [raise_if]. simpl_bind. rewrite Hlimit. reflexivity. }
  unfold set_signalvalue.
  assert ((get_minimum_dlc sd >? Z.of_nat (length (frame_data f))) = false) as ->.
  { rewrite Z.gtb_ltb. apply Z.ltb_ge. lia. }
  cbn [raise_if]. simpl_bind. rewrite Hvalue. simpl_bind.
  rewrite Hscale, Hoffset, float_scale_identity by exact Hk. simpl_bind.
  unfold get_signalvalue. rewrite Hscale, Hoffset.
  destruct Hrange as [[Hty Hr]|[Hty Hr]]; rewrite Hty.
  - unfold bus_value_of_scaled. rewrite Hty, int_of_float_lit by exact Hk. simpl_bind.
    assert ((k <=? 2 ^ numberofbits sd - 1) = true) as -> by (apply Z.leb_le; lia).
    assert ((k >=? 0) = true) as -> by (apply Z.geb_le; lia).
    cbn [assert]. simpl_bind.
    destruct (field_roundtrip f sd k Hok Hdlc ltac:(lia)) as (f' & Hw & _ & _ & Hlen & Hget).
    exists f'. split; [exact Hw|]. split; [exact Hlen|].
    rewrite Hget. simpl_bind. rewrite float_of_int_small by exact Hk. simpl_bind.
    rewrite float_affine_identity by exact Hk. rewrite Hlimit. reflexivity.
  - unfold bus_value_of_scaled. rewrite Hty, int_of_float_lit by exact Hk. simpl_bind.
    destruct (twos_complement_roundtrip k (numberofbits sd) ltac:(lia) ltac:(lia))
      as (v & Htwos & Hv & Hback).
    rewrite Htwos. simpl_bind.
    assert ((v <=? 2 ^ numberofbits sd - 1) = true) as -> by (apply Z.leb_le; lia).
    assert ((v >=? 0) = true) as -> by (apply Z.geb_le; lia).
    cbn [assert]. simpl_bind.
    destruct (field_roundtrip f sd v Hok Hdlc Hv) as (f' & Hw & _ & _ & Hlen & Hget).
    exists f'. split; [exact Hw|]. split; [exact Hlen|].
    rewrite Hget. simpl_bind. rewrite Hback. simpl_bind.
    rewrite float_of_int_small by exact Hk. simpl_bind.
    rewrite float_affine_identity by exact Hk. rewrite Hlimit. reflexivity.
Qed.

Lemma integer_signal_roundtrip_witness :
  exists f',
    set_signalvalue empty_frame testsignal4 (Some (float_lit (-128))) = Ok f' /\
    length (frame_data f') = length (frame_data empty_frame) /\
    get_signalvalue f' testsignal4 = Ok (float_lit (-128)).
Proof.
  apply (integer_signal_roundtrip empty_frame testsignal4 (-128)).
  - reflexivity.
  - simpl. lia.
  - reflexivity.
  - reflexivity.
  - right. split; [reflexivity | simpl; lia].
  - reflexivity.
  - split; vm_compute; discriminate.
Defined.

(** A value of the possible range that [maxvalue] changes is read back as
    the limit: 200 lies in the possible range 0..255 of a byte that is
    limited to 100, and it is read back as 100. *)
Lemma limited_value_read_back :
  get_minimum_possible_value limited_signal = Ok (float_lit 0) /\
  get_maximum_possible_value limited_signal = Ok (float_lit 255) /\
  (exists f',
     set_signalvalue empty_frame limited_signal (Some (float_lit 200)) = Ok f' /\
     get_signalvalue f' limited_signal = Ok (float_lit 100)) /\
  float_sub (float_lit 200) (float_lit 100) = float_lit 100.
Proof.
  split; [vm_compute; reflexivity|]. split; [vm_compute; reflexivity|]. split.
  - exists {| frame_id := 1;
              frame_data := [x64; x00; x00; x00; x00; x00; x00; x00];
              frame_format := CAN_FRAMEFORMAT_STANDARD |}.
    split; vm_compute; reflexivity.
  - vm_compute. reflexivity.
Qed.

(** ** The top of the possible range *)

(** The float of [2^n - 1] is [2^n] for a field of more than 53 bits. *)
Lemma top_of_range_values (n : Z) :
  54 <= n <= 64 ->
  float_of_int (2 ^ n - 1) = Ok (float_lit (2 ^ n)) /\
  float_add (float_mul (float_lit (2 ^ n)) (float_lit 1)) (float_lit 0) = float_lit (2 ^ n) /\
  float_lt (float_lit (2 ^ n)) (float_lit 0) = false /\
  float_lt (float_lit (2 ^ n)) (float_lit (2 ^ n)) = false /\
  float_truediv (float_sub (float_lit (2 ^ n)) (float_lit 0)) (float_lit 1)
    = Ok (float_lit (2 ^ n)) /\
  int_of_float (float_lit (2 ^ n)) = Ok (2 ^ n).
Proof.
  intros Hn.
  assert (n = 54 \/ n = 55 \/ n = 56 \/ n = 57 \/ n = 58 \/ n = 59 \/ n = 60 \/
          n = 61 \/ n = 62 \/ n = 63 \/ n = 64) as Hcases by lia.
  repeat (destruct Hcases as [-> | Hcases]); [..|subst n];
    repeat split; vm_compute; reflexivity.
Qed.

(** C2. The round trip fails at the top of the possible range: for an
    unsigned signal of 54 to 64 bits with scale 1 and offset 0, the maximum
    possible value is the float [2^n], one more than the largest field value
    [2^n - 1]. It lies within the possible range, the range check accepts
    it, and when [minvalue] and [maxvalue] leave it unchanged,
    [set_signalvalue] on a frame that is long enough ends with the
    [AssertionError] of its own [assert bus_value <= 2 ** numberofbits - 1],
    so nothing is written that could be read back. *)
Theorem set_signalvalue_top_of_range (f : CanFrame) (sd : CanSignalDefinition) :
  signaltype sd = CAN_SIGNALTYPE_UNSIGNED ->
  54 <= numberofbits sd <= 64 ->
  scalingfactor sd = float_lit 1 -> valueoffset sd = float_lit 0 ->
  limit_to_min_max sd (float_lit (2 ^ numberofbits sd)) = float_lit (2 ^ numberofbits sd) ->
  get_minimum_dlc sd <= Z.of_nat (length (frame_data f)) ->
  get_minimum_possible_value sd = Ok (float_lit 0) /\
  get_maximum_possible_value sd = Ok (float_lit (2 ^ numberofbits sd)) /\
  float_le (float_lit 0) (float_lit (2 ^ numberofbits sd)) = true /\
  float_le (float_lit (2 ^ numberofbits sd)) (float_lit (2 ^ numberofbits sd)) = true /\
  value_to_encode sd (Some (float_lit (2 ^ numberofbits sd)))
    = Ok (float_lit (2 ^ numberofbits sd)) /\
  set_signalvalue f sd (Some (float_lit (2 ^ numberofbits sd))) = Raise AssertionError.
Proof.
  intros Hty Hn Hscale Hoffset Hlimit Hdlc.
  destruct (top_of_range_values (numberofbits sd) Hn)
    as (Htop & Haffine & Hlow & Hhigh & Hscaled & Hint).
  assert (float_lit (2 ^ numberofbits sd) <> S754_nan) as Hnum.
  { intros Hnan. rewrite Hnan in Hint. discriminate Hint. }
  assert (float_lit 0 <> S754_nan) as Hzero by discriminate.
  assert (get_minimum_possible_value sd = Ok (float_lit 0)) as Hlo.
  { unfold get_minimum_possible_value. rewrite Hty, Hscale, Hoffset. reflexivity. }
  assert (get_maximum_possible_value sd = Ok (float_lit (2 ^ numberofbits sd))) as Hhi.
  { unfold get_maximum_possible_value. rewrite Hty, Hscale, Hoffset, Htop.
    simpl_bind. rewrite Haffine. reflexivity. }
  assert (value_to_encode sd (Some (float_lit (2 ^ numberofbits sd)))
          = Ok (float_lit (2 ^ numberofbits sd))) as Hvalue.
  { unfold value_to_encode. simpl_bind. rewrite Hlo. simpl_bind. rewrite Hlow.
    rewrite Hhi. simpl_bind. rewrite Hhigh. cbn [raise_if]. simpl_bind.
    rewrite Hlimit. reflexivity. }
  split; [exact Hlo|]. split; [exact Hhi|].
  split; [apply float_le_of_not_lt; assumption|].
  split; [apply float_le_of_not_lt; assumption|].
  split; [exact Hvalue|].
  unfold set_signalvalue.
  assert ((get_minimum_dlc sd >? Z.of_nat (length (frame_data f))) = false) as ->.
  { rewrite Z.gtb_ltb. apply Z.ltb_ge. lia. }
  cbn [raise_if]. simpl_bind. rewrite Hvalue. simpl_bind.
  rewrite Hscale, Hoffset, Hscaled. simpl_bind. rewrite Hty.
  unfold bus_value_of_scaled. rewrite Hty, Hint. simpl_bind.
  assert ((2 ^ numberofbits sd <=? 2 ^ numberofbits sd - 1) = false) as ->
    by (apply Z.leb_gt; lia).
  reflexivity.
Qed.

Lemma set_signalvalue_top_of_range_witness :
  get_minimum_possible_value wide_signal = Ok (float_lit 0) /\
  get_maximum_possible_value wide_signal = Ok (float_lit (2 ^ 64)) /\
  float_le (float_lit 0) (float_lit (2 ^ 64)) = true /\
  float_le (float_lit (2 ^ 64)) (float_lit (2 ^ 64)) = true /\
  value_to_encode wide_signal (Some (float_lit (2 ^ 64))) = Ok (float_lit (2 ^ 64)) /\
  set_signalvalue empty_frame wide_signal (Some (float_lit (2 ^ 64))) = Raise AssertionError.
Proof.
  apply (set_signalvalue_top_of_range empty_frame wide_signal).
  - reflexivity.
  - vm_compute. split; discriminate.
  - reflexivity.
  - reflexivity.
  - reflexivity.
  - vm_compute. discriminate.
Defined.

(** ** The default value *)

Lemma new_CanSignalDefinition_inv
    (name : string) (start n : Z) (scale offset : float) (default : option float)
    (unit_ comment : string) (minv maxv : option float)
    (e : endianness_t) (t : signaltype_t) (sd : CanSignalDefinition) :
  new_CanSignalDefinition name start n scale offset default unit_ comment minv maxv e t
    = Ok sd ->
  signal_layout_ok sd = true /\
  startbit sd = start /\ numberofbits sd = n /\ endianness sd = e /\ signaltype sd = t /\
  scalingfactor sd = scale /\ valueoffset sd = offset /\
  minvalue sd = minv /\ maxvalue sd = maxv /\
  defaultvalue sd = Some (match default with Some d => d | None => offset end) /\
  _check_signal_value_range sd (defaultvalue sd) = Ok tt.
Proof.
  unfold new_CanSignalDefinition. intros H.
  apply bind_Ok in H as ([] & H1 & H).
  apply bind_Ok in H as ([] & H2 & H).
  apply bind_Ok in H as ([] & H3 & H).
  apply bind_Ok in H as ([] & H4 & H).
  apply bind_Ok in H as ([] & H5 & H).
  apply bind_Ok in H as ([] & H6 & H).
  injection H as <-. cbn.
  split.
  { unfold signal_layout_ok. cbn. rewrite H1, H2. reflexivity. }
  repeat (split; [reflexivity|]).
  split; [destruct default; reflexivity|].
  destruct default; exact H6.
Qed.

(** C9, as far as it holds. A signal definition constructed without a
    default value has its offset as default value. When the offset is a
    number, the scale is positive and [minvalue] and [maxvalue] do not
    change the offset, [set_signalvalue] with no value writes zeros into all
    the bits of the signal. *)
Theorem default_value_is_offset
    (name : string) (start n : Z) (scale offset : float)
    (unit_ comment : string) (minv maxv : option float)
    (e : endianness_t) (t : signaltype_t) (sd : CanSignalDefinition) :
  new_CanSignalDefinition name start n scale offset None unit_ comment minv maxv e t
    = Ok sd ->
  defaultvalue sd = Some (valueoffset sd) /\ valueoffset sd = offset /\
  (float_is_finite offset = true ->
   float_lt (float_lit 0) scale = true ->
   limit_to_min_max sd offset = offset ->
   forall f : CanFrame,
     get_minimum_dlc sd <= Z.of_nat (length (frame_data f)) <= 8 ->
     exists f' mask,
       set_signalvalue f sd None = Ok f' /\
       signal_bitmask sd = Ok mask /\
       forall p, 0 <= p < 64 -> Z.testbit mask p = true ->
         Z.testbit (frame_integer (frame_data f')) p = false).
Proof.
  intros Hnew.
  apply new_CanSignalDefinition_inv in Hnew
    as (Hok & _ & _ & _ & _ & Hscale & Hoffset & _ & _ & Hdef & Hcheck).
  split; [rewrite Hdef, Hoffset; reflexivity|]. split; [exact Hoffset|].
  intros Hfin Hpos Hlimit f Hdlc.
  pose proof (signal_layout_ok_fits sd Hok) as ((Hs & Hn & _) & _ & Hdouble).
  destruct (signal_bitmask_testbit sd Hok) as (mask & Hmask & _ & Hmbits).
  assert (value_to_encode sd None = Ok offset) as Hvalue.
  { unfold value_to_encode. rewrite Hdef. simpl_bind.
    rewrite Hdef in Hcheck. unfold _check_signal_value_range in Hcheck.
    apply bind_Ok in Hcheck as (lo & Hlo & Hcheck).
    apply bind_Ok in Hcheck as (hi & Hhi & Hcheck).
    apply raise_if_Ok in Hcheck. apply orb_false_iff in Hcheck as [Hc1 Hc2].
    rewrite Hlo. simpl_bind. rewrite Hc1, Hhi. simpl_bind. rewrite Hc2.
    cbn [raise_if]. simpl_bind. rewrite Hlimit. reflexivity. }
  unfold set_signalvalue.
  assert ((get_minimum_dlc sd >? Z.of_nat (length (frame_data f))) = false) as ->.
  { rewrite Z.gtb_ltb. apply Z.ltb_ge. lia. }
  cbn [raise_if]. simpl_bind. rewrite Hvalue. simpl_bind.
  rewrite Hoffset, Hscale, float_sub_diag, float_zero_div by assumption. simpl_bind.
  assert (0 < 2 ^ numberofbits sd) as Hpow by (apply Z.pow_pos_nonneg; lia).
  assert (0 < 2 ^ (numberofbits sd - 1)) as Hpow1 by (apply Z.pow_pos_nonneg; lia).
  assert (bus_value_of_scaled sd (S754_zero false) = Ok 0 ->
          exists f' mask0,
            write_bus_value f sd 0 = Ok f' /\ signal_bitmask sd = Ok mask0 /\
            forall p, 0 <= p < 64 -> Z.testbit mask0 p = true ->
              Z.testbit (frame_integer (frame_data f')) p = false) as Hfield.
  { intros _.
    destruct (write_bus_value_testbit f sd 0 Hok Hdlc ltac:(lia))
      as (f' & Hw & _ & _ & _ & Hbits).
    exists f', mask. split; [exact Hw|]. split; [exact Hmask|].
    intros p Hp Hm. rewrite Hbits by exact Hp. cbv zeta.
    rewrite Hmbits in Hm by exact Hp. rewrite Hm. apply Z.bits_0. }
  destruct (signaltype sd) eqn:Hty.
  - assert (bus_value_of_scaled sd (S754_zero false) = Ok 0) as Hbus.
    { unfold bus_value_of_scaled. rewrite Hty. cbn [int_of_float]. simpl_bind.
      assert ((0 <=? 2 ^ numberofbits sd - 1) = true) as -> by (apply Z.leb_le; lia).
      reflexivity. }
    rewrite Hbus. simpl_bind. apply Hfield. exact Hbus.
  - assert (bus_value_of_scaled sd (S754_zero false) = Ok 0) as Hbus.
    { unfold bus_value_of_scaled. rewrite Hty. cbn [int_of_float]. simpl_bind.
      unfold twos_complement.
      assert ((0 >? 2 ^ (numberofbits sd - 1) - 1) = false) as ->
        by (rewrite Z.gtb_ltb; apply Z.ltb_ge; lia).
      assert ((0 <? - 2 ^ (numberofbits sd - 1)) = false) as -> by (apply Z.ltb_ge; lia).
      cbn [orb Z.geb Z.compare]. simpl_bind.
      assert ((0 <=? 2 ^ numberofbits sd - 1) = true) as -> by (apply Z.leb_le; lia).
      reflexivity. }
    rewrite Hbus. simpl_bind. apply Hfield. exact Hbus.
  - assert (bus_value_of_scaled sd (S754_zero false) = Ok 0) as Hbus.
    { unfold bus_value_of_scaled. rewrite Hty.
      change (pack_single_be (S754_zero false)) with (Ok [x00; x00; x00; x00]).
      simpl_bind.
      change (can_bytes_to_int (rjust [x00; x00; x00; x00] MAX_NUMBER_OF_CAN_DATA_BYTES NULL_BYTE))
        with (Ok 0).
      simpl_bind.
      assert ((0 <=? 2 ^ numberofbits sd - 1) = true) as -> by (apply Z.leb_le; lia).
      reflexivity. }
    rewrite Hbus. simpl_bind. apply Hfield. exact Hbus.
  - (* a double: the frame becomes eight zero bytes *)
    assert (forall d, d = replicate 8 NULL_BYTE ->
              exists f' mask0,
                set_frame_data f d = Ok f' /\ signal_bitmask sd = Ok mask0 /\
                forall p, 0 <= p < 64 -> Z.testbit mask0 p = true ->
                  Z.testbit (frame_integer (frame_data f')) p = false) as Hzero.
    { intros d ->. eexists. exists mask. split; [reflexivity|]. split; [exact Hmask|].
      intros p Hp _. cbn [frame_data]. apply Z.bits_0. }
    destruct (endianness sd); apply Hzero; reflexivity.
Qed.

Lemma default_value_is_offset_witness :
  defaultvalue testsignal4 = Some (valueoffset testsignal4) /\
  valueoffset testsignal4 = float_lit 0 /\
  exists f' mask,
    set_signalvalue testframe1 testsignal4 None = Ok f' /\
    signal_bitmask testsignal4 = Ok mask /\
    forall p, 0 <= p < 64 -> Z.testbit mask p = true ->
      Z.testbit (frame_integer (frame_data f')) p = false.
Proof.
  assert (new_CanSignalDefinition "testsignal4" 48 8 (float_lit 1) (float_lit 0) None
            "" "" None None LITTLE_ENDIAN CAN_SIGNALTYPE_SIGNED = Ok testsignal4) as Hnew
    by (vm_compute; reflexivity).
  destruct (default_value_is_offset _ _ _ _ _ _ _ _ _ _ _ _ Hnew) as (Hdef & Hoff & Hzero).
  split; [exact Hdef|]. split; [exact Hoff|].
  apply Hzero.
  - vm_compute. reflexivity.
  - vm_compute. reflexivity.
  - vm_compute. reflexivity.
  - split; vm_compute; discriminate.
Defined.

(** C9 as stated fails: with a minimum of 10 and no default value, the
    default value is the offset 0, and [set_signalvalue] with no value
    writes 10 into the field. *)
Lemma default_value_counterexample :
  exists sd f',
    new_signal_with_minimum = Ok sd /\
    defaultvalue sd = Some (float_lit 0) /\
    set_signalvalue empty_frame sd None = Ok f' /\
    get_busvalue_from_bytes (frame_data f') (endianness sd) (numberofbits sd) (startbit sd)
      = Ok 10.
Proof.
  exists (example_signal "limited" 0 8 LITTLE_ENDIAN CAN_SIGNALTYPE_UNSIGNED
            (Some (float_lit 10)) None).
  exists {| frame_id := 1;
            frame_data := [x0a; x00; x00; x00; x00; x00; x00; x00];
            frame_format := CAN_FRAMEFORMAT_STANDARD |}.
  split; [vm_compute; reflexivity|].
  split; [vm_compute; reflexivity|]. split; vm_compute; reflexivity.
Qed.

(** ** The interval of the broadcast manager *)

Lemma all_from_spec (f : Z -> bool) (n : nat) (start k : Z) :
  all_from f n start = true -> start <= k < start + Z.of_nat n -> f k = true.
Proof.
  revert start. induction n as [|n IH]; intros start H Hk; [lia|].
  cbn [all_from] in H. apply andb_true_iff in H as [H0 H].
  destruct (Z.eq_dec k start) as [-> | Hne]; [exact H0|].
  apply (IH (start + 1)); [exact H | lia].
Qed.

(** The machine float of a small integer is the float of the model. *)
Lemma prim_of_Z_spec (k : Z) :
  0 <= k < 2 ^ 63 -> FloatOps.Prim2SF (prim_of_Z k) = float_lit k.
Proof.
  intros Hk. unfold prim_of_Z. rewrite FloatAxioms.of_uint63_spec.
  rewrite Uint63.of_Z_spec. rewrite Z.mod_small; [reflexivity|].
  change Uint63.wB with (2 ^ 63). exact Hk.
Qed.

Lemma whole_part_is_sound (x : float) (q : Z) :
  whole_part_is x q = true ->
  float_lt x (float_lit 0) = false /\ math_floor x = Ok q /\ int_of_float x = Ok q.
Proof.
  destruct x as [s|s| |s m e]; try discriminate; cbn [whole_part_is].
  - intros H. apply Z.eqb_eq in H. subst q.
    split; [destruct s; reflexivity|]. split; reflexivity.
  - destruct s; [discriminate|].
    intros H. split; [reflexivity|].
    cbn [math_floor int_of_float].
    destruct (0 <=? e) eqn:He.
    + apply Z.eqb_eq in H. subst q. split; f_equal; lia.
    + apply andb_true_iff in H as [H1 H2].
      apply Z.leb_le in H1. apply Z.ltb_lt in H2. apply Z.leb_gt in He.
      assert (0 < 2 ^ (- e)) as Hpos by (apply Z.pow_pos_nonneg; lia).
      assert (Z.pos m / 2 ^ (- e) = q) as Hq.
      { symmetry. apply (Z.div_unique _ _ q (Z.pos m - q * 2 ^ (- e))); [left; lia | lia]. }
      rewrite Hq. split; reflexivity.
Qed.

(** What [interval_split_as] checks on the machine is the value of the
    model. *)
Lemma interval_split_sound (ms : Z) :
  0 <= ms < 2 ^ 53 -> interval_split_as ms = true ->
  exists useconds,
    (useconds = 1000 * (ms mod 1000) \/ useconds = 1000 * (ms mod 1000) - 1) /\
    interval_seconds_useconds (float_lit ms) = Ok (ms / 1000, useconds).
Proof.
  intros Hms H. unfold interval_split_as in H. cbv zeta in H.
  apply andb_true_iff in H as [Hfull Hpart].
  assert (0 <= ms / 1000 < 2 ^ 53) as Hq.
  { split; [apply Z.div_pos; lia|]. apply Z.div_lt_upper_bound; lia. }
  assert (exists useconds,
            (useconds = 1000 * (ms mod 1000) \/ useconds = 1000 * (ms mod 1000) - 1) /\
            whole_part_is
              (FloatOps.Prim2SF
                 (PrimFloat.mul
                    (PrimFloat.sub
                       (PrimFloat.div (prim_of_Z ms) (prim_of_Z MILLISECONDS_PER_SECOND))
                       (prim_of_Z (ms / 1000)))
                    (prim_of_Z MICROSECONDS_PER_SECOND))) useconds = true)
    as (us & Hus & Hy).
  { apply orb_true_iff in Hpart as [Hp|Hp]; eexists; (split; [|exact Hp]);
      [left | right]; reflexivity. }
  exists us. split; [exact Hus|].
  apply whole_part_is_sound in Hfull as (Hlt & Hfloor & _).
  apply whole_part_is_sound in Hy as (_ & _ & Hint).
  rewrite FloatAxioms.mul_spec, FloatAxioms.sub_spec in Hint.
  rewrite FloatAxioms.div_spec in Hlt, Hfloor, Hint.
  assert (0 <= MILLISECONDS_PER_SECOND < 2 ^ 63) as Hmilli
    by (vm_compute; split; [discriminate | reflexivity]).
  assert (0 <= MICROSECONDS_PER_SECOND < 2 ^ 63) as Hmicro
    by (vm_compute; split; [discriminate | reflexivity]).
  rewrite (prim_of_Z_spec ms) in Hlt, Hfloor, Hint by lia.
  rewrite (prim_of_Z_spec MILLISECONDS_PER_SECOND) in Hlt, Hfloor, Hint by exact Hmilli.
  rewrite (prim_of_Z_spec (ms / 1000)) in Hint by lia.
  rewrite (prim_of_Z_spec MICROSECONDS_PER_SECOND) in Hint by exact Hmicro.
  unfold interval_seconds_useconds.
  rewrite (float_of_int_small MILLISECONDS_PER_SECOND) by (vm_compute; reflexivity).
  simpl_bind. unfold float_truediv.
  change (float_is_zero (float_lit MILLISECONDS_PER_SECOND)) with false.
  cbv iota. simpl_bind.
  unfold split_seconds_to_full_and_part.
  change (SFdiv prec64 emax64) with FloatAxioms.SF64div.
  rewrite Hlt, Hfloor. simpl_bind.
  rewrite (float_of_int_small (ms / 1000)) by lia. simpl_bind.
  rewrite (float_of_int_small MICROSECONDS_PER_SECOND) by (vm_compute; reflexivity).
  simpl_bind.
  change (float_mul ?a ?b) with (FloatAxioms.SF64mul a b).
  change (float_sub ?a ?b) with (FloatAxioms.SF64sub a b).
  rewrite Hint. reflexivity.
Qed.

(** Every cycle time that a frame definition accepts. *)
Lemma interval_split_all :
  all_from interval_split_as (Z.to_nat (MAX_FRAME_CYCLETIME_MILLISECONDS + 1)) 0 = true.
Proof. vm_compute. reflexivity. Qed.

(** [int] and [round] of a float differ by one at most, and [int] is the one
    that is nearer to zero. *)
Lemma int_of_float_near_round (x : float) (t : Z) :
  int_of_float x = Ok t ->
  exists r, py_round x = Ok r /\ (Z.abs r = Z.abs t \/ Z.abs r = Z.abs t + 1).
Proof.
  destruct x as [s|s| |s m e]; try discriminate; cbn [int_of_float py_round].
  - intros [= <-]. exists 0. split; [reflexivity | left; reflexivity].
  - intros [= <-]. eexists. split; [reflexivity|].
    destruct (0 <=? e) eqn:He.
    + left. reflexivity.
    + apply Z.leb_gt in He. cbv zeta.
      assert (0 < 2 ^ (- e)) as Hpos by (apply Z.pow_pos_nonneg; lia).
      assert (0 <= Z.pos m / 2 ^ (- e)) as Hq by (apply Z.div_pos; lia).
      destruct (2 * (Z.pos m mod 2 ^ (- e)) <? 2 ^ (- e));
        [|destruct (2 ^ (- e) <? 2 * (Z.pos m mod 2 ^ (- e)));
          [|destruct (Z.even (Z.pos m / 2 ^ (- e)))]];
        destruct s; lia.
Qed.

Lemma interval_rounded (interval : float) (seconds useconds : Z) :
  interval_seconds_useconds interval = Ok (seconds, useconds) ->
  (exists interval_s seconds_f,
     float_truediv interval (float_lit MILLISECONDS_PER_SECOND) = Ok interval_s /\
     float_lt interval_s (float_lit 0) = false /\
     math_floor interval_s = Ok seconds /\
     float_of_int seconds = Ok seconds_f /\
     int_of_float (float_mul (float_sub interval_s seconds_f)
                             (float_lit MICROSECONDS_PER_SECOND)) = Ok useconds) /\
  exists rounded,
    rounded_useconds interval = Ok rounded /\
    (Z.abs rounded = Z.abs useconds \/ Z.abs rounded = Z.abs useconds + 1).
Proof.
  unfold interval_seconds_useconds, rounded_useconds.
  rewrite (float_of_int_small MILLISECONDS_PER_SECOND) by (vm_compute; reflexivity).
  simpl_bind. intros H.
  apply bind_Ok in H as (interval_s & Hdiv & H).
  unfold split_seconds_to_full_and_part in H.
  destruct (float_lt interval_s (float_lit 0)) eqn:Hneg; [discriminate H|].
  apply bind_Ok in H as (k & Hfloor & H).
  apply bind_Ok in H as (kf & Hkf & H).
  rewrite (float_of_int_small MICROSECONDS_PER_SECOND) in H by (vm_compute; reflexivity).
  cbn [mbind result_bind] in H.
  apply bind_Ok in H as (us & Hint & H).
  injection H as <- <-.
  split.
  - exists interval_s, kf. repeat split; assumption.
  - rewrite Hdiv. simpl_bind. rewrite Hfloor. simpl_bind. rewrite Hkf. simpl_bind.
    rewrite (float_of_int_small MICROSECONDS_PER_SECOND) by (vm_compute; reflexivity).
    simpl_bind. apply int_of_float_near_round. exact Hint.
Qed.

Lemma no_first_interval :
  (ival1 ← float_of_int 0; split_seconds_to_full_and_part ival1) = Ok (0, 0).
Proof. vm_compute. reflexivity. Qed.

Lemma _build_bcm_header_interval (pf : platform) (op : bcm_opcode) (fl : Z)
    (interval : float) (fid : Z) (ff : frame_format_t) (n : Z) (s us : Z) :
  interval_seconds_useconds interval = Ok (s, us) ->
  _build_bcm_header pf op fl interval fid ff n =
    pack_bcm_header pf
      {| opcode := op; flags := fl; ival1_count := 0;
         ival1_seconds := 0; ival1_useconds := 0;
         ival2_seconds := s; ival2_useconds := us;
         frame_id_std_ext :=
           (if bool_decide (ff = CAN_FRAMEFORMAT_EXTENDED)
            then Z.lor fid CAN_MASK_EXTENDED_FRAME_BIT else fid);
         number_of_bcm_frames := n |}.
Proof.
  unfold interval_seconds_useconds, _build_bcm_header. intros H.
  apply bind_Ok in H as (msec & Hmsec & H).
  apply bind_Ok in H as (interval_s & Hdiv & H).
  rewrite Hmsec. simpl_bind. rewrite Hdiv. simpl_bind.
  pose proof no_first_interval as H1.
  apply bind_Ok in H1 as (ival1 & Hi1 & H1).
  rewrite Hi1. simpl_bind. rewrite H1. simpl_bind. rewrite H. reflexivity.
Qed.

(** C3, as the code has it. The header carries the full seconds
    [floor(interval / 1000)] and, as microseconds, [int] of the float product
    of the remainder with 1e6: the product is truncated, not rounded, so the
    microseconds are those of [round] or one less in magnitude. This holds
    for every float interval that can be split; an interval that cannot
    makes [_build_bcm_header] fail in the same way. For every whole number
    of milliseconds up to [MAX_FRAME_CYCLETIME_MILLISECONDS], the longest
    cycle time of a frame definition, the interval can be split, and the
    microseconds are the exact [1000 * (ms mod 1000)] or one less. *)
Theorem bcm_interval_encoding (pf : platform) (op : bcm_opcode) (fl fid : Z)
    (ff : frame_format_t) (n : Z) :
  (forall interval seconds useconds,
     interval_seconds_useconds interval = Ok (seconds, useconds) ->
     (exists interval_s seconds_f,
        float_truediv interval (float_lit MILLISECONDS_PER_SECOND) = Ok interval_s /\
        float_lt interval_s (float_lit 0) = false /\
        math_floor interval_s = Ok seconds /\
        float_of_int seconds = Ok seconds_f /\
        int_of_float (float_mul (float_sub interval_s seconds_f)
                                (float_lit MICROSECONDS_PER_SECOND)) = Ok useconds) /\
     (exists rounded,
        rounded_useconds interval = Ok rounded /\
        (Z.abs rounded = Z.abs useconds \/ Z.abs rounded = Z.abs useconds + 1)) /\
     _build_bcm_header pf op fl interval fid ff n =
       pack_bcm_header pf
         {| opcode := op; flags := fl; ival1_count := 0;
            ival1_seconds := 0; ival1_useconds := 0;
            ival2_seconds := seconds; ival2_useconds := useconds;
            frame_id_std_ext :=
              (if bool_decide (ff = CAN_FRAMEFORMAT_EXTENDED)
               then Z.lor fid CAN_MASK_EXTENDED_FRAME_BIT else fid);
            number_of_bcm_frames := n |}) /\
  (forall interval e,
     interval_seconds_useconds interval = Raise e ->
     _build_bcm_header pf op fl interval fid ff n = Raise e) /\
  (forall ms, 0 <= ms <= MAX_FRAME_CYCLETIME_MILLISECONDS ->
     exists useconds,
       (useconds = 1000 * (ms mod 1000) \/ useconds = 1000 * (ms mod 1000) - 1) /\
       interval_seconds_useconds (float_lit ms) = Ok (ms / 1000, useconds) /\
       _build_bcm_header pf op fl (float_lit ms) fid ff n =
         pack_bcm_header pf
           {| opcode := op; flags := fl; ival1_count := 0;
              ival1_seconds := 0; ival1_useconds := 0;
              ival2_seconds := ms / 1000; ival2_useconds := useconds;
              frame_id_std_ext :=
                (if bool_decide (ff = CAN_FRAMEFORMAT_EXTENDED)
                 then Z.lor fid CAN_MASK_EXTENDED_FRAME_BIT else fid);
              number_of_bcm_frames := n |}).
Proof.
  split; [|split].
  - intros interval seconds useconds H.
    destruct (interval_rounded interval seconds useconds H) as [Hsteps Hround].
    split; [exact Hsteps|]. split; [exact Hround|].
    apply _build_bcm_header_interval. exact H.
  - intros interval e H. unfold interval_seconds_useconds in H.
    unfold _build_bcm_header.
    rewrite (float_of_int_small MILLISECONDS_PER_SECOND) in H |- *
      by (vm_compute; reflexivity).
    cbn [mbind result_bind] in H. simpl_bind.
    destruct (float_truediv interval (float_lit MILLISECONDS_PER_SECOND))
      as [interval_s|e2]; cbn [mbind result_bind] in H; simpl_bind;
      [|injection H as ->; reflexivity].
    pose proof no_first_interval as H1.
    apply bind_Ok in H1 as (ival1 & Hi1 & H1).
    rewrite Hi1. simpl_bind. rewrite H1. simpl_bind. rewrite H. reflexivity.
  - intros ms Hms.
    assert (MAX_FRAME_CYCLETIME_MILLISECONDS = 60000) as Hmax by reflexivity.
    pose proof (all_from_spec _ _ 0 ms interval_split_all) as Hcheck.
    destruct (interval_split_sound ms) as (us & Hus & Hsplit).
    + rewrite Hmax in Hms. lia.
    + apply Hcheck. rewrite Z2Nat.id by (rewrite Hmax; lia). lia.
    + exists us. split; [exact Hus|]. split; [exact Hsplit|].
      apply _build_bcm_header_interval. exact Hsplit.
Qed.

Lemma bcm_interval_encoding_witness :
  (exists interval_s seconds_f,
     float_truediv (float_lit 29) (float_lit MILLISECONDS_PER_SECOND) = Ok interval_s /\
     float_lt interval_s (float_lit 0) = false /\
     math_floor interval_s = Ok 0 /\
     float_of_int 0 = Ok seconds_f /\
     int_of_float (float_mul (float_sub interval_s seconds_f)
                             (float_lit MICROSECONDS_PER_SECOND)) = Ok 29000) /\
  (exists rounded,
     rounded_useconds (float_lit 29) = Ok rounded /\
     (Z.abs rounded = Z.abs 29000 \/ Z.abs rounded = Z.abs 29000 + 1)) /\
  _build_bcm_header example_platform CAN_BCM_TX_SETUP 3 (float_lit 29) 7
      CAN_FRAMEFORMAT_STANDARD 1 =
    pack_bcm_header example_platform
      {| opcode := CAN_BCM_TX_SETUP; flags := 3; ival1_count := 0;
         ival1_seconds := 0; ival1_useconds := 0;
         ival2_seconds := 0; ival2_useconds := 29000;
         frame_id_std_ext :=
           (if bool_decide (CAN_FRAMEFORMAT_STANDARD = CAN_FRAMEFORMAT_EXTENDED)
            then Z.lor 7 CAN_MASK_EXTENDED_FRAME_BIT else 7);
         number_of_bcm_frames := 1 |}.
Proof.
  apply (proj1 (bcm_interval_encoding example_platform CAN_BCM_TX_SETUP 3 7
                  CAN_FRAMEFORMAT_STANDARD 1) (float_lit 29) 0 29000).
  vm_compute. reflexivity.
Defined.

(** C3 as stated fails: for 1001 ms the header carries 999 microseconds,
    where rounding the same float product gives 1000. An interval that is
    not finite cannot be split at all. *)
Lemma bcm_interval_counterexample :
  interval_seconds_useconds (float_lit 1001) = Ok (1, 999) /\
  rounded_useconds (float_lit 1001) = Ok 1000 /\
  (exists h,
    _build_bcm_header example_platform CAN_BCM_TX_SETUP 3 (float_lit 1001) 7
      CAN_FRAMEFORMAT_STANDARD 1 = Ok h /\
    ival2_seconds h = 1 /\ ival2_useconds h = 999) /\
  _build_bcm_header example_platform CAN_BCM_TX_SETUP 3 (S754_infinity false) 7
    CAN_FRAMEFORMAT_STANDARD 1 = Raise OverflowError.
Proof.
  split; [vm_compute; reflexivity|]. split; [vm_compute; reflexivity|].
  split; [|vm_compute; reflexivity].
  eexists {| opcode := CAN_BCM_TX_SETUP; flags := 3; ival1_count := 0;
             ival1_seconds := 0; ival1_useconds := 0;
             ival2_seconds := 1; ival2_useconds := 999;
             frame_id_std_ext := 7; number_of_bcm_frames := 1 |}.
  split; [vm_compute; reflexivity|]. split; reflexivity.
Qed.

(** ** Periodic transmission through the broadcast manager *)

Lemma pack_bcm_header_Ok (pf : platform) (h h' : bcm_header) :
  pack_bcm_header pf h = Ok h' -> h' = h.
Proof.
  unfold pack_bcm_header. intros H.
  destruct (_ && _) in H; [injection H as <-; reflexivity | discriminate].
Qed.

Lemma _build_bcm_header_Ok (pf : platform) (op : bcm_opcode) (fl : Z)
    (interval : float) (fid : Z) (ff : frame_format_t) (n : Z) (h : bcm_header) :
  _build_bcm_header pf op fl interval fid ff n = Ok h ->
  opcode h = op /\ flags h = fl /\ number_of_bcm_frames h = n /\
  ival1_count h = 0.
Proof.
  unfold _build_bcm_header. intros H.
  apply bind_Ok in H as (msec & _ & H).
  apply bind_Ok in H as (interval_s & _ & H).
  apply bind_Ok in H as (ival1 & _ & H).
  apply bind_Ok in H as ([s1 us1] & _ & H).
  apply bind_Ok in H as ([s2 us2] & _ & H).
  apply pack_bcm_header_Ok in H. subst h. repeat split.
Qed.

Lemma setup_periodic_send_Ok (pf : platform) (frame : CanFrame)
    (interval : option float) (restart_timer : bool) (d : datagram) :
  setup_periodic_send pf frame interval restart_timer = Ok d ->
  exists h raw,
    d = BcmMessage h raw /\
    get_rawframe (native_byteorder pf) frame = Ok raw /\
    opcode h = CAN_BCM_TX_SETUP /\ number_of_bcm_frames h = 1 /\
    flags h =
      Z.lor (match interval with Some _ => BCM_FLAG_SETTIMER | None => 0 end)
            (if restart_timer then BCM_FLAG_STARTTIMER else 0).
Proof.
  unfold setup_periodic_send. intros H.
  apply bind_Ok in H as ([i fl] & Hi & H).
  apply bind_Ok in H as (h & Hh & H).
  apply bind_Ok in H as (raw & Hraw & H).
  injection H as <-.
  apply _build_bcm_header_Ok in Hh as (Hop & Hfl & Hn & _).
  exists h, raw. repeat (split; [reflexivity || assumption|]).
  rewrite Hfl.
  destruct interval as [interval|].
  - apply bind_Ok in Hi as ([] & _ & Hi). injection Hi as <- <-.
    destruct restart_timer; reflexivity.
  - apply bind_Ok in Hi as (z & _ & Hi). injection Hi as <- <-.
    destruct restart_timer; reflexivity.
Qed.

Lemma bcm_send_frame_Ok (pf : platform) (frame : CanFrame) (d : datagram) :
  bcm_send_frame pf frame = Ok d ->
  exists h raw,
    d = BcmMessage h raw /\
    get_rawframe (native_byteorder pf) frame = Ok raw /\
    opcode h = CAN_BCM_TX_SEND /\ number_of_bcm_frames h = 1 /\ flags h = 0.
Proof.
  unfold bcm_send_frame. intros H.
  apply bind_Ok in H as (i & _ & H).
  apply bind_Ok in H as (h & Hh & H).
  apply bind_Ok in H as (raw & Hraw & H).
  injection H as <-.
  apply _build_bcm_header_Ok in Hh as (Hop & Hfl & Hn & _).
  exists h, raw. repeat (split; [reflexivity || assumption|]). exact Hfl.
Qed.

(** C1, as the code behaves. For a frame whose status is
    periodic-not-yet-started, the loop body of [send_signals] writes two
    messages to the socket: the [TX_SETUP] with [SETTIMER] and [STARTTIMER],
    and then a one-shot [TX_SEND] of the same frame; the status becomes
    periodic. For a frame whose status is periodic it writes exactly one
    [TX_SETUP] without flags. *)
Theorem send_signals_bcm_frame_messages (self : CanBus) (ref : Z) (frame : CanFrame)
    (framedef : CanFrameDefinition) (c : Z) (i : float) (setup update send : datagram) :
  frame_heap self !! ref = Some frame ->
  _output_framedefinition_storage self !! frame_id frame = Some framedef ->
  cycletime framedef = Some c -> float_of_int c = Ok i ->
  setup_periodic_send (host_platform self) frame (Some i) true = Ok setup ->
  setup_periodic_send (host_platform self) frame None false = Ok update ->
  bcm_send_frame (host_platform self) frame = Ok send ->
  (_transmissionstatus self !! frame_id frame = Some STATUS_PERIODIC_NOT_YET_STARTED ->
   exists self' hsetup hsend raw,
     send_signals_bcm_frame self ref = (self', Ok tt) /\
     socket_log self' = socket_log self ++ [BcmMessage hsetup raw; BcmMessage hsend raw] /\
     opcode hsetup = CAN_BCM_TX_SETUP /\
     flags hsetup = Z.lor BCM_FLAG_SETTIMER BCM_FLAG_STARTTIMER /\
     opcode hsend = CAN_BCM_TX_SEND /\
     _transmissionstatus self' !! frame_id frame = Some STATUS_PERIODIC) /\
  (_transmissionstatus self !! frame_id frame = Some STATUS_PERIODIC ->
   exists self' hupdate raw,
     send_signals_bcm_frame self ref = (self', Ok tt) /\
     socket_log self' = socket_log self ++ [BcmMessage hupdate raw] /\
     opcode hupdate = CAN_BCM_TX_SETUP /\ flags hupdate = 0 /\
     _transmissionstatus self' = _transmissionstatus self).
Proof.
  intros Hframe Hdef Hcycle Hi Hsetup Hupdate Hsend.
  destruct (setup_periodic_send_Ok _ _ _ _ _ Hsetup)
    as (hsetup & raw & -> & Hraw & Hop1 & _ & Hfl1).
  destruct (setup_periodic_send_Ok _ _ _ _ _ Hupdate)
    as (hupdate & raw2 & -> & Hraw2 & Hop2 & _ & Hfl2).
  destruct (bcm_send_frame_Ok _ _ _ Hsend) as (hsend & raw3 & -> & Hraw3 & Hop3 & _ & _).
  rewrite Hraw in Hraw2, Hraw3. injection Hraw2 as <-. injection Hraw3 as <-.
  split; intros Hstatus.
  - unfold send_signals_bcm_frame. rewrite Hframe, Hstatus.
    rewrite bool_decide_eq_true_2 by reflexivity.
    rewrite Hdef, Hcycle, Hi. simpl_bind. rewrite Hsetup.
    cbn [socket_send]. rewrite bool_decide_eq_false_2 by discriminate.
    cbn [with_transmissionstatus with_socket_log host_platform]. rewrite Hsend.
    cbn [socket_send with_socket_log socket_log _transmissionstatus].
    eexists _, hsetup, hsend, raw. split; [reflexivity|].
    cbn [socket_log _transmissionstatus with_transmissionstatus with_socket_log].
    split; [rewrite <- app_assoc; reflexivity|]. split; [exact Hop1|]. split; [exact Hfl1|].
    split; [exact Hop3|]. apply lookup_insert_eq.
  - unfold send_signals_bcm_frame. rewrite Hframe, Hstatus.
    rewrite bool_decide_eq_false_2 by discriminate.
    rewrite bool_decide_eq_true_2 by reflexivity.
    rewrite Hupdate. cbn [socket_send].
    eexists _, hupdate, raw. split; [reflexivity|].
    cbn [with_socket_log socket_log _transmissionstatus].
    split; [reflexivity|]. split; [exact Hop2|]. split; [exact Hfl2|]. reflexivity.
Qed.

Lemma send_signals_bcm_frame_messages_witness :
  exists self' hsetup hsend raw,
    send_signals_bcm_frame periodic_bus 7 = (self', Ok tt) /\
    socket_log self' =
      socket_log periodic_bus ++ [BcmMessage hsetup raw; BcmMessage hsend raw] /\
    opcode hsetup = CAN_BCM_TX_SETUP /\
    flags hsetup = Z.lor BCM_FLAG_SETTIMER BCM_FLAG_STARTTIMER /\
    opcode hsend = CAN_BCM_TX_SEND /\
    _transmissionstatus self' !! 7 = Some STATUS_PERIODIC.
Proof.
  eapply (proj1 (send_signals_bcm_frame_messages periodic_bus 7
                   {| frame_id := 7; frame_data := replicate 8 NULL_BYTE;
                      frame_format := CAN_FRAMEFORMAT_STANDARD |}
                   periodic_framedef 20 (float_lit 20) _ _ _ _ _ _ _ _ _ _)).
  vm_compute. reflexivity.
  Unshelve.
  all: try (vm_compute; reflexivity).
Defined.

(** The bus of the example is what [CanBus.__init__] constructs, and two
    calls of [send_signals] on it write three messages: a [TX_SETUP] with
    both timer flags and 20000 microseconds, a [TX_SEND], and for the second
    call one [TX_SETUP] without flags. *)
Lemma periodic_bus_send_signals :
  new_CanBus example_platform periodic_configuration true = Ok periodic_bus /\
  exists bus1 bus2 h1 h2 h3 raw1 raw2,
    send_signals periodic_bus [("testsignal1", Some (float_lit 1))] = (bus1, Ok tt) /\
    socket_log bus1 = [BcmMessage h1 raw1; BcmMessage h2 raw1] /\
    (opcode h1, flags h1, ival2_seconds h1, ival2_useconds h1)
      = (CAN_BCM_TX_SETUP, 3, 0, 20000) /\
    (opcode h2, flags h2) = (CAN_BCM_TX_SEND, 0) /\
    send_signals bus1 [("testsignal1", Some (float_lit 0))] = (bus2, Ok tt) /\
    socket_log bus2 = socket_log bus1 ++ [BcmMessage h3 raw2] /\
    (opcode h3, flags h3) = (CAN_BCM_TX_SETUP, 0).
Proof.
  split; [vm_compute; reflexivity|].
  pose (r1 := send_signals periodic_bus [("testsignal1", Some (float_lit 1))]).
  pose (r2 := send_signals (fst r1) [("testsignal1", Some (float_lit 0))]).
  exists (fst r1), (fst r2).
  pose (hdr := fun d => match d with BcmMessage h _ => Some h | RawMessage _ => None end).
  pose (raw := fun d => match d with BcmMessage _ r => r | RawMessage r => r end).
  pose (dummy := {| opcode := CAN_BCM_TX_DELETE; flags := 0; ival1_count := 0;
                    ival1_seconds := 0; ival1_useconds := 0; ival2_seconds := 0;
                    ival2_useconds := 0; frame_id_std_ext := 0;
                    number_of_bcm_frames := 0 |}).
  exists (default dummy (socket_log (fst r2) !! 0%nat ≫= hdr)),
         (default dummy (socket_log (fst r2) !! 1%nat ≫= hdr)),
         (default dummy (socket_log (fst r2) !! 2%nat ≫= hdr)),
         (default [] (raw <$> socket_log (fst r2) !! 0%nat)),
         (default [] (raw <$> socket_log (fst r2) !! 2%nat)).
  vm_compute. repeat split.
Qed.

(** * Further properties of the code *)

(** ** utilities.py *)

(** X1. The two conversions between normal and backward bit numbers are
    inverse to each other on the bit numbers 0..63, stay within 0..63, and
    raise a [CanException] for every other number. *)
Theorem bitnumber_conversions_inverse (n : Z) :
  (0 <= n <= 63 ->
   exists b,
     calculate_backward_bitnumber n = Ok b /\ 0 <= b <= 63 /\
     calculate_normal_bitnumber b = Ok n /\
     calculate_normal_bitnumber n = Ok b /\
     calculate_backward_bitnumber b = Ok n) /\
  (n < 0 ->
   calculate_backward_bitnumber n = Raise (CanException NormalBitnumberTooSmall) /\
   calculate_normal_bitnumber n = Raise (CanException BackwardBitnumberTooSmall)) /\
  (63 < n ->
   calculate_backward_bitnumber n = Raise (CanException NormalBitnumberTooLarge) /\
   calculate_normal_bitnumber n = Raise (CanException BackwardBitnumberTooLarge)).
Proof.
  split; [|split].
  - intros Hn. exists (backward_bitnumber n).
    pose proof (backward_bitnumber_range n Hn) as Hb.
    rewrite !calculate_backward_bitnumber_Ok, !calculate_normal_bitnumber_Ok by assumption.
    rewrite backward_bitnumber_involutive. repeat split; try reflexivity; lia.
  - intros Hn. unfold calculate_backward_bitnumber, calculate_normal_bitnumber.
    assert ((n <? 0) = true) as -> by (apply Z.ltb_lt; lia). split; reflexivity.
  - intros Hn. unfold calculate_backward_bitnumber, calculate_normal_bitnumber.
    assert ((n <? 0) = false) as -> by (apply Z.ltb_ge; lia).
    assert ((n >? BITS_IN_FULL_DATA - 1) = true) as ->
      by (rewrite Z.gtb_ltb; apply Z.ltb_lt;
          change BITS_IN_FULL_DATA with 64; lia).
    split; reflexivity.
Qed.

Lemma bitnumber_conversions_inverse_witness :
  exists b,
    calculate_backward_bitnumber 9 = Ok b /\ 0 <= b <= 63 /\
    calculate_normal_bitnumber b = Ok 9 /\
    calculate_normal_bitnumber 9 = Ok b /\
    calculate_backward_bitnumber b = Ok 9.
Proof. apply (proj1 (bitnumber_conversions_inverse 9)). lia. Defined.

(** X2. Two's complement: for a width of at least one bit, a value that the
    width can hold is encoded as a number below [2 ^ bits] from which
    [from_twos_complement] recovers it; a value that the width cannot hold
    raises a [CanException]. *)
Theorem twos_complement_inverse (value bits : Z) :
  1 <= bits ->
  (- 2 ^ (bits - 1) <= value <= 2 ^ (bits - 1) - 1 ->
   exists encoded,
     twos_complement value bits = Ok encoded /\ 0 <= encoded < 2 ^ bits /\
     encoded = value mod 2 ^ bits /\
     from_twos_complement encoded bits = Ok value) /\
  (value < - 2 ^ (bits - 1) \/ 2 ^ (bits - 1) - 1 < value ->
   twos_complement value bits = Raise (CanException WrongTwosComplementValue)).
Proof.
  intros Hbits. split.
  - intros Hv.
    destruct (twos_complement_roundtrip value bits Hbits ltac:(lia)) as (v & Htc & Hr & Hback).
    exists v. repeat (split; [assumption || lia|]). split; [|exact Hback].
    assert (2 ^ bits = 2 * 2 ^ (bits - 1)) as Hpow.
    { rewrite <- Z.pow_succ_r by lia. f_equal. lia. }
    unfold twos_complement in Htc.
    destruct ((value >? 2 ^ (bits - 1) - 1) || (value <? - 2 ^ (bits - 1)));
      [discriminate|].
    destruct (Z.geb_spec value 0) as [Hge | Hlt]; injection Htc as <-.
    + symmetry. apply Z.mod_small. lia.
    + apply (Z.mod_unique _ _ (-1)); lia.
  - intros Hv. unfold twos_complement.
    destruct Hv as [Hv | Hv].
    + assert ((value <? - 2 ^ (bits - 1)) = true) as -> by (apply Z.ltb_lt; lia).
      rewrite orb_true_r. reflexivity.
    + assert ((value >? 2 ^ (bits - 1) - 1) = true) as ->
        by (rewrite Z.gtb_ltb; apply Z.ltb_lt; lia).
      reflexivity.
Qed.

Lemma twos_complement_inverse_witness :
  exists encoded,
    twos_complement (-3) 8 = Ok encoded /\ 0 <= encoded < 2 ^ 8 /\
    encoded = (-3) mod 2 ^ 8 /\
    from_twos_complement encoded 8 = Ok (-3).
Proof.
  apply (proj1 (twos_complement_inverse (-3) 8 ltac:(lia))). simpl. lia.
Defined.

(** X3. The frame data and the 64-bit frame integer: [can_bytes_to_int]
    accepts up to eight bytes and gives a number below [2 ^ 64] from which
    [int_to_can_bytes], with the same length, gives the bytes back; more
    than eight bytes fail an assertion. *)
Theorem can_bytes_int_inverse (data : list byte) :
  ((length data <= 8)%nat ->
   exists x,
     can_bytes_to_int data = Ok x /\ 0 <= x < 2 ^ 64 /\
     int_to_can_bytes (Z.of_nat (length data)) x = Ok data) /\
  ((8 < length data)%nat -> can_bytes_to_int data = Raise AssertionError).
Proof.
  split.
  - intros Hlen. exists (frame_integer data).
    pose proof (frame_integer_range data Hlen) as Hr.
    split; [apply can_bytes_to_int_Ok; exact Hlen|]. split; [exact Hr|].
    rewrite int_to_can_bytes_Ok by lia. rewrite Nat2Z.id. f_equal.
    unfold frame_integer.
    pose proof (Z_to_be_bytes_of_bytes (ljust data MAX_NUMBER_OF_CAN_DATA_BYTES NULL_BYTE)) as H.
    rewrite length_ljust in H by (unfold MAX_NUMBER_OF_CAN_DATA_BYTES; lia).
    change (Z.to_nat MAX_NUMBER_OF_CAN_DATA_BYTES) with 8%nat in H. rewrite H.
    unfold ljust. apply take_app_length.
  - intros Hlen. unfold can_bytes_to_int.
    assert ((Z.of_nat (length data) <=? MAX_NUMBER_OF_CAN_DATA_BYTES) = false) as ->
      by (apply Z.leb_gt; unfold MAX_NUMBER_OF_CAN_DATA_BYTES; lia).
    reflexivity.
Qed.

Lemma can_bytes_int_inverse_witness :
  exists x,
    can_bytes_to_int [x12; x34; x56] = Ok x /\ 0 <= x < 2 ^ 64 /\
    int_to_can_bytes (Z.of_nat (length [x12; x34; x56])) x = Ok [x12; x34; x56].
Proof.
  apply (proj1 (can_bytes_int_inverse [x12; x34; x56])). simpl. lia.
Defined.

(** X4. Shifting a bus value to its place in the frame and extracting it
    again: for every layout that fits into the 64 bits and every bus value
    below [2 ^ numberofbits], the eight bytes of the shifted value give the
    bus value back, for both byte orders. *)
Theorem busvalue_shiftedvalue_inverse (e : endianness_t) (start n v : Z) :
  field_fits e start n -> 0 <= v < 2 ^ n ->
  exists shifted data,
    get_shiftedvalue_from_busvalue v e n start = Ok shifted /\
    int_to_can_bytes 8 shifted = Ok data /\ length data = 8%nat /\
    get_busvalue_from_bytes data e n start = Ok v.
Proof.
  intros Hfit Hv.
  destruct (shifted_value_testbit e v n start Hfit Hv) as (s & Hs & Hsr & Hsbits).
  exists s, (Z_to_be_bytes 8 s).
  split; [exact Hs|].
  split; [rewrite int_to_can_bytes_Ok by lia; reflexivity|].
  split; [apply length_Z_to_be_bytes|].
  assert (frame_integer (Z_to_be_bytes 8 s) = s) as Hint.
  { unfold frame_integer. rewrite ljust_full
      by (rewrite length_Z_to_be_bytes; unfold MAX_NUMBER_OF_CAN_DATA_BYTES; lia).
    apply be_bytes_to_Z_to_be_bytes. exact Hsr. }
  assert (field_minimum_dlc e start n <= 8) as Hdlc.
  { destruct Hfit as (Hstart & Hn & Hend).
    unfold field_minimum_dlc. destruct e.
    - pose proof (div8_bounds (start + n - 1) ltac:(lia)). lia.
    - pose proof (div8_bounds start ltac:(lia)). lia. }
  destruct (busvalue_testbit e (Z_to_be_bytes 8 s) n start Hfit)
    as (v' & Hget & Hv' & Hbits).
  { rewrite length_Z_to_be_bytes. lia. }
  rewrite Hget. f_equal. apply Z.bits_inj'. intros j Hj.
  rewrite Hbits, Hint by exact Hj.
  destruct (Z.ltb_spec j n) as [Hlt | Hge]; cbn [andb].
  - rewrite Hsbits by (apply (field_position_range e start n); [assumption | lia]).
    rewrite field_index_position. reflexivity.
  - symmetry. apply (testbit_high_of_lt_pow2 v n); assumption.
Qed.

Lemma busvalue_shiftedvalue_inverse_witness :
  exists shifted data,
    get_shiftedvalue_from_busvalue 1000 LITTLE_ENDIAN 12 21 = Ok shifted /\
    int_to_can_bytes 8 shifted = Ok data /\ length data = 8%nat /\
    get_busvalue_from_bytes data LITTLE_ENDIAN 12 21 = Ok 1000.
Proof.
  apply (busvalue_shiftedvalue_inverse LITTLE_ENDIAN 21 12 1000).
  - unfold field_fits. lia.
  - simpl. lia.
Defined.

Lemma math_floor_lit (k : Z) :
  Z.abs k < 2 ^ 53 -> math_floor (float_lit k) = Ok k.
Proof.
  intros Hk. destruct (Z.eq_dec k 0) as [-> | Hnz]; [reflexivity|].
  pose proof (int_of_float_lit k Hk) as Hint.
  destruct (float_lit_canonical k Hnz Hk) as (s & m & e & Hlit & _ & He).
  pose proof (float_lit_small k Hnz Hk) as Hsmall. rewrite Hlit in Hsmall.
  injection Hsmall as Hsign Hm Hexp.
  pose proof (shift_to_53_spec (Z.to_pos (Z.abs k)) ltac:(lia)) as (Hval & _).
  rewrite <- Hm, <- Hexp in Hval.
  rewrite Z2Pos.id in Hval by lia.
  rewrite Hlit in Hint |- *. cbn [math_floor int_of_float] in Hint |- *.
  destruct (Z.leb_spec 0 e) as [He0 | He0].
  - destruct s; injection Hint as Hint; f_equal; lia.
  - destruct s; injection Hint as Hint; f_equal; [|exact Hint].
    assert (0 < 2 ^ (- e)) as Hpow by (apply Z.pow_pos_nonneg; lia).
    assert (Z.pos m mod 2 ^ (- e) = 0) as Hmod.
    { symmetry. apply Z.mod_unique with (q := Z.abs k); lia. }
    change (Z.neg m) with (- Z.pos m).
    rewrite Z.div_opp_l_z by (try exact Hmod; lia). exact Hint.
Qed.

(** X5. [split_seconds_to_full_and_part] raises a [CanException] for a
    negative time, and splits a whole number of seconds into these seconds
    and no microseconds. *)
Theorem split_seconds_whole (x : float) (n : Z) :
  (float_lt x (float_lit 0) = true ->
   split_seconds_to_full_and_part x = Raise (CanException InvalidTimeInterval)) /\
  (0 <= n < 2 ^ 53 -> split_seconds_to_full_and_part (float_lit n) = Ok (n, 0)).
Proof.
  split.
  - intros Hneg. unfold split_seconds_to_full_and_part. rewrite Hneg. reflexivity.
  - intros Hn. unfold split_seconds_to_full_and_part.
    rewrite float_lt_lit by (simpl; lia).
    assert ((n <? 0) = false) as -> by (apply Z.ltb_ge; lia).
    rewrite (math_floor_lit n) by lia. simpl_bind.
    rewrite (float_of_int_small n) by lia. simpl_bind.
    change (float_of_int MICROSECONDS_PER_SECOND)
      with (Ok (float_lit MICROSECONDS_PER_SECOND)). simpl_bind.
    rewrite float_sub_diag.
    + reflexivity.
    + destruct (Z.eq_dec n 0) as [-> | Hnz]; [reflexivity|].
      rewrite float_lit_small by lia. reflexivity.
Qed.

Lemma split_seconds_whole_witness :
  split_seconds_to_full_and_part (float_lit (-1))
    = Raise (CanException InvalidTimeInterval) /\
  split_seconds_to_full_and_part (float_lit 3) = Ok (3, 0).
Proof.
  split.
  - apply (proj1 (split_seconds_whole (float_lit (-1)) 0)). reflexivity.
  - apply (proj2 (split_seconds_whole (float_lit 0) 3)). simpl. lia.
Defined.

(** *** The order of floats *)

Lemma float_lt_irrefl (x : float) : float_lt x x = false.
Proof.
  unfold float_lt, SFltb, SFcompare.
  destruct x as [s|s| |s m e]; try reflexivity.
  - destruct s; reflexivity.
  - rewrite Z.compare_refl.
    change (Pos.compare_cont Eq m m) with (Pos.compare m m).
    rewrite Pos.compare_refl. destruct s; reflexivity.
Qed.

Lemma float_lt_asym (x y : float) : float_lt x y = true -> float_lt y x = false.
Proof.
  unfold float_lt, SFltb, SFcompare.
  destruct x as [s1|s1| |s1 m1 e1], y as [s2|s2| |s2 m2 e2];
    try (destruct s1); try (destruct s2); try reflexivity; try discriminate.
  - rewrite (Z.compare_antisym e1 e2).
    change (Pos.compare_cont Eq m2 m1) with (Pos.compare m2 m1).
    change (Pos.compare_cont Eq m1 m2) with (Pos.compare m1 m2).
    rewrite (Pos.compare_antisym m1 m2).
    destruct (e1 ?= e2); cbn [CompOpp]; try reflexivity; try discriminate.
    destruct (m1 ?= m2)%positive; cbn [CompOpp]; try reflexivity; discriminate.
  - rewrite (Z.compare_antisym e1 e2).
    change (Pos.compare_cont Eq m2 m1) with (Pos.compare m2 m1).
    change (Pos.compare_cont Eq m1 m2) with (Pos.compare m1 m2).
    rewrite (Pos.compare_antisym m1 m2).
    destruct (e1 ?= e2); cbn [CompOpp]; try reflexivity; try discriminate.
    destruct (m1 ?= m2)%positive; cbn [CompOpp]; try reflexivity; discriminate.
Qed.

Lemma limit_to_min_max_bounds (sd : CanSignalDefinition) (x : float) :
  (forall upper, maxvalue sd = Some upper ->
     float_lt upper (limit_to_min_max sd x) = false) /\
  (forall lower, minvalue sd = Some lower ->
     (forall upper, maxvalue sd = Some upper -> float_lt upper lower = false) ->
     float_lt (limit_to_min_max sd x) lower = false).
Proof.
  unfold limit_to_min_max. split.
  - intros upper ->. unfold py_min.
    match goal with |- context [float_lt ?y upper] => destruct (float_lt y upper) eqn:Hlt end.
    + apply float_lt_asym. exact Hlt.
    + apply float_lt_irrefl.
  - intros lower -> Hupper.
    assert (float_lt (py_max lower x) lower = false) as Hmax.
    { unfold py_max. destruct (float_lt lower x) eqn:Hlt.
      - apply float_lt_asym. exact Hlt.
      - apply float_lt_irrefl. }
    destruct (maxvalue sd) as [upper|]; [|exact Hmax].
    unfold py_min at 1.
    destruct (float_lt (py_max lower x) upper); [exact Hmax|].
    apply Hupper. reflexivity.
Qed.

(** ** canframe.py *)

(** X6. A value that [get_signalvalue] returns is never above [maxvalue],
    and never below [minvalue] unless [maxvalue] is below [minvalue]. *)
Theorem get_signalvalue_within_limits (f : CanFrame) (sd : CanSignalDefinition)
    (v : float) :
  get_signalvalue f sd = Ok v ->
  (forall upper, maxvalue sd = Some upper -> float_lt upper v = false) /\
  (forall lower, minvalue sd = Some lower ->
     (forall upper, maxvalue sd = Some upper -> float_lt upper lower = false) ->
     float_lt v lower = false).
Proof.
  unfold get_signalvalue. intros H.
  apply bind_Ok in H as (unpacked & _ & H). injection H as <-.
  apply limit_to_min_max_bounds.
Qed.

Lemma get_signalvalue_within_limits_witness :
  (forall upper, maxvalue limited_signal = Some upper ->
     float_lt upper (float_lit 100) = false) /\
  (forall lower, minvalue limited_signal = Some lower ->
     (forall upper, maxvalue limited_signal = Some upper -> float_lt upper lower = false) ->
     float_lt (float_lit 100) lower = false).
Proof.
  apply (get_signalvalue_within_limits
           {| frame_id := 1; frame_data := [xc8; x00; x00; x00; x00; x00; x00; x00];
              frame_format := CAN_FRAMEFORMAT_STANDARD |} limited_signal (float_lit 100)).
  vm_compute. reflexivity.
Defined.

Lemma signal_occupies_field (sd : CanSignalDefinition) (p : Z) :
  signal_layout_ok sd = true -> 0 <= p < 64 ->
  signal_occupies sd p =
    (0 <=? field_index (endianness sd) (startbit sd) p)
    && (field_index (endianness sd) (startbit sd) p <? numberofbits sd).
Proof.
  intros Hok Hp. unfold signal_occupies.
  destruct (signal_bitmask_testbit sd Hok) as (m & -> & _ & Hbits).
  apply Hbits. exact Hp.
Qed.

Lemma double_occupies_all (sd : CanSignalDefinition) (p : Z) :
  signal_layout_ok sd = true -> signaltype sd = CAN_SIGNALTYPE_DOUBLE ->
  0 <= p < 64 -> signal_occupies sd p = true.
Proof.
  intros Hok Hty Hp. rewrite signal_occupies_field by assumption.
  pose proof (signal_layout_ok_fits sd Hok) as ((Hs & Hn & Hfit) & _ & Hdouble).
  rewrite (Hdouble Hty) in *. unfold field_index.
  pose proof (backward_bitnumber_range p ltac:(lia)) as Hbp.
  pose proof (backward_bitnumber_range (startbit sd) Hs) as Hbs.
  apply andb_true_iff.
  destruct (endianness sd); split; try apply Z.leb_le; try apply Z.ltb_lt; lia.
Qed.

(** The bits that a successful [set_signalvalue] leaves alone, in terms of
    [signal_occupies]. *)
Lemma set_signalvalue_frame_bits (f f' : CanFrame) (sd : CanSignalDefinition)
    (value : option float) :
  signal_layout_ok sd = true ->
  (length (frame_data f) <= 8)%nat ->
  set_signalvalue f sd value = Ok f' ->
  length (frame_data f') = length (frame_data f) /\
  get_minimum_dlc sd <= Z.of_nat (length (frame_data f)) /\
  forall p, 0 <= p < 64 -> signal_occupies sd p = false ->
    Z.testbit (frame_integer (frame_data f')) p =
    Z.testbit (frame_integer (frame_data f)) p.
Proof.
  intros Hok Hlen Hset.
  unfold set_signalvalue in Hset.
  apply bind_Ok in Hset as ([] & Hdlc & Hset).
  apply raise_if_Ok in Hdlc. rewrite Z.gtb_ltb in Hdlc. apply Z.ltb_ge in Hdlc.
  apply bind_Ok in Hset as (pv & _ & Hset).
  apply bind_Ok in Hset as (scaled & _ & Hset).
  assert (forall bv, bus_value_of_scaled sd scaled = Ok bv ->
            write_bus_value f sd bv = Ok f' ->
            length (frame_data f') = length (frame_data f) /\
            get_minimum_dlc sd <= Z.of_nat (length (frame_data f)) /\
            forall p, 0 <= p < 64 -> signal_occupies sd p = false ->
              Z.testbit (frame_integer (frame_data f')) p =
              Z.testbit (frame_integer (frame_data f)) p) as Hfield.
  { intros bv Hbv Hw. apply bus_value_of_scaled_range in Hbv.
    destruct (write_bus_value_testbit f sd bv Hok ltac:(lia) ltac:(lia))
      as (f2 & Hw2 & _ & _ & Hl & Hbits).
    rewrite Hw in Hw2. injection Hw2 as <-.
    split; [exact Hl|]. split; [exact Hdlc|].
    intros p Hp Hfree. rewrite Hbits by exact Hp. cbv zeta.
    rewrite signal_occupies_field in Hfree by assumption. rewrite Hfree. reflexivity. }
  destruct (signaltype sd) eqn:Hty.
  - apply bind_Ok in Hset as (bv & Hbv & Hw). eauto.
  - apply bind_Ok in Hset as (bv & Hbv & Hw). eauto.
  - apply bind_Ok in Hset as (bv & Hbv & Hw). eauto.
  - pose proof (double_takes_whole_frame sd Hok Hty) as Hwhole.
    assert (forall d, length d = 8%nat -> set_frame_data f d = Ok f' ->
              length (frame_data f') = length (frame_data f)) as Hsetd.
    { intros d Hd Hs. unfold set_frame_data, check_frame_data in Hs.
      apply bind_Ok in Hs as ([] & _ & Hs). injection Hs as <-. simpl. lia. }
    split.
    { destruct (endianness sd).
      - apply (Hsetd _ (length_pack_double_le scaled) Hset).
      - apply (Hsetd _ (length_pack_double_be scaled) Hset). }
    split; [lia|].
    intros p Hp Hfree. rewrite double_occupies_all in Hfree by assumption.
    discriminate.
Qed.

(** X7. Independence of signals, in terms of values: when the signal [A]
    is set in a frame, the value that [get_signalvalue] finds for a signal
    [B] that shares no bit with [A] is the same as before. *)
Theorem set_signalvalue_keeps_other_signals (f f' : CanFrame)
    (A B : CanSignalDefinition) (value : option float) :
  signal_layout_ok A = true -> signal_layout_ok B = true ->
  (length (frame_data f) <= 8)%nat ->
  get_minimum_dlc B <= Z.of_nat (length (frame_data f)) ->
  (forall p, 0 <= p < 64 -> signal_occupies B p = true -> signal_occupies A p = false) ->
  set_signalvalue f A value = Ok f' ->
  get_signalvalue f' B = get_signalvalue f B.
Proof.
  intros HA HB Hlen HdlcB Hdisjoint Hset.
  destruct (set_signalvalue_frame_bits f f' A value HA Hlen Hset) as (Hl & HdlcA & Hbits).
  pose proof (signal_layout_ok_fits A HA) as (HfitA & _).
  pose proof (signal_layout_ok_fits B HB) as (HfitB & _).
  destruct (decide (signaltype B = CAN_SIGNALTYPE_DOUBLE)) as [Hdouble | Hother].
  - (* a double shares a bit with every other signal *)
    exfalso.
    pose proof (field_position_range _ _ _ 0 HfitA ltac:(destruct HfitA; lia)) as Hp.
    specialize (Hdisjoint _ Hp (double_occupies_all B _ HB Hdouble Hp)).
    rewrite signal_occupies_field in Hdisjoint by assumption.
    rewrite field_index_position in Hdisjoint.
    destruct HfitA as (_ & Hn & _).
    apply andb_false_iff in Hdisjoint as [H | H];
      [apply Z.leb_gt in H | apply Z.ltb_ge in H]; lia.
  - rewrite get_minimum_dlc_field in HdlcB.
    destruct (busvalue_testbit (endianness B) (frame_data f) (numberofbits B) (startbit B)
                HfitB ltac:(lia)) as (v & Hv & Hvr & Hvbits).
    destruct (busvalue_testbit (endianness B) (frame_data f') (numberofbits B) (startbit B)
                HfitB ltac:(lia)) as (v' & Hv' & Hvr' & Hvbits').
    assert (v' = v) as ->.
    { apply Z.bits_inj'. intros j Hj. rewrite Hvbits, Hvbits' by exact Hj.
      destruct (Z.ltb_spec j (numberofbits B)) as [Hlt | Hge]; [|reflexivity].
      cbn [andb].
      pose proof (field_position_range _ _ _ j HfitB ltac:(lia)) as Hp.
      apply Hbits; [exact Hp|]. apply Hdisjoint; [exact Hp|].
      rewrite signal_occupies_field, field_index_position by assumption.
      apply andb_true_iff. split; [apply Z.leb_le | apply Z.ltb_lt]; lia. }
    unfold get_signalvalue.
    destruct (signaltype B); try (rewrite Hv, Hv'; reflexivity).
    contradiction.
Qed.

Lemma set_signalvalue_keeps_other_signals_witness :
  get_signalvalue
    {| frame_id := 1; frame_data := [x00; x05; x00; x08; x00; x00; x00; xff];
       frame_format := CAN_FRAMEFORMAT_STANDARD |} testsignal3
  = get_signalvalue testframe1 testsignal3.
Proof.
  apply (set_signalvalue_keeps_other_signals testframe1 _ testsignal2 testsignal3
           (Some (float_lit 5))).
  - reflexivity.
  - reflexivity.
  - simpl. lia.
  - vm_compute. discriminate.
  - intros p Hp.
    assert (forallb (fun p => implb (signal_occupies testsignal3 p)
                                    (negb (signal_occupies testsignal2 p)))
                    (seqZ 0 64) = true) as Hall by (vm_compute; reflexivity).
    pose proof (forallb_seqZ _ 0 64 Hall p Hp) as H. cbv beta in H.
    destruct (signal_occupies testsignal3 p), (signal_occupies testsignal2 p);
      try discriminate H; intros; reflexivity || discriminate.
  - vm_compute. reflexivity.
Defined.

Lemma set_frame_data_Ok (f f' : CanFrame) (d : list byte) :
  set_frame_data f d = Ok f' ->
  frame_id f' = frame_id f /\ frame_format f' = frame_format f /\ frame_data f' = d /\
  (length d <= 8)%nat.
Proof.
  unfold set_frame_data, check_frame_data. intros H.
  apply bind_Ok in H as ([] & Hlen & H). injection H as <-.
  apply raise_if_Ok in Hlen. rewrite Z.gtb_ltb in Hlen. apply Z.ltb_ge in Hlen.
  unfold MAX_NUMBER_OF_CAN_DATA_BYTES in Hlen. cbn. repeat split. lia.
Qed.

Lemma set_signalvalue_id_format (f f' : CanFrame) (sd : CanSignalDefinition)
    (value : option float) :
  set_signalvalue f sd value = Ok f' ->
  frame_id f' = frame_id f /\ frame_format f' = frame_format f /\
  (length (frame_data f') <= 8)%nat.
Proof.
  unfold set_signalvalue. intros H.
  apply bind_Ok in H as ([] & _ & H).
  apply bind_Ok in H as (pv & _ & H).
  apply bind_Ok in H as (scaled & _ & H).
  assert (forall bv, write_bus_value f sd bv = Ok f' ->
            frame_id f' = frame_id f /\ frame_format f' = frame_format f /\
            (length (frame_data f') <= 8)%nat) as Hw.
  { unfold write_bus_value. intros bv Hw.
    apply bind_Ok in Hw as (bitvalues & _ & Hw).
    apply bind_Ok in Hw as (mask & _ & Hw).
    apply bind_Ok in Hw as (dataint & _ & Hw).
    apply bind_Ok in Hw as (new_data & _ & Hw).
    apply set_frame_data_Ok in Hw as (? & ? & -> & ?). auto. }
  destruct (signaltype sd).
  1-3: apply bind_Ok in H as (bv & _ & H); apply (Hw bv H).
  destruct (endianness sd); apply set_frame_data_Ok in H as (? & ? & -> & ?); auto.
Qed.

Lemma frame_data_of_integer (d1 d2 : list byte) :
  (length d1 <= 8)%nat -> length d1 = length d2 ->
  frame_integer d1 = frame_integer d2 -> d1 = d2.
Proof.
  intros Hlen Hl Hint.
  assert (forall d : list byte, (length d <= 8)%nat ->
            take (length d) (Z_to_be_bytes 8 (frame_integer d)) = d) as Hback.
  { intros d Hd. unfold frame_integer.
    pose proof (Z_to_be_bytes_of_bytes (ljust d MAX_NUMBER_OF_CAN_DATA_BYTES NULL_BYTE)) as H.
    rewrite length_ljust in H by (unfold MAX_NUMBER_OF_CAN_DATA_BYTES; lia).
    change (Z.to_nat MAX_NUMBER_OF_CAN_DATA_BYTES) with 8%nat in H. rewrite H.
    unfold ljust. apply take_app_length. }
  rewrite <- (Hback d1 Hlen), <- (Hback d2 ltac:(lia)), Hint, Hl. reflexivity.
Qed.

(** X8. The last write wins: setting a signal twice in a frame gives the
    frame that the second assignment alone gives. *)
Theorem set_signalvalue_last_write_wins (f f1 f2 : CanFrame)
    (sd : CanSignalDefinition) (v1 v2 : option float) :
  signal_layout_ok sd = true ->
  (length (frame_data f) <= 8)%nat ->
  set_signalvalue f sd v1 = Ok f1 ->
  set_signalvalue f1 sd v2 = Ok f2 ->
  set_signalvalue f sd v2 = Ok f2.
Proof.
  intros Hok Hlen H1 H2.
  destruct (set_signalvalue_frame_bits f f1 sd v1 Hok Hlen H1) as (Hl1 & Hdlc & Hbits1).
  destruct (set_signalvalue_id_format f f1 sd v1 H1) as (Hid1 & Hfmt1 & _).
  unfold set_signalvalue in H2 |- *.
  rewrite Hl1 in H2.
  destruct (raise_if _ _) as [[]|]; [|discriminate H2]. simpl_bind. cbn [mbind result_bind] in H2.
  destruct (value_to_encode sd v2) as [pv|]; [|discriminate H2].
  simpl_bind. cbn [mbind result_bind] in H2.
  destruct (float_truediv _ _) as [scaled|]; [|discriminate H2].
  simpl_bind. cbn [mbind result_bind] in H2.
  assert (forall bv, bus_value_of_scaled sd scaled = Ok bv ->
            write_bus_value f1 sd bv = Ok f2 -> write_bus_value f sd bv = Ok f2) as Hw.
  { intros bv Hbv Hw1. apply bus_value_of_scaled_range in Hbv.
    destruct (write_bus_value_testbit f1 sd bv Hok ltac:(lia) ltac:(lia))
      as (g1 & Hg1 & Hg1id & Hg1fmt & Hg1l & Hg1bits).
    rewrite Hw1 in Hg1. injection Hg1 as <-.
    destruct (write_bus_value_testbit f sd bv Hok ltac:(lia) ltac:(lia))
      as (g & Hg & Hgid & Hgfmt & Hgl & Hgbits).
    rewrite Hg. f_equal.
    assert (frame_data g = frame_data f2) as Hdata.
    { apply frame_data_of_integer; [lia | lia |].
      apply Z.bits_inj'. intros p Hp.
      destruct (Z_lt_dec p 64) as [Hp64 | Hp64].
      - rewrite Hgbits, Hg1bits by lia. cbv zeta.
        destruct ((0 <=? field_index (endianness sd) (startbit sd) p)
                  && (field_index (endianness sd) (startbit sd) p <? numberofbits sd))
          eqn:Hin; [reflexivity|].
        symmetry. apply Hbits1; [lia|].
        rewrite signal_occupies_field by (assumption || lia). exact Hin.
      - rewrite !frame_integer_testbit_high by lia. reflexivity. }
    destruct g as [gid gdata gfmt], f2 as [id2 data2 fmt2]. cbn in *. congruence. }
  destruct (signaltype sd).
  1-3: destruct (bus_value_of_scaled sd scaled) as [bv|] eqn:Hbv;
         [|discriminate H2]; simpl_bind; cbn [mbind result_bind] in H2; apply (Hw bv eq_refl H2).
  assert (forall d, set_frame_data f1 d = Ok f2 -> set_frame_data f d = Ok f2) as Hd.
  { unfold set_frame_data. intros d Hs.
    destruct (check_frame_data d) as [[]|]; [|discriminate Hs].
    simpl_bind. cbn [mbind result_bind] in Hs. rewrite <- Hid1, <- Hfmt1. exact Hs. }
  destruct (endianness sd); apply Hd; exact H2.
Qed.

Lemma set_signalvalue_last_write_wins_witness :
  set_signalvalue testframe1 testsignal2 (Some (float_lit 5))
  = Ok {| frame_id := 1; frame_data := [x00; x05; x00; x08; x00; x00; x00; xff];
          frame_format := CAN_FRAMEFORMAT_STANDARD |}.
Proof.
  apply (set_signalvalue_last_write_wins testframe1
           {| frame_id := 1; frame_data := [x01; x00; x00; x08; x00; x00; x00; xff];
              frame_format := CAN_FRAMEFORMAT_STANDARD |}
           _ testsignal2 (Some (float_lit 256)) (Some (float_lit 5))).
  - reflexivity.
  - simpl. lia.
  - vm_compute. reflexivity.
  - vm_compute. reflexivity.
Defined.

(** X17. [get_signalvalue] reads only the bits of its signal: two frames
    of the same length that agree on the bits that the signal occupies give
    the same value. *)
Theorem get_signalvalue_reads_own_bits (f g : CanFrame) (sd : CanSignalDefinition) :
  signal_layout_ok sd = true ->
  get_minimum_dlc sd <= Z.of_nat (length (frame_data f)) <= 8 ->
  length (frame_data g) = length (frame_data f) ->
  (forall p, 0 <= p < 64 -> signal_occupies sd p = true ->
     Z.testbit (frame_integer (frame_data g)) p =
     Z.testbit (frame_integer (frame_data f)) p) ->
  get_signalvalue g sd = get_signalvalue f sd.
Proof.
  intros Hok Hdlc Hlen Hagree.
  pose proof (signal_layout_ok_fits sd Hok) as (Hfit & _).
  destruct (decide (signaltype sd = CAN_SIGNALTYPE_DOUBLE)) as [Hdouble | Hother].
  - assert (frame_data g = frame_data f) as Hdata.
    { apply frame_data_of_integer; [lia | exact Hlen |].
      apply Z.bits_inj'. intros p Hp.
      destruct (Z_lt_dec p 64) as [Hp64 | Hp64].
      - apply Hagree; [lia|]. apply double_occupies_all; [assumption | assumption | lia].
      - rewrite !frame_integer_testbit_high by lia. reflexivity. }
    unfold get_signalvalue. rewrite Hdata. reflexivity.
  - rewrite get_minimum_dlc_field in Hdlc.
    destruct (busvalue_testbit (endianness sd) (frame_data f) (numberofbits sd) (startbit sd)
                Hfit ltac:(lia)) as (v & Hv & Hvr & Hvbits).
    destruct (busvalue_testbit (endianness sd) (frame_data g) (numberofbits sd) (startbit sd)
                Hfit ltac:(lia)) as (v' & Hv' & Hvr' & Hvbits').
    assert (v' = v) as ->.
    { apply Z.bits_inj'. intros j Hj. rewrite Hvbits, Hvbits' by exact Hj.
      destruct (Z.ltb_spec j (numberofbits sd)) as [Hlt | Hge]; [|reflexivity].
      cbn [andb].
      pose proof (field_position_range _ _ _ j Hfit ltac:(lia)) as Hp.
      apply Hagree; [exact Hp|].
      rewrite signal_occupies_field, field_index_position by assumption.
      apply andb_true_iff. split; [apply Z.leb_le | apply Z.ltb_lt]; lia. }
    unfold get_signalvalue.
    destruct (signaltype sd); try (rewrite Hv, Hv'; reflexivity).
    contradiction.
Qed.

Lemma get_signalvalue_reads_own_bits_witness :
  get_signalvalue
    {| frame_id := 2; frame_data := [xff; xff; xff; x08; x00; xff; xff; xff];
       frame_format := CAN_FRAMEFORMAT_EXTENDED |} testsignal3
  = get_signalvalue testframe1 testsignal3.
Proof.
  apply (get_signalvalue_reads_own_bits testframe1 _ testsignal3).
  - reflexivity.
  - split; vm_compute; discriminate.
  - reflexivity.
  - intros p Hp.
    assert (forallb
              (fun p =>
                 implb (signal_occupies testsignal3 p)
                   (Bool.eqb
                      (Z.testbit (frame_integer [xff; xff; xff; x08; x00; xff; xff; xff]) p)
                      (Z.testbit (frame_integer (frame_data testframe1)) p)))
              (seqZ 0 64) = true) as Hall by (vm_compute; reflexivity).
    pose proof (forallb_seqZ _ 0 64 Hall p Hp) as H. cbv beta in H.
    intros Hocc. rewrite Hocc in H. cbn [implb] in H.
    apply Bool.eqb_prop in H. exact H.
Defined.


(** X9. Every frame that the constructors give, and every frame that
    [set_signalvalue] gives, has an identifier that is valid for its format
    and at most eight data bytes, when the frame it starts from has. *)
Theorem frames_stay_valid (f f' : CanFrame) :
  (forall fid data fmt, new_CanFrame fid data fmt = Ok f' ->
     check_frame_id_and_format (frame_id f') (frame_format f') = Ok tt /\
     (length (frame_data f') <= 8)%nat) /\
  (forall fid n fmt, from_empty_bytes fid n fmt = Ok f' ->
     check_frame_id_and_format (frame_id f') (frame_format f') = Ok tt /\
     0 <= n <= 8 /\ frame_data f' = replicate (Z.to_nat n) NULL_BYTE) /\
  (forall host raw, from_rawframe host raw = Ok f' ->
     check_frame_id_and_format (frame_id f') (frame_format f') = Ok tt /\
     (length (frame_data f') <= 8)%nat) /\
  (forall sd value, set_signalvalue f sd value = Ok f' ->
     check_frame_id_and_format (frame_id f) (frame_format f) = Ok tt ->
     check_frame_id_and_format (frame_id f') (frame_format f') = Ok tt /\
     (length (frame_data f') <= 8)%nat).
Proof.
  assert (forall fid data fmt, new_CanFrame fid data fmt = Ok f' ->
            check_frame_id_and_format (frame_id f') (frame_format f') = Ok tt /\
            (length (frame_data f') <= 8)%nat /\ frame_data f' = data) as Hnew.
  { unfold new_CanFrame, check_frame_data. intros fid data fmt H.
    apply bind_Ok in H as ([] & Hid & H).
    apply bind_Ok in H as ([] & Hlen & H). injection H as <-. cbn.
    apply raise_if_Ok in Hlen. rewrite Z.gtb_ltb in Hlen. apply Z.ltb_ge in Hlen.
    unfold MAX_NUMBER_OF_CAN_DATA_BYTES in Hlen.
    split; [exact Hid|]. split; [lia | reflexivity]. }
  split; [|split; [|split]].
  - intros fid data fmt H. destruct (Hnew _ _ _ H) as (? & ? & _). auto.
  - unfold from_empty_bytes. intros fid n fmt H.
    apply bind_Ok in H as ([] & Hn & H).
    apply raise_if_Ok in Hn. apply orb_false_iff in Hn as [Hhi Hlo].
    rewrite Z.gtb_ltb in Hhi. apply Z.ltb_ge in Hhi. apply Z.ltb_ge in Hlo.
    unfold MAX_NUMBER_OF_CAN_DATA_BYTES in Hhi.
    destruct (Hnew _ _ _ H) as (? & _ & ?). auto.
  - unfold from_rawframe. intros host raw H.
    destruct (unpack_rawframe host raw) as [[[first_part dlc] data8]|]; [|discriminate].
    destruct (Hnew _ _ _ H) as (? & ? & _). auto.
  - intros sd value H Hid.
    destruct (set_signalvalue_id_format f f' sd value H) as (-> & -> & Hlen). auto.
Qed.

Lemma frames_stay_valid_witness :
  check_frame_id_and_format
    (frame_id {| frame_id := 1; frame_data := [x00; x05; x00; x08; x00; x00; x00; xff];
                 frame_format := CAN_FRAMEFORMAT_STANDARD |})
    (frame_format {| frame_id := 1; frame_data := [x00; x05; x00; x08; x00; x00; x00; xff];
                     frame_format := CAN_FRAMEFORMAT_STANDARD |}) = Ok tt /\
  (length (frame_data {| frame_id := 1;
                         frame_data := [x00; x05; x00; x08; x00; x00; x00; xff];
                         frame_format := CAN_FRAMEFORMAT_STANDARD |}) <= 8)%nat.
Proof.
  apply (proj2 (proj2 (proj2 (frames_stay_valid testframe1 _)))
           testsignal2 (Some (float_lit 5))).
  - vm_compute. reflexivity.
  - reflexivity.
Defined.

(** X10. What [from_rawframe] rejects: a buffer that is not sixteen bytes
    long, and a buffer whose identifier is above 0x7FF although its
    extended-frame bit is clear. Both are [CanException]s. *)
Theorem from_rawframe_rejects (host : byteorder) (raw : list byte) :
  (length raw <> 16%nat ->
   from_rawframe host raw = Raise (CanException RawframeIllegal)) /\
  (forall first_part dlc data8,
     unpack_rawframe host raw = Ok (first_part, dlc, data8) ->
     Z.land first_part CAN_MASK_EXTENDED_FRAME_BIT = 0 ->
     MAX_CAN_FRAME_ID_STANDARD < Z.land first_part CAN_MASK_ID_ONLY ->
     from_rawframe host raw = Raise (CanException FrameIdTooLargeStandard)).
Proof.
  split.
  - intros Hlen. unfold from_rawframe, unpack_rawframe.
    destruct (Nat.eqb_spec (length raw) 16) as [Heq | _]; [contradiction | reflexivity].
  - intros first_part dlc data8 Hun Hbit Hid.
    unfold from_rawframe. rewrite Hun, Hbit. cbn [Z.eqb negb].
    unfold new_CanFrame, check_frame_id_and_format.
    assert ((Z.land first_part CAN_MASK_ID_ONLY <? 0) = false) as ->.
    { apply Z.ltb_ge. unfold MAX_CAN_FRAME_ID_STANDARD in Hid. lia. }
    rewrite bool_decide_eq_true_2 by reflexivity.
    assert ((Z.land first_part CAN_MASK_ID_ONLY >? MAX_CAN_FRAME_ID_STANDARD) = true) as ->
      by (rewrite Z.gtb_ltb; apply Z.ltb_lt; exact Hid).
    reflexivity.
Qed.

Lemma from_rawframe_rejects_witness :
  from_rawframe LittleEndianHost [x01; x02] = Raise (CanException RawframeIllegal) /\
  from_rawframe LittleEndianHost
    [x00; x08; x00; x00; x01; x00; x00; x00; xaa; x00; x00; x00; x00; x00; x00; x00]
  = Raise (CanException FrameIdTooLargeStandard).
Proof.
  split.
  - apply (proj1 (from_rawframe_rejects LittleEndianHost [x01; x02])).
    simpl. discriminate.
  - apply (proj2 (from_rawframe_rejects LittleEndianHost _) 0x800 1
             [xaa; x00; x00; x00; x00; x00; x00; x00]).
    + vm_compute. reflexivity.
    + reflexivity.
    + vm_compute. reflexivity.
Defined.

(** *** Doubles *)

Lemma double_bits_fields (s : bool) (E M : Z) :
  0 <= E < 2 ^ 11 -> 0 <= M < 2 ^ 52 ->
  let b := (if s then 2 ^ 63 else 0) + Z.shiftl E 52 + M in
  0 <= b < 2 ^ 64 /\
  Z.testbit b 63 = s /\
  Z.land (Z.shiftr b 52) (2 ^ 11 - 1) = E /\
  Z.land b (2 ^ 52 - 1) = M.
Proof.
  intros HE HM b. unfold b. rewrite Z.shiftl_mul_pow2 by lia.
  change (2 ^ 11 - 1) with (Z.ones 11). change (2 ^ 52 - 1) with (Z.ones 52).
  rewrite !Z.land_ones by lia. rewrite Z.shiftr_div_pow2 by lia.
  rewrite Z.testbit_eqb by lia.
  change (2 ^ 63) with (2048 * 2 ^ 52). change (2 ^ 64) with (4096 * 2 ^ 52).
  change (2 ^ 11) with 2048 in *.
  assert (0 < 2 ^ 52) as HP by lia.
  generalize dependent (2 ^ 52). intros P HM HP.
  assert (0 <= E * P + M < 2048 * P) as Hlow by nia.
  set (S := if s then 2048 * P else 0).
  set (q := if s then 1 else 0).
  assert (S = 2048 * P * q /\ 0 <= q <= 1) as [HS Hq] by (unfold S, q; destruct s; lia).
  assert ((S + E * P + M) / P = 2048 * q + E) as Hdiv.
  { symmetry. apply Z.div_unique with (r := M); [lia|]. rewrite HS. lia. }
  assert ((S + E * P + M) / (2048 * P) = q) as Hsign.
  { symmetry. apply Z.div_unique with (r := E * P + M); [lia|]. rewrite HS. lia. }
  split; [rewrite HS; nia|].
  split; [|split].
  - rewrite Hsign. unfold q. destruct s; reflexivity.
  - rewrite Hdiv. symmetry. apply Z.mod_unique with (q := q); lia.
  - symmetry. apply Z.mod_unique with (q := 2048 * q + E); [lia|]. rewrite HS. lia.
Qed.

Lemma double_of_bits_of_double (s : bool) (m : positive) (e : Z) :
  canonical_mantissa prec64 emax64 m e = true -> e <= 971 ->
  0 <= bits_of_float 52 11 (S754_finite s m e) < 2 ^ 64 /\
  float_of_bits 52 11 (bits_of_float 52 11 (S754_finite s m e)) = S754_finite s m e.
Proof.
  intros Hc He. pose proof (digits2_pos_bounds m) as Hm.
  unfold bits_of_float, float_of_bits.
  change (52 + 1) with 53. change (52 + 11) with 63.
  change (3 - 2 ^ (11 - 1) - 53) with (-1074).
  destruct (canonical_mantissa_cases m e Hc) as [[Hd Hlo] | [Hd ->]].
  - rewrite Hd in Hm. change (2 ^ (53 - 1)) with (2 ^ 52) in Hm.
    assert ((Zpos (digits2_pos m) =? 53) = true) as -> by (apply Z.eqb_eq; exact Hd).
    destruct (double_bits_fields s (e - -1074 + 1) (Zpos m - 2 ^ 52)
                ltac:(change (2 ^ 11) with 2048; lia) ltac:(change (2 ^ 53) with (2 * 2 ^ 52) in Hm; lia))
      as (Hr & Hs & HE & HM).
    cbv zeta in Hr, Hs, HE, HM. split; [exact Hr|].
    rewrite Hs, HE, HM.
    assert ((e - -1074 + 1 =? 0) = false) as -> by (apply Z.eqb_neq; lia).
    assert ((e - -1074 + 1 =? 2 ^ 11 - 1) = false) as ->
      by (apply Z.eqb_neq; change (2 ^ 11 - 1) with 2047; lia).
    replace (Zpos m - 2 ^ 52 + 2 ^ 52) with (Zpos m) by lia.
    f_equal. lia.
  - assert ((Zpos (digits2_pos m) =? 53) = false) as -> by (apply Z.eqb_neq; lia).
    assert (Zpos m < 2 ^ 52) as Hsmall.
    { destruct Hm as [_ Hm]. eapply Z.lt_le_trans; [exact Hm|].
      apply Z.pow_le_mono_r; lia. }
    destruct (double_bits_fields s 0 (Zpos m) ltac:(lia) ltac:(lia)) as (Hr & Hs & HE & HM).
    cbv zeta in Hr, Hs, HE, HM. rewrite Z.shiftl_0_l, Z.add_0_r in Hr, Hs, HE, HM.
    split; [exact Hr|].
    rewrite Hs, HE, HM. reflexivity.
Qed.

(** X19. A double is read back exactly: for a double signal with scaling
    factor 1 and offset 0 and a finite non-zero double [v] that the range
    check and the limits accept unchanged, [set_signalvalue] on a frame of
    eight bytes succeeds and [get_signalvalue] returns [v], for both byte
    orders. *)
Theorem double_signal_roundtrip (f : CanFrame) (sd : CanSignalDefinition)
    (s : bool) (m : positive) (e : Z) :
  signal_layout_ok sd = true ->
  signaltype sd = CAN_SIGNALTYPE_DOUBLE ->
  scalingfactor sd = float_lit 1 -> valueoffset sd = float_lit 0 ->
  canonical_mantissa prec64 emax64 m e = true -> e <= 971 ->
  value_to_encode sd (Some (S754_finite s m e)) = Ok (S754_finite s m e) ->
  length (frame_data f) = 8%nat ->
  exists f',
    set_signalvalue f sd (Some (S754_finite s m e)) = Ok f' /\
    length (frame_data f') = 8%nat /\
    get_signalvalue f' sd = Ok (S754_finite s m e).
Proof.
  intros Hok Hty Hscale Hoffset Hc He Hvalue Hlen.
  destruct (double_of_bits_of_double s m e Hc He) as (Hbits & Hback).
  assert (limit_to_min_max sd (S754_finite s m e) = S754_finite s m e) as Hlimit.
  { unfold value_to_encode in Hvalue.
    cbn [mbind result_bind] in Hvalue.
    apply bind_Ok in Hvalue as (lo & _ & Hvalue).
    apply bind_Ok in Hvalue as ([] & _ & Hvalue).
    injection Hvalue as Hvalue. exact Hvalue. }
  assert (length (pack_double_be (S754_finite s m e)) = 8%nat) as Hl8
    by apply length_pack_double_be.
  assert (unpack_double_be (pack_double_be (S754_finite s m e)) = Ok (S754_finite s m e))
    as Hunpack.
  { unfold unpack_double_be. rewrite Hl8. cbn [Nat.eqb negb].
    unfold pack_double_be. rewrite be_bytes_to_Z_to_be_bytes by exact Hbits.
    rewrite Hback. reflexivity. }
  unfold set_signalvalue.
  rewrite (double_takes_whole_frame sd Hok Hty), Hlen.
  change (8 >? Z.of_nat 8) with false. cbn [raise_if]. simpl_bind.
  rewrite Hvalue. simpl_bind. rewrite Hoffset, Hscale.
  change (float_sub (S754_finite s m e) (float_lit 0)) with (S754_finite s m e).
  rewrite float_div_one by assumption. simpl_bind. rewrite Hty.
  assert (forall d, length d = 8%nat ->
            set_frame_data f d
            = Ok {| frame_id := frame_id f; frame_data := d;
                    frame_format := frame_format f |}) as Hset.
  { intros d Hd. unfold set_frame_data, check_frame_data. rewrite Hd. reflexivity. }
  assert (forall d, unpack_double_be d = Ok (S754_finite s m e) ->
            float_add (float_mul (S754_finite s m e) (float_lit 1)) (float_lit 0)
            = S754_finite s m e) as Hid.
  { intros _ _. rewrite float_mul_one by assumption. reflexivity. }
  destruct (endianness sd) eqn:Hend.
  - rewrite Hset by (apply length_pack_double_le). eexists. split; [reflexivity|].
    cbn [frame_data]. split; [apply length_pack_double_le|].
    unfold get_signalvalue. rewrite Hty, Hend. cbn [frame_data].
    unfold unpack_double_le, pack_double_le. rewrite rev_involutive, Hunpack.
    simpl_bind. rewrite Hscale, Hoffset, (Hid _ Hunpack), Hlimit. reflexivity.
  - rewrite Hset by exact Hl8. eexists. split; [reflexivity|].
    cbn [frame_data]. split; [exact Hl8|].
    unfold get_signalvalue. rewrite Hty, Hend. cbn [frame_data]. rewrite Hunpack.
    simpl_bind. rewrite Hscale, Hoffset, (Hid _ Hunpack), Hlimit. reflexivity.
Qed.

Lemma double_signal_roundtrip_witness :
  exists f',
    set_signalvalue empty_frame double_signal
      (Some (S754_finite false 7205759403792794 (-56))) = Ok f' /\
    length (frame_data f') = 8%nat /\
    get_signalvalue f' double_signal = Ok (S754_finite false 7205759403792794 (-56)).
Proof.
  apply (double_signal_roundtrip empty_frame double_signal false 7205759403792794 (-56)).
  - reflexivity.
  - reflexivity.
  - reflexivity.
  - reflexivity.
  - reflexivity.
  - lia.
  - vm_compute. reflexivity.
  - reflexivity.
Defined.

(** X21. Decoding does not fail: for a signal with a valid layout and a
    frame of at least [get_minimum_dlc] and at most eight bytes,
    [get_signalvalue] returns a value, whatever the bytes of the frame
    are. *)
Theorem get_signalvalue_succeeds (f : CanFrame) (sd : CanSignalDefinition) :
  signal_layout_ok sd = true ->
  get_minimum_dlc sd <= Z.of_nat (length (frame_data f)) <= 8 ->
  exists v,
    get_signalvalue f sd = Ok v /\
    forall g, frame_data g = frame_data f -> get_signalvalue g sd = Ok v.
Proof.
  intros Hok Hdlc. destruct (get_signalvalue_Ok f sd Hok Hdlc) as (v & Hv).
  exists v. split; [exact Hv|].
  intros g Hg. unfold get_signalvalue in Hv |- *. rewrite Hg. exact Hv.
Qed.

Lemma get_signalvalue_succeeds_witness :
  exists v,
    get_signalvalue testframe1 testsignal4 = Ok v /\
    forall g, frame_data g = frame_data testframe1 -> get_signalvalue g testsignal4 = Ok v.
Proof.
  apply (get_signalvalue_succeeds testframe1 testsignal4).
  - reflexivity.
  - split; vm_compute; discriminate.
Defined.
(** ** cansignal.py *)

(** X11. A signal definition that the constructor accepts has its start
    bit in 0..63, between 1 and 64 bits that end within the 64 bits of the
    frame in the numbering of its byte order, 32 bits if it is a single and
    64 if it is a double, a scaling factor that is not at most zero, and a
    default value. *)
Theorem new_CanSignalDefinition_valid
    (name : string) (start n : Z) (scale offset : float) (default : option float)
    (unit_ comment : string) (minv maxv : option float)
    (e : endianness_t) (t : signaltype_t) (sd : CanSignalDefinition) :
  new_CanSignalDefinition name start n scale offset default unit_ comment minv maxv e t
    = Ok sd ->
  0 <= startbit sd <= 63 /\ 1 <= numberofbits sd <= 64 /\
  (endianness sd = LITTLE_ENDIAN -> startbit sd + numberofbits sd <= 64) /\
  (endianness sd = BIG_ENDIAN ->
   exists b, calculate_backward_bitnumber (startbit sd) = Ok b /\
             b + numberofbits sd <= 64) /\
  (signaltype sd = CAN_SIGNALTYPE_SINGLE -> numberofbits sd = 32) /\
  (signaltype sd = CAN_SIGNALTYPE_DOUBLE -> numberofbits sd = 64) /\
  float_le (scalingfactor sd) (float_lit 0) = false /\
  is_Some (defaultvalue sd) /\
  1 <= get_minimum_dlc sd <= 8.
Proof.
  intros Hnew.
  assert (float_le scale (float_lit 0) = false) as Hscale.
  { unfold new_CanSignalDefinition in Hnew.
    apply bind_Ok in Hnew as ([] & _ & Hnew).
    apply bind_Ok in Hnew as ([] & _ & Hnew).
    apply bind_Ok in Hnew as ([] & Hs & _).
    apply raise_if_Ok in Hs. exact Hs. }
  apply new_CanSignalDefinition_inv in Hnew
    as (Hok & _ & _ & _ & _ & Hsc & _ & _ & _ & Hdef & _).
  pose proof (signal_layout_ok_fits sd Hok) as ((Hs & Hn & Hfit) & Hsingle & Hdouble).
  split; [exact Hs|]. split; [exact Hn|].
  split; [intros He; rewrite He in Hfit; exact Hfit|].
  split.
  { intros He. rewrite He in Hfit. exists (backward_bitnumber (startbit sd)).
    split; [apply calculate_backward_bitnumber_Ok; exact Hs | exact Hfit]. }
  split; [exact Hsingle|]. split; [exact Hdouble|].
  split; [rewrite Hsc; exact Hscale|].
  split; [rewrite Hdef; eexists; reflexivity|].
  rewrite get_minimum_dlc_field. unfold field_minimum_dlc.
  pose proof (backward_bitnumber_range (startbit sd) Hs) as Hb.
  destruct (endianness sd).
  - pose proof (div8_bounds (startbit sd + numberofbits sd - 1) ltac:(lia)). lia.
  - pose proof (div8_bounds (startbit sd) ltac:(lia)). lia.
Qed.

Lemma new_CanSignalDefinition_valid_witness :
  0 <= startbit testsignal4 <= 63 /\ 1 <= numberofbits testsignal4 <= 64 /\
  (endianness testsignal4 = LITTLE_ENDIAN ->
   startbit testsignal4 + numberofbits testsignal4 <= 64) /\
  (endianness testsignal4 = BIG_ENDIAN ->
   exists b, calculate_backward_bitnumber (startbit testsignal4) = Ok b /\
             b + numberofbits testsignal4 <= 64) /\
  (signaltype testsignal4 = CAN_SIGNALTYPE_SINGLE -> numberofbits testsignal4 = 32) /\
  (signaltype testsignal4 = CAN_SIGNALTYPE_DOUBLE -> numberofbits testsignal4 = 64) /\
  float_le (scalingfactor testsignal4) (float_lit 0) = false /\
  is_Some (defaultvalue testsignal4) /\
  1 <= get_minimum_dlc testsignal4 <= 8.
Proof.
  apply (new_CanSignalDefinition_valid "testsignal4" 48 8 (float_lit 1) (float_lit 0) None
           "" "" None None LITTLE_ENDIAN CAN_SIGNALTYPE_SIGNED testsignal4).
  vm_compute. reflexivity.
Defined.

(** X12. [get_minimum_dlc] is the number of the last data byte that holds
    a bit of the signal: every bit of the signal lies in one of the first
    [get_minimum_dlc] bytes, and one of them lies in the last of these. *)
Theorem get_minimum_dlc_spec (sd : CanSignalDefinition) :
  signal_layout_ok sd = true ->
  (forall p, 0 <= p < 64 -> signal_occupies sd p = true ->
     7 - p / 8 < get_minimum_dlc sd) /\
  (exists p, 0 <= p < 64 /\ signal_occupies sd p = true /\
             7 - p / 8 = get_minimum_dlc sd - 1).
Proof.
  intros Hok.
  pose proof (signal_layout_ok_fits sd Hok) as (Hfit & _).
  rewrite get_minimum_dlc_field. split.
  - intros p Hp Hocc. rewrite signal_occupies_field in Hocc by assumption.
    apply andb_true_iff in Hocc as [Hlo Hhi].
    apply Z.leb_le in Hlo. apply Z.ltb_lt in Hhi.
    pose proof (field_position_in_dlc _ _ _ _ Hfit (conj Hlo Hhi)) as Hpos.
    rewrite field_position_index in Hpos.
    assert (8 - field_minimum_dlc (endianness sd) (startbit sd) (numberofbits sd) <= p / 8)
      by (apply Z.div_le_lower_bound; lia).
    lia.
  - destruct Hfit as (Hs & Hn & Hend).
    set (j := match endianness sd with
              | LITTLE_ENDIAN => numberofbits sd - 1 | BIG_ENDIAN => 0 end).
    assert (0 <= j < numberofbits sd) as Hj by (unfold j; destruct (endianness sd); lia).
    exists (field_position (endianness sd) (startbit sd) j).
    pose proof (field_position_range _ _ _ j (conj Hs (conj Hn Hend)) Hj) as Hp.
    split; [exact Hp|]. split.
    + rewrite signal_occupies_field, field_index_position by assumption.
      apply andb_true_iff. split; [apply Z.leb_le | apply Z.ltb_lt]; lia.
    + unfold field_position, field_minimum_dlc, j.
      destruct (endianness sd).
      * rewrite backward_bitnumber_div.
        replace (startbit sd + (numberofbits sd - 1)) with (startbit sd + numberofbits sd - 1)
          by lia.
        lia.
      * rewrite Z.add_0_r, backward_bitnumber_div. lia.
Qed.

Lemma get_minimum_dlc_spec_witness :
  (forall p, 0 <= p < 64 -> signal_occupies testsignal2 p = true ->
     7 - p / 8 < get_minimum_dlc testsignal2) /\
  (exists p, 0 <= p < 64 /\ signal_occupies testsignal2 p = true /\
             7 - p / 8 = get_minimum_dlc testsignal2 - 1).
Proof. apply (get_minimum_dlc_spec testsignal2). reflexivity. Defined.
(** X18. The possible values of an integer signal with scaling factor 1
    and offset 0 and at most 53 bits: 0 to [2 ^ n - 1] when it is unsigned,
    [- 2 ^ (n - 1)] to [2 ^ (n - 1) - 1] when it is signed. *)
Theorem possible_values_of_integer_signals (sd : CanSignalDefinition) :
  signal_layout_ok sd = true -> numberofbits sd <= 53 ->
  scalingfactor sd = float_lit 1 -> valueoffset sd = float_lit 0 ->
  (signaltype sd = CAN_SIGNALTYPE_UNSIGNED ->
   get_minimum_possible_value sd = Ok (float_lit 0) /\
   get_maximum_possible_value sd = Ok (float_lit (2 ^ numberofbits sd - 1))) /\
  (signaltype sd = CAN_SIGNALTYPE_SIGNED ->
   get_minimum_possible_value sd = Ok (float_lit (- 2 ^ (numberofbits sd - 1))) /\
   get_maximum_possible_value sd = Ok (float_lit (2 ^ (numberofbits sd - 1) - 1))).
Proof.
  intros Hok Hbits Hscale Hoffset.
  pose proof (possible_values_integer sd Hok Hbits Hscale Hoffset) as [Hunsigned Hsigned].
  split; intros Hty; [apply Hunsigned | apply Hsigned]; exact Hty.
Qed.

Lemma possible_values_of_integer_signals_witness :
  (signaltype testsignal4 = CAN_SIGNALTYPE_UNSIGNED ->
   get_minimum_possible_value testsignal4 = Ok (float_lit 0) /\
   get_maximum_possible_value testsignal4
     = Ok (float_lit (2 ^ numberofbits testsignal4 - 1))) /\
  (signaltype testsignal4 = CAN_SIGNALTYPE_SIGNED ->
   get_minimum_possible_value testsignal4
     = Ok (float_lit (- 2 ^ (numberofbits testsignal4 - 1))) /\
   get_maximum_possible_value testsignal4
     = Ok (float_lit (2 ^ (numberofbits testsignal4 - 1) - 1))).
Proof.
  apply (possible_values_of_integer_signals testsignal4).
  - reflexivity.
  - vm_compute. discriminate.
  - reflexivity.
  - reflexivity.
Defined.

(** ** canframe_definition.py *)

(** X13. The mask of a frame definition covers every write to its signals:
    when a signal of the frame definition is set in a frame, every bit of
    the frame data that is clear in [get_signal_mask] is unchanged. *)
Theorem get_signal_mask_covers_writes (fd : CanFrameDefinition) (mask : list byte)
    (sd : CanSignalDefinition) (f f' : CanFrame) (value : option float) :
  Forall (fun sd => signal_layout_ok sd = true) (signaldefinitions fd) ->
  get_signal_mask fd = Ok mask ->
  sd ∈ signaldefinitions fd ->
  (length (frame_data f) <= 8)%nat ->
  set_signalvalue f sd value = Ok f' ->
  forall p, 0 <= p < 64 -> Z.testbit (frame_integer mask) p = false ->
    Z.testbit (frame_integer (frame_data f')) p =
    Z.testbit (frame_integer (frame_data f)) p.
Proof.
  intros Hall Hmask Hin Hlen Hset p Hp Hclear.
  unfold get_signal_mask in Hmask.
  destruct (get_signal_mask_fold (signaldefinitions fd) 0 Hall ltac:(lia))
    as (out & Hfold & Hout & Hbits).
  rewrite Hfold in Hmask. cbn [mbind result_bind] in Hmask.
  rewrite int_to_can_bytes_Ok in Hmask by (unfold MAX_NUMBER_OF_CAN_DATA_BYTES; lia).
  assert (mask = take 8 (Z_to_be_bytes 8 out)) as ->
    by (symmetry; exact (f_equal (fun r => match r with Ok m => m | Raise _ => mask end) Hmask)).
  rewrite frame_integer_take_testbit in Hclear by lia.
  assert ((8 * (8 - Z.of_nat 8) <=? p) = true) as Hle by (apply Z.leb_le; lia).
  rewrite Hle in Hclear. cbn [andb] in Hclear.
  rewrite Hbits, Z.bits_0 in Hclear. cbn [orb] in Hclear.
  assert (signal_occupies sd p = false) as Hfree.
  { destruct (signal_occupies sd p) eqn:Hocc; [|reflexivity].
    assert (existsb (fun sd => signal_occupies sd p) (signaldefinitions fd) = true) as Hex.
    { apply existsb_exists. exists sd. split; [apply list_elem_of_In; exact Hin | exact Hocc]. }
    rewrite Hex in Hclear. discriminate. }
  rewrite Forall_forall in Hall.
  destruct (set_signalvalue_frame_bits f f' sd value (Hall sd Hin) Hlen Hset)
    as (_ & _ & Hsame).
  apply Hsame; assumption.
Qed.

Lemma get_signal_mask_covers_writes_witness :
  Z.testbit (frame_integer [x00; x05; x00; x08; x00; x00; x00; xff]) 40 =
  Z.testbit (frame_integer (frame_data testframe1)) 40.
Proof.
  apply (get_signal_mask_covers_writes testframedef4
           [xff; xff; x00; xff; xff; x00; xff; x01] testsignal2 testframe1
           {| frame_id := 1; frame_data := [x00; x05; x00; x08; x00; x00; x00; xff];
              frame_format := CAN_FRAMEFORMAT_STANDARD |} (Some (float_lit 5))).
  - repeat constructor.
  - vm_compute. reflexivity.
  - unfold testframedef4. cbn [signaldefinitions]. set_solver.
  - simpl. lia.
  - vm_compute. reflexivity.
  - lia.
  - vm_compute. reflexivity.
Defined.

(** ** caninterface_bcm.py *)

Lemma pack_bcm_header_fits (pf : platform) (h h' : bcm_header) :
  pack_bcm_header pf h = Ok h' ->
  h' = h /\
  fits_long pf (ival1_seconds h) = true /\ fits_long pf (ival1_useconds h) = true /\
  fits_long pf (ival2_seconds h) = true /\ fits_long pf (ival2_useconds h) = true.
Proof.
  unfold pack_bcm_header. intros H.
  destruct (_ && _) eqn:Hfits in H; [|discriminate]. injection H as <-.
  repeat (apply andb_true_iff in Hfits as [Hfits ?]). auto.
Qed.

Lemma fits_long_bound (pf : platform) (x : Z) :
  long_bits pf <= 64 -> fits_long pf x = true -> Z.abs x < 2 ^ 64.
Proof.
  unfold fits_long. intros Hbits H.
  apply andb_true_iff in H as [Hlo Hhi]. apply Z.leb_le in Hlo. apply Z.ltb_lt in Hhi.
  assert (2 ^ (long_bits pf - 1) <= 2 ^ 63) as Hpow.
  { destruct (Z_lt_dec (long_bits pf - 1) 0) as [Hneg | Hpos].
    - rewrite Z.pow_neg_r by lia. lia.
    - apply Z.pow_le_mono_r; lia. }
  lia.
Qed.

Lemma int_truediv_Ok (a : Z) :
  Z.abs a < 2 ^ 64 -> exists q, int_truediv a MICROSECONDS_PER_SECOND = Ok q.
Proof.
  intros Ha. unfold int_truediv.
  change (MICROSECONDS_PER_SECOND =? 0) with false. cbv iota.
  assert (forall s p, Zpos p < 2 ^ 64 ->
            float_is_finite
              (SFdiv prec64 emax64 (S754_finite s p 0)
                     (exact_int MICROSECONDS_PER_SECOND)) = true) as Hfin.
  { intros s p Hp. change (exact_int MICROSECONDS_PER_SECOND)
      with (S754_finite false 1000000 0).
    cbn [SFdiv]. unfold SFdiv_core_binary.
    change (Zdigits2 1000000) with 20. rewrite !Z.sub_0_r, !Z.add_0_r.
    pose proof (Zdigits2_le (Zpos p) 64 ltac:(lia) ltac:(lia)) as Hd.
    assert (1 <= Zdigits2 (Zpos p)) as Hd1 by (cbn [Zdigits2]; lia).
    set (e' := Z.min (fexp prec64 emax64 (Zdigits2 (Zpos p) - 20)) 0).
    assert (- 72 <= e' <= 0) as He'.
    { unfold e', fexp, emin, prec64, emax64. lia. }
    replace (0 - e') with (- e') by lia.
    set (m' := match - e' with
               | 0 => Zpos p | Zpos _ => Z.shiftl (Zpos p) (- e') | Zneg _ => 0 end).
    assert (0 <= m' < 2 ^ 136) as Hm'.
    { assert (0 <= Z.shiftl (Zpos p) (- e') < 2 ^ 136) as Hshift.
      { rewrite Z.shiftl_mul_pow2 by lia.
        assert (0 < 2 ^ (- e') <= 2 ^ 72) as Hpow
          by (split; [apply Z.pow_pos_nonneg; lia | apply Z.pow_le_mono_r; lia]).
        change (2 ^ 136) with (2 ^ 64 * 2 ^ 72). nia. }
      unfold m'. destruct (- e'); [lia | exact Hshift | lia]. }
    pose proof (Z_div_mod m' 1000000 ltac:(lia)) as Hdiv.
    destruct (Z.div_eucl m' 1000000) as [q r]. destruct Hdiv as [Hq Hr].
    apply (binary_round_aux_finite _ q e' _ 136); [nia | lia | lia]. }
  destruct a as [|p|p].
  - eexists. reflexivity.
  - specialize (Hfin false p ltac:(lia)). cbn [exact_int].
    destruct (SFdiv _ _ _ _); try discriminate Hfin; eexists; reflexivity.
  - specialize (Hfin true p ltac:(lia)). cbn [exact_int].
    destruct (SFdiv _ _ _ _); try discriminate Hfin; eexists; reflexivity.
Qed.

Lemma interval_milliseconds_Ok (seconds useconds : Z) :
  Z.abs seconds < 2 ^ 64 -> Z.abs useconds < 2 ^ 64 ->
  exists ms, interval_milliseconds seconds useconds = Ok ms.
Proof.
  intros Hs Hus. unfold interval_milliseconds.
  destruct (int_truediv_Ok useconds Hus) as (q & ->).
  destruct (float_of_int_Ok seconds Hs) as (full & -> & _).
  eexists. reflexivity.
Qed.

(** X14. A header that [_build_bcm_header] builds for a valid frame
    identifier is parsed by [_parse_bcm_header] into the same opcode, flags,
    frame identifier, frame format and number of frames, with no first
    interval, when a C [long] has at most 64 bits. *)
Theorem bcm_header_roundtrip (pf : platform) (op : bcm_opcode) (fl : Z)
    (interval : float) (fid : Z) (ff : frame_format_t) (n : Z) (h : bcm_header) :
  long_bits pf <= 64 ->
  check_frame_id_and_format fid ff = Ok tt ->
  _build_bcm_header pf op fl interval fid ff n = Ok h ->
  exists ival2,
    _parse_bcm_header h = Ok (op, fl, 0, S754_zero false, ival2, fid, ff, n).
Proof.
  intros Hlong Hid Hbuild.
  apply check_frame_id_and_format_Ok in Hid.
  assert (0 <= fid <= MAX_CAN_FRAME_ID_EXTENDED) as Hext.
  { destruct ff; unfold MAX_CAN_FRAME_ID_STANDARD, MAX_CAN_FRAME_ID_EXTENDED in *; lia. }
  pose proof (id_of_first_part fid (bool_decide (ff = CAN_FRAMEFORMAT_EXTENDED)) Hext)
    as (_ & Hidm & Hbit). cbv zeta in Hidm, Hbit.
  unfold _build_bcm_header in Hbuild.
  apply bind_Ok in Hbuild as (msec & _ & Hbuild).
  apply bind_Ok in Hbuild as (interval_s & _ & Hbuild).
  pose proof no_first_interval as Hfirst.
  apply bind_Ok in Hfirst as (ival1 & Hi1 & Hfirst).
  rewrite Hi1 in Hbuild. cbn [mbind result_bind] in Hbuild.
  rewrite Hfirst in Hbuild. cbn [mbind result_bind] in Hbuild.
  apply bind_Ok in Hbuild as ([s2 us2] & _ & Hbuild).
  apply pack_bcm_header_fits in Hbuild as (-> & _ & _ & Hs2 & Hus2).
  cbn [ival2_seconds ival2_useconds] in Hs2, Hus2.
  apply (fits_long_bound pf _ Hlong) in Hs2, Hus2.
  destruct (interval_milliseconds_Ok s2 us2 Hs2 Hus2) as (ival2 & Hival2).
  exists ival2. unfold _parse_bcm_header.
  cbn [ival1_seconds ival1_useconds ival2_seconds ival2_useconds frame_id_std_ext
       opcode flags ival1_count number_of_bcm_frames].
  change (interval_milliseconds 0 0) with (Ok (S754_zero false)).
  rewrite Hival2. cbn [mbind result_bind].
  rewrite Hidm, Hbit, negb_involutive.
  destruct ff; reflexivity.
Qed.

Lemma bcm_header_roundtrip_witness :
  exists ival2,
    _parse_bcm_header
      {| opcode := CAN_BCM_TX_SETUP; flags := 3; ival1_count := 0;
         ival1_seconds := 0; ival1_useconds := 0;
         ival2_seconds := 0; ival2_useconds := 20000;
         frame_id_std_ext := Z.lor 7 CAN_MASK_EXTENDED_FRAME_BIT;
         number_of_bcm_frames := 1 |}
    = Ok (CAN_BCM_TX_SETUP, 3, 0, S754_zero false, ival2, 7, CAN_FRAMEFORMAT_EXTENDED, 1).
Proof.
  apply (bcm_header_roundtrip example_platform CAN_BCM_TX_SETUP 3 (float_lit 20) 7
           CAN_FRAMEFORMAT_EXTENDED 1).
  - simpl. lia.
  - reflexivity.
  - vm_compute. reflexivity.
Defined.

(** ** canbus.py *)

Lemma send_signals_set_values_keeps (items : list (string * option float))
    (fs : gset Z) (self self' : CanBus) (r : result (gset Z)) :
  send_signals_set_values items fs self = (self', r) ->
  socket_log self' = socket_log self /\
  _transmissionstatus self' = _transmissionstatus self /\
  _use_bcm self' = _use_bcm self /\ host_platform self' = host_platform self /\
  _output_signaldefinition_storage self' = _output_signaldefinition_storage self /\
  _output_frame_storage self' = _output_frame_storage self.
Proof.
  revert fs self. induction items as [|[name value] items IH]; intros fs self H.
  - injection H as <- <-. repeat split.
  - cbn [send_signals_set_values] in H.
    unfold send_signals_set_value in H.
    destruct (_output_signaldefinition_storage self !! name) as [sd|];
      [|injection H as <- <-; repeat split].
    destruct (_output_frame_storage self !! name) as [ref|];
      [|injection H as <- <-; repeat split].
    destruct (frame_heap self !! ref) as [frame|];
      [|injection H as <- <-; repeat split].
    destruct (set_signalvalue frame sd value) as [frame'|];
      [|injection H as <- <-; repeat split].
    apply IH in H. exact H.
Qed.

Lemma send_signals_set_values_unknown (items : list (string * option float))
    (fs : gset Z) (self : CanBus) (name : string) :
  name ∈ map fst items ->
  _output_signaldefinition_storage self !! name = None ->
  exists self' e, send_signals_set_values items fs self = (self', Raise e).
Proof.
  revert fs self. induction items as [|[name0 value] items IH]; intros fs self Hin Hnone.
  - cbn in Hin. apply elem_of_nil in Hin. contradiction.
  - cbn [send_signals_set_values].
    destruct (send_signals_set_value fs self (name0, value)) as [self1 [fs1|e]] eqn:Hstep;
      [|eauto].
    cbn [map fst] in Hin. apply elem_of_cons in Hin as [-> | Hin].
    + unfold send_signals_set_value in Hstep. rewrite Hnone in Hstep. discriminate.
    + apply IH; [exact Hin|].
      assert (send_signals_set_values [(name0, value)] fs self = (self1, Ok fs1)) as Hone.
      { cbn [send_signals_set_values]. rewrite Hstep. reflexivity. }
      apply send_signals_set_values_keeps in Hone as (_ & _ & _ & _ & -> & _).
      exact Hnone.
Qed.

(** X15. [send_signals] with a signal name that is not an outbound signal
    of the bus raises, and nothing is written to the socket, whatever the
    other signals are; when the name is the first one, the exception is the
    [CanException] for an unknown signal name and the bus is unchanged. *)
Theorem send_signals_unknown_signal (self : CanBus)
    (items : list (string * option float)) (name : string) :
  name ∈ map fst items ->
  _output_signaldefinition_storage self !! name = None ->
  (exists self' e,
     send_signals self items = (self', Raise e) /\
     socket_log self' = socket_log self /\
     _transmissionstatus self' = _transmissionstatus self) /\
  (forall value rest, items = (name, value) :: rest ->
     send_signals self items = (self, Raise (CanException UnknownSignalname))).
Proof.
  intros Hin Hnone. split.
  - destruct (send_signals_set_values_unknown items ∅ self name Hin Hnone)
      as (self' & e & Hset).
    exists self', e. unfold send_signals. rewrite Hset.
    apply send_signals_set_values_keeps in Hset as (Hlog & Hstatus & _).
    auto.
  - intros value rest ->. unfold send_signals.
    cbn [send_signals_set_values]. unfold send_signals_set_value.
    rewrite Hnone. reflexivity.
Qed.

Lemma send_signals_unknown_signal_witness :
  (exists self' e,
     send_signals periodic_bus [("testsignal1", Some (float_lit 1)); ("nosignal", None)]
       = (self', Raise e) /\
     socket_log self' = socket_log periodic_bus /\
     _transmissionstatus self' = _transmissionstatus periodic_bus) /\
  (forall value rest,
     [("testsignal1", Some (float_lit 1)); ("nosignal", None)] = ("nosignal", value) :: rest ->
     send_signals periodic_bus [("testsignal1", Some (float_lit 1)); ("nosignal", None)]
       = (periodic_bus, Raise (CanException UnknownSignalname))).
Proof.
  apply (send_signals_unknown_signal periodic_bus
           [("testsignal1", Some (float_lit 1)); ("nosignal", None)] "nosignal").
  - cbn [map fst]. set_solver.
  - vm_compute. reflexivity.
Defined.





Lemma init_signals_keep (frameID : Z) (sigs : list CanSignalDefinition)
    (acc acc' : CanBus * CanFrame) :
  foldM (init_signal frameID) sigs acc = Ok acc' ->
  _configuration acc'.1 = _configuration acc.1 /\
  _use_bcm acc'.1 = _use_bcm acc.1 /\
  socket_log acc'.1 = socket_log acc.1 /\
  _output_framedefinition_storage acc'.1 = _output_framedefinition_storage acc.1 /\
  _input_framedefinition_storage acc'.1 = _input_framedefinition_storage acc.1.
Proof.
  revert acc. induction sigs as [|sigdef sigs IH]; intros acc H.
  - injection H as <-. repeat split.
  - cbn [foldM] in H. apply bind_Ok in H as (acc1 & Hstep & H).
    apply IH in H as (-> & -> & -> & -> & ->).
    destruct acc as [self fr]. unfold init_signal in Hstep.
    apply bind_Ok in Hstep as (fr' & _ & Hstep). injection Hstep as <-.
    repeat split.
Qed.

Lemma init_framedefinition_keeps (self self' : CanBus) (frameID : Z)
    (framedef : CanFrameDefinition) :
  init_framedefinition self (frameID, framedef) = Ok self' ->
  _configuration self' = _configuration self /\
  _use_bcm self' = _use_bcm self /\
  socket_log self' = socket_log self /\
  _output_framedefinition_storage self' =
    (if is_outbound framedef (ego_node_ids (_configuration self))
     then <[frameID := framedef]> (_output_framedefinition_storage self)
     else _output_framedefinition_storage self) /\
  _input_framedefinition_storage self' =
    (if is_outbound framedef (ego_node_ids (_configuration self))
     then _input_framedefinition_storage self
     else _input_framedefinition_storage self ++ [framedef]).
Proof.
  unfold init_framedefinition. intros H.
  destruct (is_outbound framedef (ego_node_ids (_configuration self))).
  - apply bind_Ok in H as (fr & _ & H).
    apply bind_Ok in H as ([self1 fr1] & Hsigs & H). injection H as <-.
    apply init_signals_keep in Hsigs. cbn [fst] in Hsigs.
    destruct Hsigs as (-> & -> & -> & -> & ->). repeat split.
  - injection H as <-. repeat split.
Qed.

Lemma init_framedefinitions_fold (l : list (Z * CanFrameDefinition)) (self bus : CanBus) :
  foldM init_framedefinition l self = Ok bus ->
  NoDup (map fst l) ->
  _configuration bus = _configuration self /\
  _use_bcm bus = _use_bcm self /\
  socket_log bus = socket_log self /\
  _input_framedefinition_storage bus =
    _input_framedefinition_storage self
    ++ map snd (filter (fun it => is_outbound it.2 (ego_node_ids (_configuration self)) = false) l) /\
  forall frameID,
    _output_framedefinition_storage bus !! frameID =
      match list_find (fun it => it.1 = frameID) l with
      | Some (_, (_, framedef)) =>
          if is_outbound framedef (ego_node_ids (_configuration self))
          then Some framedef
          else _output_framedefinition_storage self !! frameID
      | None => _output_framedefinition_storage self !! frameID
      end.
Proof.
  revert self. induction l as [|[k fd] l IH]; intros self H Hnodup.
  - injection H as <-. cbn. rewrite app_nil_r. repeat split.
  - cbn [foldM] in H. apply bind_Ok in H as (self1 & Hstep & H).
    apply NoDup_cons in Hnodup as [Hk Hnodup].
    apply init_framedefinition_keeps in Hstep as (Hc & Hb & Hlog & Hout & Hin).
    destruct (IH self1 H Hnodup) as (-> & -> & -> & -> & Hlookup).
    rewrite Hc, Hb, Hlog, Hin.
    split; [reflexivity|]. split; [reflexivity|]. split; [reflexivity|].
    split.
    { rewrite filter_cons. cbn [snd].
      destruct (is_outbound fd (ego_node_ids (_configuration self))) eqn:Hob.
      - rewrite decide_False by discriminate. reflexivity.
      - rewrite decide_True by reflexivity. cbn [map snd]. rewrite <- app_assoc. reflexivity. }
    intros frameID. rewrite Hlookup, Hout, Hc. cbn [list_find fst].
    destruct (decide (k = frameID)) as [-> | Hne].
    + (* the key cannot come again *)
      destruct (list_find (fun it => it.1 = frameID) l) as [[i [k' fd']]|] eqn:Hfind.
      { apply list_find_Some in Hfind as (Hi & Hk' & _). cbn in Hk'. subst k'.
        exfalso. apply Hk. apply list_elem_of_fmap. exists (frameID, fd').
        split; [reflexivity|]. apply list_elem_of_lookup. exists i. exact Hi. }
      cbn [fmap option_fmap option_map].
      destruct (is_outbound fd _); [apply lookup_insert_eq | reflexivity].
    + destruct (list_find (fun it => it.1 = frameID) l) as [[i [k' fd']]|] eqn:Hfind;
        cbn [fmap option_fmap option_map prod_map fst snd id].
      * destruct (is_outbound fd' _); [reflexivity|].
        destruct (is_outbound fd _); [apply lookup_insert_ne; exact Hne | reflexivity].
      * destruct (is_outbound fd _); [apply lookup_insert_ne; exact Hne | reflexivity].
Qed.

Lemma NoDup_fst_unique {A} (l : list (Z * A)) (k : Z) (a b : A) :
  NoDup (map fst l) -> (k, a) ∈ l -> (k, b) ∈ l -> a = b.
Proof.
  induction l as [|[k' c] l IH]; intros Hnd Ha Hb.
  - apply elem_of_nil in Ha. destruct Ha.
  - cbn [map fst] in Hnd. apply NoDup_cons in Hnd as [Hk Hnd].
    apply elem_of_cons in Ha as [Ha|Ha]; apply elem_of_cons in Hb as [Hb|Hb].
    + congruence.
    + injection Ha as -> ->. exfalso. apply Hk. apply list_elem_of_fmap.
      exists (k', b). split; [reflexivity | exact Hb].
    + injection Hb as -> ->. exfalso. apply Hk. apply list_elem_of_fmap.
      exists (k', a). split; [reflexivity | exact Ha].
    + apply IH; assumption.
Qed.

(** X20. The constructor of [CanBus] sorts the frame definitions of the
    configuration by [is_outbound]: the outbound ones are stored under their
    keys, the others are listed as inbound in the order in which the
    dictionary of the configuration yields them, and nothing is written to
    the socket. *)
Theorem new_CanBus_sorts_frame_definitions (pf : platform) (config : Configuration)
    (use_bcm : bool) (bus : CanBus) :
  new_CanBus pf config use_bcm = Ok bus ->
  NoDup (map fst (framedefinitions config)) ->
  _configuration bus = config /\ _use_bcm bus = use_bcm /\ socket_log bus = [] /\
  _input_framedefinition_storage bus =
    map snd (filter (fun it => is_outbound it.2 (ego_node_ids config) = false)
                    (framedefinitions config)) /\
  forall frameID framedef,
    _output_framedefinition_storage bus !! frameID = Some framedef <->
    (frameID, framedef) ∈ framedefinitions config /\
    is_outbound framedef (ego_node_ids config) = true.
Proof.
  unfold new_CanBus. intros H Hnodup.
  pose proof H as Hfold.
  apply init_framedefinitions_fold in Hfold as (Hc & Hb & Hlog & Hin & Hout);
    [|exact Hnodup].
  cbn in Hc, Hb, Hlog, Hin, Hout.
  split; [exact Hc|]. split; [exact Hb|]. split; [exact Hlog|]. split; [exact Hin|].
  intros frameID framedef. rewrite Hout, lookup_empty.
  destruct (list_find (fun it => it.1 = frameID) (framedefinitions config))
    as [[i [k fd]]|] eqn:Hfind.
  - apply list_find_Some in Hfind as (Hi & Hk & _). cbn in Hk. subst k.
    assert ((frameID, fd) ∈ framedefinitions config) as Hfd
      by (apply list_elem_of_lookup; exists i; exact Hi).
    assert (forall fd', (frameID, fd') ∈ framedefinitions config -> fd' = fd) as Honly.
    { intros fd' Hfd'. apply (NoDup_fst_unique _ frameID fd' fd Hnodup Hfd' Hfd). }
    destruct (is_outbound fd (ego_node_ids config)) eqn:Hob; split.
    + intros [= <-]. split; [exact Hfd | exact Hob].
    + intros [Hmem _]. f_equal. symmetry. apply Honly. exact Hmem.
    + discriminate.
    + intros [Hmem Hob']. apply Honly in Hmem. subst framedef. congruence.
  - split; [discriminate|]. intros [Hmem _]. exfalso.
    eapply list_find_None in Hfind. rewrite Forall_forall in Hfind.
    apply (Hfind (frameID, framedef) Hmem). reflexivity.
Qed.

Lemma new_CanBus_sorts_frame_definitions_witness :
  _configuration mixed_bus = mixed_configuration /\
  _use_bcm mixed_bus = true /\ socket_log mixed_bus = [] /\
  _input_framedefinition_storage mixed_bus =
    map snd (filter (fun it => is_outbound it.2 (ego_node_ids mixed_configuration) = false)
                    (framedefinitions mixed_configuration)) /\
  forall frameID framedef,
    _output_framedefinition_storage mixed_bus !! frameID = Some framedef <->
    (frameID, framedef) ∈ framedefinitions mixed_configuration /\
    is_outbound framedef (ego_node_ids mixed_configuration) = true.
Proof.
  apply (new_CanBus_sorts_frame_definitions example_platform mixed_configuration true).
  - vm_compute. reflexivity.
  - cbn. repeat (apply NoDup_cons; split; [rewrite ?not_elem_of_cons, ?elem_of_nil; intuition lia|]).
    apply NoDup_nil. exact I.
Defined.

(** X22. For a frame whose status is non-periodic, the loop body of
    [send_signals] with the broadcast manager writes exactly one message, a
    [TX_SEND] without flags that carries the raw frame, and the status stays
    non-periodic. *)
Theorem send_signals_bcm_frame_nonperiodic (self : CanBus) (ref : Z) (frame : CanFrame)
    (send : datagram) :
  frame_heap self !! ref = Some frame ->
  _transmissionstatus self !! frame_id frame = Some STATUS_NONPERIODIC ->
  bcm_send_frame (host_platform self) frame = Ok send ->
  exists self' header raw,
    send_signals_bcm_frame self ref = (self', Ok tt) /\
    socket_log self' = socket_log self ++ [BcmMessage header raw] /\
    get_rawframe (native_byteorder (host_platform self)) frame = Ok raw /\
    opcode header = CAN_BCM_TX_SEND /\ flags header = 0 /\
    number_of_bcm_frames header = 1 /\
    _transmissionstatus self' = _transmissionstatus self /\
    frame_heap self' = frame_heap self.
Proof.
  intros Hframe Hstatus Hsend.
  destruct (bcm_send_frame_Ok _ _ _ Hsend) as (h & raw & -> & Hraw & Hop & Hn & Hfl).
  unfold send_signals_bcm_frame. rewrite Hframe, Hstatus.
  rewrite !bool_decide_eq_false_2 by discriminate.
  rewrite Hsend. cbn [socket_send].
  eexists _, h, raw. split; [reflexivity|].
  cbn [with_socket_log socket_log _transmissionstatus frame_heap].
  repeat split; assumption.
Qed.

Lemma send_signals_bcm_frame_nonperiodic_witness :
  exists self' header raw,
    send_signals_bcm_frame
      (with_transmissionstatus periodic_bus {[ 7 := STATUS_NONPERIODIC ]}) 7 = (self', Ok tt) /\
    socket_log self' =
      socket_log (with_transmissionstatus periodic_bus {[ 7 := STATUS_NONPERIODIC ]})
      ++ [BcmMessage header raw] /\
    get_rawframe
      (native_byteorder
         (host_platform (with_transmissionstatus periodic_bus {[ 7 := STATUS_NONPERIODIC ]})))
      {| frame_id := 7; frame_data := replicate 8 NULL_BYTE;
         frame_format := CAN_FRAMEFORMAT_STANDARD |} = Ok raw /\
    opcode header = CAN_BCM_TX_SEND /\ flags header = 0 /\
    number_of_bcm_frames header = 1 /\
    _transmissionstatus self' =
      _transmissionstatus (with_transmissionstatus periodic_bus {[ 7 := STATUS_NONPERIODIC ]}) /\
    frame_heap self' =
      frame_heap (with_transmissionstatus periodic_bus {[ 7 := STATUS_NONPERIODIC ]}).
Proof.
  eapply (send_signals_bcm_frame_nonperiodic
            (with_transmissionstatus periodic_bus {[ 7 := STATUS_NONPERIODIC ]}) 7
            {| frame_id := 7; frame_data := replicate 8 NULL_BYTE;
               frame_format := CAN_FRAMEFORMAT_STANDARD |}).
  - vm_compute. reflexivity.
  - vm_compute. reflexivity.
  - vm_compute. reflexivity.
Defined.
